(** * qcc_plus monitoring core: a shallow embedding and its verified properties

    The development follows the Go sources:
    - [internal/store/metrics.go]: raw metrics ingest, queries, roll-up and
      retention, and the order of the nodes;
    - [internal/proxy] scheduler: the delays before the first runs and the
      windows of a run;
    - [internal/proxy/api_health_history.go]: the health-history endpoint;
    - [internal/proxy/ws_hub.go]: the per-account WebSocket hub;
    - the settings handler ([SettingsHandler.UpdateSetting]) and the
      settings cache.

    The first part holds the model (one module per Go package or type), the
    second part the lemmas and theorems. *)

From stdpp Require Import gmap strings list fin_maps sorting.
From Stdlib Require Import ZArith Lia.

(* ===================================================================== *)
(** * Part I: the model *)
(* ===================================================================== *)

(** ** Go's [time] package

    A [time.Time] is modelled by the instant it denotes: the number of
    nanoseconds since the Unix epoch, read in UTC (every caller in the
    repository converts with [.UTC()] first).  A [time.Duration] is a signed
    64-bit count of nanoseconds.  Calendar fields follow the proleptic
    Gregorian calendar, as the package documents. *)
Module GoTime.
Local Open Scope Z_scope.

Abbreviation Time := Z (only parsing).
Abbreviation Duration := Z (only parsing).

Definition Nanosecond : Duration := 1.
Definition Second : Duration := 1000000000 * Nanosecond.
Definition Minute : Duration := 60 * Second.
Definition Hour : Duration := 60 * Minute.

Definition minDuration : Duration := - 2 ^ 63.
Definition maxDuration : Duration := 2 ^ 63 - 1.

(** The zero [Time] is January 1, year 1, 00:00:00 UTC. *)
Definition zeroTime : Time := -62135596800 * Second.

Definition IsZero (t : Time) : bool := Z.eqb t zeroTime.
Definition Add (t : Time) (d : Duration) : Time := t + d.
Definition After (t u : Time) : bool := Z.ltb u t.

(** [t.Sub(u)] saturates at the bounds of [Duration]. *)
Definition Sub (t u : Time) : Duration :=
  let d := t - u in
  if Z.ltb d minDuration then minDuration
  else if Z.ltb maxDuration d then maxDuration
  else d.

Definition nsPerDay : Z := 24 * Hour.

(** Days since 1970-01-01 of the UTC day that contains [t]. *)
Definition unixDays (t : Time) : Z := t / nsPerDay.

(** Year, month and day within a 400-year era, from the day of the era
    (the era starts on a March 1st). *)
Definition yoe_of_doe (doe : Z) : Z :=
  (doe - doe / 1460 + doe / 36524 - doe / 146096) / 365.
Definition doy_of_doe (doe : Z) : Z :=
  let yoe := yoe_of_doe doe in doe - (365 * yoe + yoe / 4 - yoe / 100).
Definition mp_of_doe (doe : Z) : Z := (5 * doy_of_doe doe + 2) / 153.
Definition month_of_mp (mp : Z) : Z := if Z.ltb mp 10 then mp + 3 else mp - 9.
Definition mp_of_month (m : Z) : Z := if Z.ltb 2 m then m - 3 else m + 9.
Definition dom_of_doe (doe : Z) : Z :=
  doy_of_doe doe - (153 * mp_of_doe doe + 2) / 5 + 1.
Definition janfeb (m : Z) : Z := if Z.leb m 2 then 1 else 0.

(** Calendar date of a day number. *)
Definition civil_from_days (z : Z) : Z * Z * Z :=
  let z' := z + 719468 in
  let era := z' / 146097 in
  let doe := z' mod 146097 in
  let m := month_of_mp (mp_of_doe doe) in
  (yoe_of_doe doe + era * 400 + janfeb m, m, dom_of_doe doe).

(** Day number of a calendar date; linear in the day of the month, so a day
    outside the month carries over as [time.Date] normalises it. *)
Definition days_from_civil (y m d : Z) : Z :=
  let y' := y - janfeb m in
  let era := y' / 400 in
  let yoe := y' mod 400 in
  let doy := (153 * mp_of_month m + 2) / 5 + d - 1 in
  let doe := yoe * 365 + yoe / 4 - yoe / 100 + doy in
  era * 146097 + doe - 719468.

Definition Year (t : Time) : Z := (civil_from_days (unixDays t)).1.1.
Definition Month (t : Time) : Z := (civil_from_days (unixDays t)).1.2.
Definition Day (t : Time) : Z := (civil_from_days (unixDays t)).2.
(** Nanoseconds elapsed in the day of [t]: its clock and nanosecond fields. *)
Definition nsOfDay (t : Time) : Z := t mod nsPerDay.

(** [time.Date(year, month, day, hour, min, sec, nsec, time.UTC)]: the month
    is normalised into 1..12 with carry into the year; the other fields
    simply add up. *)
Definition Date (year month day hour min sec nsec : Z) : Time :=
  let m0 := month - 1 in
  let y := year + m0 / 12 in
  let m := m0 mod 12 + 1 in
  (days_from_civil y m 1 + (day - 1)) * nsPerDay
  + hour * Hour + min * Minute + sec * Second + nsec * Nanosecond.

(** [t.AddDate(years, months, days)]. *)
Definition AddDate (t : Time) (years months days : Z) : Time :=
  Date (Year t + years) (Month t + months) (Day t + days) 0 0 0 (nsOfDay t).

End GoTime.

(** ** [internal/store]: the metrics tables *)
Module Store.
Import GoTime.
Local Open Scope Z_scope.

(** *** 64-bit signed arithmetic *)
Definition wrap64 (z : Z) : Z := (z + 2 ^ 63) mod 2 ^ 64 - 2 ^ 63.
Definition add64 (a b : Z) : Z := wrap64 (a + b).
Definition sub64 (a b : Z) : Z := wrap64 (a - b).
Definition int64 (z : Z) : Prop := - 2 ^ 63 ≤ z < 2 ^ 63.

(** Modelled from the spec: the [MetricsRecord] struct is declared outside
    the files at hand; its fields are the ones [InsertMetrics] and
    [QueryMetrics] read and write, and the spec makes every counter a 64-bit
    integer. *)
Record MetricsRecord := {
  AccountID : string;
  NodeID : string;
  Timestamp : Time;
  RequestsTotal : Z;
  RequestsSuccess : Z;
  RequestsFailed : Z;
  ResponseTimeSumMs : Z;
  ResponseTimeCount : Z;
  BytesTotal : Z;
  InputTokensTotal : Z;
  OutputTokensTotal : Z;
  FirstByteTimeSumMs : Z;
  StreamDurationSumMs : Z;
}.

(** Modelled from the spec: [normalizeAccount] is declared outside the files
    at hand; the spec says it maps the empty account id to a canonical one
    and nothing else. *)
Definition DefaultAccountID : string := "default".
Definition normalizeAccount (id : string) : string :=
  if decide (id = EmptyString) then DefaultAccountID else id.

(** Modelled from the spec: [MetricsGranularity] is a string type declared
    outside the files at hand, with the four granularities of the spec; any
    other string is [GranularityOther]. *)
Inductive MetricsGranularity :=
  | MetricsGranularityRaw
  | MetricsGranularityHourly
  | MetricsGranularityDaily
  | MetricsGranularityMonthly
  | GranularityOther (name : string).

(** *** Tables *)

(** The ten counter columns shared by the four tables. *)
Record Counters := {
  requests_total : Z;
  requests_success : Z;
  requests_failed : Z;
  response_time_sum_ms : Z;
  response_time_count : Z;
  bytes_total : Z;
  input_tokens_total : Z;
  output_tokens_total : Z;
  first_byte_time_sum_ms : Z;
  stream_duration_sum_ms : Z;
}.

Definition counters_zero : Counters :=
  Build_Counters 0 0 0 0 0 0 0 0 0 0.

(** Column-wise [SUM]. *)
Definition counters_add (a b : Counters) : Counters := {|
  requests_total := requests_total a + requests_total b;
  requests_success := requests_success a + requests_success b;
  requests_failed := requests_failed a + requests_failed b;
  response_time_sum_ms := response_time_sum_ms a + response_time_sum_ms b;
  response_time_count := response_time_count a + response_time_count b;
  bytes_total := bytes_total a + bytes_total b;
  input_tokens_total := input_tokens_total a + input_tokens_total b;
  output_tokens_total := output_tokens_total a + output_tokens_total b;
  first_byte_time_sum_ms := first_byte_time_sum_ms a + first_byte_time_sum_ms b;
  stream_duration_sum_ms := stream_duration_sum_ms a + stream_duration_sum_ms b;
|}.

(** A row of any metrics table: tenant, node, time column ([ts] in the raw
    table, [bucket_start] in the aggregated ones) and the counters. *)
Record Row := {
  account_id : string;
  node_id : string;
  ts : Time;
  cnt : Counters;
}.

(** Primary key of the aggregated tables:
    [(account_id, node_id, bucket_start)]. *)
Abbreviation BucketKey := (string * string * Z)%type (only parsing).

(** The raw table has no unique key and keeps every inserted row; an
    aggregated table holds at most one row per key. *)
Record Tables := {
  node_metrics_raw : list Row;
  node_metrics_hourly : gmap BucketKey Counters;
  node_metrics_daily : gmap BucketKey Counters;
  node_metrics_monthly : gmap BucketKey Counters;
}.

(** How the engine reads the name [bucket_start] in the [GROUP BY] of the
    roll-up when the source table has a column of that name, which the
    select list shadows with [.. AS bucket_start]: as the bucket of the
    select list, which is the reading of the spec, or as the source column,
    which is the reading MySQL documents for [GROUP BY]. *)
Inductive GroupBy := GroupByBucket | GroupByColumn.

(** The database handle [s.db]: the tables, the outcomes the driver is going
    to report for the coming statements ([true] is an error; past the end of
    the script every statement succeeds), and the engine's reading of
    [GROUP BY]. *)
Record DB := {
  tables : Tables;
  faults : list bool;
  engine : GroupBy;
}.

Inductive error :=
  | ErrDriver
  | ErrUnsupported (g : MetricsGranularity).

(** [s.db.ExecContext]: a statement either takes effect as a whole or fails
    and leaves the tables as they were. *)
Definition ExecContext (stmt : Tables → Tables) (db : DB) : DB * option error :=
  match faults db with
  | true :: fs =>
      ({| tables := tables db; faults := fs; engine := engine db |},
       Some ErrDriver)
  | false :: fs =>
      ({| tables := stmt (tables db); faults := fs; engine := engine db |},
       None)
  | [] =>
      ({| tables := stmt (tables db); faults := []; engine := engine db |},
       None)
  end.

Inductive Table := TRaw | THourly | TDaily | TMonthly.
Inductive AggTable := AHourly | ADaily | AMonthly.

Definition rows_of_agg (m : gmap BucketKey Counters) : list Row :=
  (λ kv, {| account_id := kv.1.1.1; node_id := kv.1.1.2; ts := kv.1.2;
            cnt := kv.2 |}) <$> map_to_list m.

Definition rows_of (t : Table) (tb : Tables) : list Row :=
  match t with
  | TRaw => node_metrics_raw tb
  | THourly => rows_of_agg (node_metrics_hourly tb)
  | TDaily => rows_of_agg (node_metrics_daily tb)
  | TMonthly => rows_of_agg (node_metrics_monthly tb)
  end.

Definition agg_table (t : AggTable) (tb : Tables) : gmap BucketKey Counters :=
  match t with
  | AHourly => node_metrics_hourly tb
  | ADaily => node_metrics_daily tb
  | AMonthly => node_metrics_monthly tb
  end.

Definition set_agg_table (t : AggTable) (m : gmap BucketKey Counters)
    (tb : Tables) : Tables :=
  match t with
  | AHourly => {| node_metrics_raw := node_metrics_raw tb;
                  node_metrics_hourly := m;
                  node_metrics_daily := node_metrics_daily tb;
                  node_metrics_monthly := node_metrics_monthly tb |}
  | ADaily => {| node_metrics_raw := node_metrics_raw tb;
                 node_metrics_hourly := node_metrics_hourly tb;
                 node_metrics_daily := m;
                 node_metrics_monthly := node_metrics_monthly tb |}
  | AMonthly => {| node_metrics_raw := node_metrics_raw tb;
                   node_metrics_hourly := node_metrics_hourly tb;
                   node_metrics_daily := node_metrics_daily tb;
                   node_metrics_monthly := m |}
  end.

(** The ingest invariant of the spec on a stored row. *)
Definition total_covers (c : Counters) : Prop :=
  requests_success c + requests_failed c ≤ requests_total c.

(** *** InsertMetrics *)

(** The three derivations of missing counters, in the order of the code. *)
Definition deriveTotal (rec : MetricsRecord) : Z :=
  if Z.eqb (RequestsTotal rec) 0
  then add64 (RequestsSuccess rec) (RequestsFailed rec)
  else RequestsTotal rec.

Definition deriveSuccess (rec : MetricsRecord) : Z :=
  if Z.eqb (RequestsSuccess rec) 0 && Z.ltb 0 (deriveTotal rec)
  then sub64 (deriveTotal rec) (RequestsFailed rec)
  else RequestsSuccess rec.

Definition deriveResponseTimeCount (rec : MetricsRecord) : Z :=
  if Z.eqb (ResponseTimeCount rec) 0 && Z.ltb 0 (deriveTotal rec)
  then deriveTotal rec
  else ResponseTimeCount rec.

(** The row handed to the [INSERT INTO node_metrics_raw] statement. *)
Definition rawRow (clock : Time) (rec : MetricsRecord) : Row := {|
  account_id := normalizeAccount (AccountID rec);
  node_id := NodeID rec;
  ts := if IsZero (Timestamp rec) then clock else Timestamp rec;
  cnt := {|
    requests_total := deriveTotal rec;
    requests_success := deriveSuccess rec;
    requests_failed := RequestsFailed rec;
    response_time_sum_ms := ResponseTimeSumMs rec;
    response_time_count := deriveResponseTimeCount rec;
    bytes_total := BytesTotal rec;
    input_tokens_total := InputTokensTotal rec;
    output_tokens_total := OutputTokensTotal rec;
    first_byte_time_sum_ms := FirstByteTimeSumMs rec;
    stream_duration_sum_ms := StreamDurationSumMs rec;
  |};
|}.

Definition insert_raw (r : Row) (tb : Tables) : Tables := {|
  node_metrics_raw := node_metrics_raw tb ++ [r];
  node_metrics_hourly := node_metrics_hourly tb;
  node_metrics_daily := node_metrics_daily tb;
  node_metrics_monthly := node_metrics_monthly tb;
|}.

(** [clock] is the reading of [time.Now().UTC()]. *)
Definition InsertMetrics (clock : Time) (rec : MetricsRecord) (db : DB)
    : DB * option error :=
  ExecContext (insert_raw (rawRow clock rec)) db.

(** *** AggregateMetrics *)

(** The bucket expressions of the three roll-ups, as functions of the source
    time column: [DATE_FORMAT(ts, '%Y-%m-%d %H:00:00')], [DATE(bucket_start)]
    and [DATE_FORMAT(bucket_start, '%Y-%m-01 00:00:00')]. *)
Inductive BucketExpr := HourOf | DateOf | MonthOf.

Definition bucket (e : BucketExpr) (t : Time) : Time :=
  match e with
  | HourOf => t / Hour * Hour
  | DateOf => t / nsPerDay * nsPerDay
  | MonthOf => Date (Year t) (Month t) 1 0 0 0 0
  end.

Definition aggregationPlan (target : MetricsGranularity)
    : (Table * AggTable * BucketExpr) + error :=
  match target with
  | MetricsGranularityHourly => inl (TRaw, AHourly, HourOf)
  | MetricsGranularityDaily => inl (THourly, ADaily, DateOf)
  | MetricsGranularityMonthly => inl (TDaily, AMonthly, MonthOf)
  | _ => inr (ErrUnsupported target)
  end.

(** The window of the statement: a zero [to] is the clock, a zero [from]
    lies a target-dependent span before [to]. *)
Definition windowTo (clock to : Time) : Time :=
  if IsZero to then clock else to.

Definition windowFrom (target : MetricsGranularity) (from to : Time) : Time :=
  if IsZero from then
    match target with
    | MetricsGranularityHourly => Add to (-24 * Hour)
    | MetricsGranularityDaily => AddDate to 0 0 (-7)
    | MetricsGranularityMonthly => AddDate to 0 (-1) 0
    | _ => from
    end
  else from.

(** [WHERE col >= ? AND col < ? [AND account_id=?]]; the account filter is
    present only for a non-empty [accountID]. *)
Definition in_window (from to : Time) (accountID : string) (r : Row) : bool :=
  Z.leb from (ts r) && Z.ltb (ts r) to
  && (bool_decide (accountID = EmptyString)
      || bool_decide (account_id r = normalizeAccount accountID)).

(** The bucket a source row falls into: the key of its destination row. *)
Definition bucketKey (e : BucketExpr) (r : Row) : BucketKey :=
  (account_id r, node_id r, bucket e (ts r)).

(** The reading of [GROUP BY .. bucket_start] for a source table: the raw
    table has no column of that name (its time column is [ts]), so the name
    is the bucket of the select list; for the aggregated tables the engine
    decides. *)
Definition groupBy (g : GroupBy) (src : Table) : GroupBy :=
  match src with
  | TRaw => GroupByBucket
  | _ => g
  end.

(** The values a source row is grouped by. *)
Definition groupKey (g : GroupBy) (e : BucketExpr) (r : Row) : BucketKey :=
  (account_id r, node_id r,
   match g with
   | GroupByBucket => bucket e (ts r)
   | GroupByColumn => ts r
   end).

(** [SELECT account_id, node_id, bucket AS bucket_start, SUM(..), ..
    GROUP BY account_id, node_id, bucket_start]: per group, the bucket of
    the select list and the column-wise sums. *)
Definition group_sum (g : GroupBy) (e : BucketExpr) (rows : list Row)
    : gmap BucketKey (Time * Counters) :=
  foldr (λ r acc,
           let k := groupKey g e r in
           <[k := (bucket e (ts r),
                   counters_add (cnt r)
                     (default counters_zero (snd <$> acc !! k)))]> acc)
        ∅ rows.

(** The rows of the select, one per group, each with the key of its
    destination row, in the order in which the engine yields them (some
    order that depends on the groups only). *)
Definition selected (g : GroupBy) (e : BucketExpr) (rows : list Row)
    : list (BucketKey * Counters) :=
  (λ kv, ((kv.1.1.1, kv.1.1.2, kv.2.1), kv.2.2))
    <$> map_to_list (group_sum g e rows).

(** The column-wise sum of the counters of some rows. *)
Definition sum_counters (rows : list Row) : Counters :=
  foldr (λ r acc, counters_add (cnt r) acc) counters_zero rows.

(** The source rows of a window that fall into the bucket with key [k]. *)
Definition window_rows (src : Table) (e : BucketExpr) (from to : Time)
    (accountID : string) (tb : Tables) (k : BucketKey) : list Row :=
  filter (λ r, bucketKey e r = k)
         (filter (λ r, in_window from to accountID r = true) (rows_of src tb)).

(** [INSERT INTO dst .. ON DUPLICATE KEY UPDATE col=VALUES(col), ..], row by
    row: a selected row replaces the counters of the row with its key, and
    is inserted when there is none. *)
Definition upsert (sel : list (BucketKey * Counters))
    (dst : gmap BucketKey Counters) : gmap BucketKey Counters :=
  foldl (λ d kv, <[kv.1 := kv.2]> d) dst sel.

Definition aggregate_stmt (g : GroupBy) (src : Table) (dst : AggTable)
    (e : BucketExpr) (from to : Time) (accountID : string) (tb : Tables)
    : Tables :=
  let sel := selected (groupBy g src) e
               (filter (λ r, in_window from to accountID r = true)
                       (rows_of src tb)) in
  set_agg_table dst (upsert sel (agg_table dst tb)) tb.

Definition AggregateMetrics (clock : Time) (accountID : string)
    (target : MetricsGranularity) (from to : Time) (db : DB)
    : DB * option error :=
  match aggregationPlan target with
  | inr e => (db, Some e)
  | inl (src, dst, e) =>
      let to' := windowTo clock to in
      let from' := windowFrom target from to' in
      ExecContext (aggregate_stmt (engine db) src dst e from' to' accountID) db
  end.

(** *** CleanupMetrics *)

Definition retentionRaw : Duration := 7 * 24 * Hour.
Definition retentionHourly : Duration := 30 * 24 * Hour.
Definition retentionDaily : Duration := 365 * 24 * Hour.

Definition cuts : list (Table * Duration) :=
  [(TRaw, retentionRaw); (THourly, retentionHourly); (TDaily, retentionDaily)].

(** A row survives [DELETE FROM t WHERE col < ? [AND account_id=?]] unless it
    is older than the cutoff and, when an account is given, belongs to it. *)
Definition doomed (cutoff : Time) (account : string) (acct : string) (t : Time)
    : bool :=
  Z.ltb t cutoff && (bool_decide (account = EmptyString) || bool_decide (acct = account)).

Definition delete_agg (cutoff : Time) (account : string)
    (m : gmap BucketKey Counters) : gmap BucketKey Counters :=
  filter (λ kv, doomed cutoff account kv.1.1.1 kv.1.2 = false) m.

Definition delete_stmt (t : Table) (cutoff : Time) (account : string)
    (tb : Tables) : Tables :=
  match t with
  | TRaw => {|
      node_metrics_raw :=
        filter (λ r, doomed cutoff account (account_id r) (ts r) = false)
               (node_metrics_raw tb);
      node_metrics_hourly := node_metrics_hourly tb;
      node_metrics_daily := node_metrics_daily tb;
      node_metrics_monthly := node_metrics_monthly tb |}
  | THourly =>
      set_agg_table AHourly (delete_agg cutoff account (node_metrics_hourly tb)) tb
  | TDaily =>
      set_agg_table ADaily (delete_agg cutoff account (node_metrics_daily tb)) tb
  | TMonthly =>
      set_agg_table AMonthly (delete_agg cutoff account (node_metrics_monthly tb)) tb
  end.

(** The loop over [cuts]: one [DELETE] per table, stopping at the first
    error. *)
Fixpoint cleanupLoop (cs : list (Table * Duration)) (now : Time)
    (account : string) (db : DB) : DB * option error :=
  match cs with
  | [] => (db, None)
  | (t, keep) :: cs' =>
      let cutoff := Add now (- keep) in
      match ExecContext (delete_stmt t cutoff account) db with
      | (db', Some err) => (db', Some err)
      | (db', None) => cleanupLoop cs' now account db'
      end
  end.

Definition cleanupNow (clock now : Time) : Time :=
  if IsZero now then clock else now.

Definition cleanupAccount (accountID : string) : string :=
  if decide (accountID = EmptyString) then accountID else normalizeAccount accountID.

Definition CleanupMetrics (clock : Time) (accountID : string) (now : Time)
    (db : DB) : DB * option error :=
  cleanupLoop cuts (cleanupNow clock now) (cleanupAccount accountID) db.

(** The tables after the three deletes, in the order of [cuts]. *)
Definition cleaned (now : Time) (account : string) (tb : Tables) : Tables :=
  delete_stmt TDaily (Add now (- retentionDaily)) account
    (delete_stmt THourly (Add now (- retentionHourly)) account
       (delete_stmt TRaw (Add now (- retentionRaw)) account tb)).

(** The rows a call with [accountID] is aimed at: every row for the empty
    id, the rows of the normalised account otherwise. *)
Definition targeted (accountID : string) (acct : string) : Prop :=
  accountID = EmptyString ∨ acct = normalizeAccount accountID.

End Store.

(** ** [internal/proxy]: the metrics scheduler *)
Module Scheduler.
Import GoTime.
Local Open Scope Z_scope.

Definition defaultAggregateInterval : Duration := Hour.
Definition defaultCleanupInterval : Duration := 24 * Hour.
(** 02:00 UTC *)
Definition cleanupHour : Z := 2.

(** The two intervals of a [MetricsScheduler]; its store, logger, stop
    channel and wait group play no part in the delays. *)
Record MetricsScheduler := {
  aggregateInterval : Duration;
  cleanupInterval : Duration;
}.

Definition NewMetricsScheduler : MetricsScheduler := {|
  aggregateInterval := defaultAggregateInterval;
  cleanupInterval := defaultCleanupInterval;
|}.

(** The part of [Start] that precedes the two loops: non-positive intervals
    are replaced by the defaults. *)
Definition Start (m : MetricsScheduler) : MetricsScheduler := {|
  aggregateInterval :=
    if Z.leb (aggregateInterval m) 0 then defaultAggregateInterval
    else aggregateInterval m;
  cleanupInterval :=
    if Z.leb (cleanupInterval m) 0 then defaultCleanupInterval
    else cleanupInterval m;
|}.

Definition startOfDay (t : Time) : Time :=
  Date (Year t) (Month t) (Day t) 0 0 0 0.

Definition nextCleanupDelay (m : MetricsScheduler) (now : Time) : Duration :=
  if Z.leb (20 * Hour) (cleanupInterval m) then
    let next := Date (Year now) (Month now) (Day now) cleanupHour 0 0 0 in
    let next := if negb (After next now) then Add next (24 * Hour) else next in
    Sub next now
  else if Z.leb (cleanupInterval m) 0 then defaultCleanupInterval
  else cleanupInterval m.

(** 02:00 UTC of the UTC day that contains [now]. *)
Definition twoOClock (now : Time) : Time :=
  now / nsPerDay * nsPerDay + 2 * Hour.

(** *** Sample schedulers and instants *)

(** The scheduler with a zero cleanup interval. *)
Definition zeroInterval : MetricsScheduler :=
  {| aggregateInterval := Hour; cleanupInterval := 0 |}.

(** 2025-11-25T10:00:00Z. *)
Definition at_10_00 : Time := 1764064800 * Second.
(** 2025-11-25T01:30:00Z. *)
Definition at_01_30 : Time := 1764034200 * Second.

End Scheduler.

(** ** [internal/proxy/ws_hub.go]: the WebSocket hub

    The hub goroutine [Run] is the only reader of the channels [register],
    [unregister] and [broadcast] and the only code that touches the
    [clients] map.  The model keeps the map, the buffered contents of
    [register] and [unregister], and the state of every client's [send]
    channel; an execution is a sequence of events, each one step of [Run] or
    of a goroutine around it. *)
Module Hub.

(** The [interface{}] payload of a message: a value [json.Marshal] encodes,
    given by its encoding, or one it rejects (a channel, a function, ...). *)
Inductive Payload :=
  | PayloadJSON (text : string)
  | PayloadUnsupported.

Record WSMessage := {
  AccountID : string;
  Type_ : string;
  Payload_ : Payload;
}.

(** The bytes [json.Marshal] produces for a [WSMessage]: the object with the
    members [account_id], [type] and [payload]. *)
Record Frame := {
  account_id : string;
  type_ : string;
  payload : string;
}.

#[global] Instance Frame_eq_dec : EqDecision Frame.
Proof. solve_decision. Defined.

Definition json_Marshal (m : WSMessage) : option Frame :=
  match Payload_ m with
  | PayloadJSON text =>
      Some {| account_id := AccountID m; type_ := Type_ m; payload := text |}
  | PayloadUnsupported => None
  end.

(** A [*WSClient]: the connection handle tells apart the clients of one
    account; [accountID] and [isShare] are never assigned after creation.
    The [send] channel, the mutable part, is kept in the hub state. *)
Record WSClient := {
  conn : positive;
  accountID : string;
  isShare : bool;
}.

#[global] Instance WSClient_eq_dec : EqDecision WSClient.
Proof. solve_decision. Defined.

#[global] Instance WSClient_countable : Countable WSClient.
Proof.
  refine (inj_countable' (λ c, (conn c, accountID c, isShare c))
                         (λ t, {| conn := t.1.1; accountID := t.1.2;
                                  isShare := t.2 |}) _).
  intros []; reflexivity.
Defined.

(** A buffered channel of frames: the frames waiting in it, and whether it
    has been closed. *)
Record Chan := {
  buf : list Frame;
  closed : bool;
}.

#[global] Instance Chan_eq_dec : EqDecision Chan.
Proof. solve_decision. Defined.

(** [make(chan []byte, 256)], [make(chan *WSClient, 10)] twice. *)
Definition sendCap : nat := 256.
Definition registerCap : nat := 10.
Definition unregisterCap : nat := 10.

Definition newChan : Chan := {| buf := []; closed := false |}.

Record WSHub := {
  clients : gmap string (gset WSClient);
  register : list WSClient;
  unregister : list (option WSClient);
  (** the [send] channel of every client created so far *)
  sends : gmap WSClient Chan;
  (** the handle of the next connection *)
  nextConn : positive;
  (** history: every frame put on a client's [send] channel *)
  delivered : list (WSClient * Frame);
  (** history: every [close(client.send)] executed *)
  closeLog : list WSClient;
}.

Definition NewWSHub : WSHub := {|
  clients := ∅; register := []; unregister := []; sends := ∅;
  nextConn := 1%positive; delivered := []; closeLog := [];
|}.

Definition set_clients (m : gmap string (gset WSClient)) (h : WSHub) : WSHub :=
  {| clients := m; register := register h; unregister := unregister h;
     sends := sends h; nextConn := nextConn h; delivered := delivered h;
     closeLog := closeLog h |}.

Definition set_register (q : list WSClient) (h : WSHub) : WSHub :=
  {| clients := clients h; register := q; unregister := unregister h;
     sends := sends h; nextConn := nextConn h; delivered := delivered h;
     closeLog := closeLog h |}.

Definition set_unregister (q : list (option WSClient)) (h : WSHub) : WSHub :=
  {| clients := clients h; register := register h; unregister := q;
     sends := sends h; nextConn := nextConn h; delivered := delivered h;
     closeLog := closeLog h |}.

Definition set_chan (c : WSClient) (ch : Chan) (h : WSHub) : WSHub :=
  {| clients := clients h; register := register h; unregister := unregister h;
     sends := <[c := ch]> (sends h); nextConn := nextConn h;
     delivered := delivered h; closeLog := closeLog h |}.

Definition log_delivered (c : WSClient) (f : Frame) (h : WSHub) : WSHub :=
  {| clients := clients h; register := register h; unregister := unregister h;
     sends := sends h; nextConn := nextConn h;
     delivered := delivered h ++ [(c, f)]; closeLog := closeLog h |}.

Definition log_close (c : WSClient) (h : WSHub) : WSHub :=
  {| clients := clients h; register := register h; unregister := unregister h;
     sends := sends h; nextConn := nextConn h; delivered := delivered h;
     closeLog := c :: closeLog h |}.

Definition set_nextConn (n : positive) (h : WSHub) : WSHub :=
  {| clients := clients h; register := register h; unregister := unregister h;
     sends := sends h; nextConn := n; delivered := delivered h;
     closeLog := closeLog h |}.

Definition chan_of (h : WSHub) (c : WSClient) : Chan :=
  default newChan (sends h !! c).

(** [h.clients[accountID]]: the inner map, empty when there is none. *)
Definition clients_of (h : WSHub) (acct : string) : gset WSClient :=
  default ∅ (clients h !! acct).

(** The [send] channel of [c] has no room for another frame. *)
Definition full (h : WSHub) (c : WSClient) : Prop :=
  sendCap ≤ length (buf (chan_of h c)).

#[global] Instance full_dec h c : Decision (full h c).
Proof. unfold full. apply _. Defined.

(** What a step of the hub goroutine leads to: the hub goes on, blocks for
    ever on a channel nobody else reads, or panics.  Each outcome carries the
    hub as it is at that point. *)
Inductive Outcome :=
  | Running (h : WSHub)
  | Blocked (h : WSHub)
  | Panicked (h : WSHub).

Definition hub_of (o : Outcome) : WSHub :=
  match o with Running h | Blocked h | Panicked h => h end.

Definition addClient (client : option WSClient) (h : WSHub) : WSHub :=
  match client with
  | None => h
  | Some c =>
      set_clients
        (<[accountID c := {[c]} ∪ clients_of h (accountID c)]> (clients h)) h
  end.

(** [close] of a closed channel panics. *)
Definition removeClient (client : option WSClient) (h : WSHub) : Outcome :=
  match client with
  | None => Running h
  | Some c =>
      match clients h !! accountID c with
      | Some cs =>
          if decide (c ∈ cs) then
            let cs' := cs ∖ {[c]} in
            let h1 := set_clients (<[accountID c := cs']> (clients h)) h in
            let ch := chan_of h1 c in
            let h2 := log_close c h1 in
            if closed ch then Panicked h2
            else
              let h3 := set_chan c {| buf := buf ch; closed := true |} h2 in
              if decide (size cs' = 0)
              then Running (set_clients (delete (accountID c) (clients h3)) h3)
              else Running h3
          else Running h
      | None => Running h
      end
  end.

(** One round of the loop of [broadcastToAccount]: the non-blocking send on
    [client.send] (a send on a closed channel panics), and in the [default]
    branch the blocking send on [h.unregister], which the hub goroutine
    itself would have to receive. *)
Definition trySend (data : Frame) (c : WSClient) (h : WSHub) : Outcome :=
  let ch := chan_of h c in
  if closed ch then Panicked h
  else if decide (length (buf ch) < sendCap) then
    Running (log_delivered c data
               (set_chan c {| buf := buf ch ++ [data]; closed := false |} h))
  else if decide (length (unregister h) < unregisterCap) then
    Running (set_unregister (unregister h ++ [Some c]) h)
  else Blocked h.

Fixpoint sendLoop (data : Frame) (order : list WSClient) (h : WSHub) : Outcome :=
  match order with
  | [] => Running h
  | c :: rest =>
      match trySend data c h with
      | Running h' => sendLoop data rest h'
      | o => o
      end
  end.

(** [order] is the order in which [range clients] yields the clients. *)
Definition broadcastToAccount (message : option WSMessage)
    (order : list WSClient) (h : WSHub) : Outcome :=
  match message with
  | None => Running h
  | Some msg =>
      if decide (size (clients_of h (AccountID msg)) = 0) then Running h
      else
        match json_Marshal msg with
        | None => Running h
        | Some data => sendLoop data order h
        end
  end.

(** [handleMonitorWebSocket], once the request is authenticated for
    [acct] and upgraded: a new client with a new [send] channel is sent on
    [register]. *)
Definition connect (acct : string) (h : WSHub) : WSHub :=
  let c := {| conn := nextConn h; accountID := acct; isShare := false |} in
  set_nextConn (Pos.succ (nextConn h))
    (set_register (register h ++ [c]) (set_chan c newChan h)).

Inductive Event :=
  (** a connection is accepted and its client sent on [register] *)
  | Connect (acct : string)
  (** [Run] receives from [register] *)
  | RecvRegister
  (** a goroutine of a client sends the client on [unregister] *)
  | PumpExit (c : option WSClient)
  (** [Run] receives from [unregister] *)
  | RecvUnregister
  (** [Run] receives a message from [broadcast] and ranges over the
      clients of its account in the given order *)
  | RecvBroadcast (m : option WSMessage) (order : list WSClient)
  (** the writer of a client receives one frame from its [send] channel *)
  | WriteFrame (c : WSClient).

(** A range over a map yields every key once, in some order. *)
Definition range_order (h : WSHub) (m : option WSMessage)
    (order : list WSClient) : Prop :=
  match m with
  | None => True
  | Some msg => NoDup order ∧ list_to_set order = clients_of h (AccountID msg)
  end.

#[global] Instance range_order_dec h m order : Decision (range_order h m order).
Proof. destruct m; cbn; apply _. Defined.

(** An event that cannot take place in a state (a receive from an empty
    channel, a send of another goroutine on a full one, an impossible range
    order) leaves the state as it is. *)
Definition step (h : WSHub) (ev : Event) : Outcome :=
  match ev with
  | Connect acct =>
      if decide (length (register h) < registerCap)
      then Running (connect acct h) else Running h
  | RecvRegister =>
      match register h with
      | [] => Running h
      | c :: q => Running (addClient (Some c) (set_register q h))
      end
  | PumpExit c =>
      if decide (length (unregister h) < unregisterCap)
      then Running (set_unregister (unregister h ++ [c]) h) else Running h
  | RecvUnregister =>
      match unregister h with
      | [] => Running h
      | c :: q => removeClient c (set_unregister q h)
      end
  | RecvBroadcast m order =>
      if decide (range_order h m order)
      then broadcastToAccount m order h else Running h
  | WriteFrame c =>
      match buf (chan_of h c) with
      | [] => Running h
      | _ :: fs =>
          Running (set_chan c {| buf := fs; closed := closed (chan_of h c) |} h)
      end
  end.

(** A blocked or panicked hub goroutine takes no further step. *)
Fixpoint run (h : WSHub) (evs : list Event) : Outcome :=
  match evs with
  | [] => Running h
  | ev :: evs' =>
      match step h ev with
      | Running h' => run h' evs'
      | o => o
      end
  end.

(** What holds of every hub reached from [NewWSHub]. *)
Record Inv (h : WSHub) : Prop := {
  inv_member :
    (∀ acct cs c,
       clients h !! acct = Some cs → c ∈ cs →
       accountID c = acct ∧ closed (chan_of h c) = false
       ∧ (c ∉ register h) ∧ (conn c < nextConn h)%positive);
  inv_register :
    (∀ c, c ∈ register h →
          closed (chan_of h c) = false ∧ (conn c < nextConn h)%positive);
  inv_register_nodup : NoDup (register h);
  inv_buf : (∀ c f, f ∈ buf (chan_of h c) → account_id f = accountID c);
  inv_delivered : (∀ c f, (c, f) ∈ delivered h → account_id f = accountID c);
  inv_closeLog_nodup : NoDup (closeLog h);
  inv_closeLog :
    (∀ c, c ∈ closeLog h →
          closed (chan_of h c) = true ∧ (conn c < nextConn h)%positive);
}.

Definition panicked (o : Outcome) : Prop :=
  match o with Panicked _ => True | _ => False end.

End Hub.

(** ** [internal/store/settings.go]: settings and their store *)
Module Settings.
Local Open Scope Z_scope.

(** A value decoded from JSON into [any]. *)
Inductive any :=
  | AnyNil
  | AnyBool (b : bool)
  | AnyNumber (n : Z)
  | AnyString (s : string).

Record Setting := {
  ID : Z;
  Key : string;
  Scope : string;
  AccountID : option string;
  Value : any;
  DataType : string;
  Category : string;
  Description : option string;
  IsSecret : bool;
  Version : Z;
  UpdatedBy : option string;
  UpdatedAt : Z;
  CreatedAt : Z;
}.

(** The errors of the store: the two sentinels the handler compares with,
    and any other error with its text. *)
Inductive error :=
  | ErrNotFound
  | ErrVersionConflict
  | ErrOther (text : string).

(** Modelled from the spec: [err.Error()]; the two sentinel errors are
    declared outside the files at hand, and their texts here are the names
    the spec gives to the error kinds. *)
Definition Error_ (e : error) : string :=
  match e with
  | ErrNotFound => "not found"
  | ErrVersionConflict => "version conflict"
  | ErrOther text => text
  end.

(** The methods of the [SettingsStore] interface that [UpdateSetting] calls.
    A method that takes a [*Setting] may write to it, so it returns the
    setting as it leaves it; [GetSetting] returns its pointer and its
    error. *)
Class SettingsStore (S : Type) := {
  GetSetting : S → string → string → string → option Setting * option error;
  UpsertSetting : S → Setting → S * Setting * option error;
  UpdateSetting : S → Setting → S * Setting * option error;
}.

(** *** A store in memory *)

(** Modelled from the spec: the implementation of [SettingsStore] is outside
    the files at hand.  This one follows section 4.C of the spec: rows keyed
    by [(key, scope, account_id)]; [UpsertSetting] creates or replaces and
    sets the version to the current one plus one (1 for a new row);
    [UpdateSetting] changes the row only when the versions agree, bumps the
    version, and reports [VersionConflict] when no row was changed. *)
Abbreviation MemStore := (gmap (string * string * string) Setting) (only parsing).

Definition with_version (v : Z) (s : Setting) : Setting := {|
  ID := ID s; Key := Key s; Scope := Scope s; AccountID := AccountID s;
  Value := Value s; DataType := DataType s; Category := Category s;
  Description := Description s; IsSecret := IsSecret s; Version := v;
  UpdatedBy := UpdatedBy s; UpdatedAt := UpdatedAt s; CreatedAt := CreatedAt s;
|}.

Definition settingKey (s : Setting) : string * string * string :=
  (Key s, Scope s, default EmptyString (AccountID s)).

Definition memGet (m : MemStore) (key scope accountID : string)
    : option Setting * option error :=
  match m !! (key, scope, accountID) with
  | Some s => (Some s, None)
  | None => (None, Some ErrNotFound)
  end.

Definition memUpsert (m : MemStore) (s : Setting)
    : MemStore * Setting * option error :=
  let v := match m !! settingKey s with
           | Some cur => Version cur + 1
           | None => 1
           end in
  (<[settingKey s := with_version v s]> m, with_version v s, None).

Definition memUpdate (m : MemStore) (s : Setting)
    : MemStore * Setting * option error :=
  match m !! settingKey s with
  | Some cur =>
      if Z.eqb (Version cur) (Version s)
      then (<[settingKey s := with_version (Version s + 1) s]> m,
            with_version (Version s + 1) s, None)
      else (m, s, Some ErrVersionConflict)
  | None => (m, s, Some ErrVersionConflict)
  end.

#[global] Instance memStore : SettingsStore MemStore := {|
  GetSetting := memGet;
  UpsertSetting := memUpsert;
  UpdateSetting := memUpdate;
|}.

(** *** Sample stores *)

(** The key [k] at version 3, and a store that holds it. *)
Definition settingAt3 : Setting := {|
  ID := 1; Key := "k"; Scope := "system"; AccountID := None;
  Value := AnyNumber 10; DataType := "number"; Category := "monitor";
  Description := None; IsSecret := false; Version := 3;
  UpdatedBy := None; UpdatedAt := 0; CreatedAt := 0;
|}.

Definition storeAt3 : MemStore := {[ ("k", "system", EmptyString) := settingAt3 ]}.

Definition emptyStore : MemStore := ∅.

End Settings.

(** ** The settings handler *)
Module SettingsHandler.
Import Settings.
Local Open Scope Z_scope.

(** The decoded body of a [PUT]; an absent member is the zero value of its
    field, [nil] for the pointers. *)
Record updateRequest := {
  reqValue : any;
  reqScope : string;
  reqAccountID : option string;
  reqDataType : string;
  reqCategory : string;
  reqDescription : option string;
  reqIsSecret : option bool;
  reqVersion : Z;
  reqUpdatedBy : option string;
}.

(** What the handler reads of the request: whether the caller is an admin,
    and the body as [json.Decode] yields it ([None] when it fails). *)
Record Request := {
  isAdmin : bool;
  Body : option updateRequest;
}.

Inductive JSON :=
  | ErrorJSON (error : string)
  | ConflictJSON (current_version : Z)
  | SuccessJSON (new_version : Z).

Record Response := {
  Status : Z;
  Payload : JSON;
}.

Definition StatusOK : Z := 200.
Definition StatusBadRequest : Z := 400.
Definition StatusForbidden : Z := 403.
Definition StatusNotFound : Z := 404.
Definition StatusConflict : Z := 409.
Definition StatusInternalServerError : Z := 500.

Definition writeJSON (status : Z) (body : JSON) : Response :=
  {| Status := status; Payload := body |}.

Definition requestScope (req : updateRequest) : string :=
  if decide (reqScope req = EmptyString) then "system" else reqScope req.

Definition requestAccount (req : updateRequest) : string :=
  default EmptyString (reqAccountID req).

(** The setting built when no row exists; the version of the request is not
    part of it. *)
Definition newSetting (key : string) (req : updateRequest) : Setting := {|
  ID := 0;
  Key := key;
  Scope := requestScope req;
  AccountID := reqAccountID req;
  Value := reqValue req;
  DataType := reqDataType req;
  Category := reqCategory req;
  Description := reqDescription req;
  IsSecret := default false (reqIsSecret req);
  Version := 0;
  UpdatedBy := reqUpdatedBy req;
  UpdatedAt := 0;
  CreatedAt := 0;
|}.

(** The setting built for an update of [existing]. *)
Definition changedSetting (key : string) (req : updateRequest)
    (existing : Setting) : Setting := {|
  ID := 0;
  Key := key;
  Scope := requestScope req;
  AccountID := reqAccountID req;
  Value := reqValue req;
  DataType :=
    if decide (reqDataType req = EmptyString) then DataType existing
    else reqDataType req;
  Category :=
    if decide (reqCategory req = EmptyString) then Category existing
    else reqCategory req;
  Description :=
    match reqDescription req with
    | Some d => Some d
    | None => Description existing
    end;
  IsSecret := default (IsSecret existing) (reqIsSecret req);
  Version := reqVersion req;
  UpdatedBy := reqUpdatedBy req;
  UpdatedAt := 0;
  CreatedAt := 0;
|}.

(** [SettingsHandler.UpdateSetting]; the handler's store may be [nil].  The
    result is the response and the store as the call leaves it. *)
Definition UpdateSetting {S} `{SettingsStore S} (store : option S)
    (r : Request) (key : string) : Response * option S :=
  if negb (isAdmin r) then
    (writeJSON StatusForbidden (ErrorJSON "forbidden"), store)
  else
    match store with
    | None =>
        (writeJSON StatusInternalServerError
                   (ErrorJSON "settings store not enabled"), store)
    | Some st =>
        match Body r with
        | None => (writeJSON StatusBadRequest (ErrorJSON "invalid json"), store)
        | Some req =>
            let '(existing, err) :=
              GetSetting st key (requestScope req) (requestAccount req) in
            match err with
            | Some (ErrVersionConflict as e) | Some (ErrOther _ as e) =>
                (writeJSON StatusInternalServerError (ErrorJSON (Error_ e)),
                 store)
            | _ =>
                match existing with
                | None =>
                    let '(st', setting, err) :=
                      UpsertSetting st (newSetting key req) in
                    match err with
                    | Some e =>
                        (writeJSON StatusInternalServerError
                                   (ErrorJSON (Error_ e)), Some st')
                    | None =>
                        (writeJSON StatusOK (SuccessJSON (Version setting)),
                         Some st')
                    end
                | Some existing =>
                    if Z.eqb (reqVersion req) 0 then
                      (writeJSON StatusBadRequest
                                 (ErrorJSON "version required"), store)
                    else if negb (Z.eqb (reqVersion req) (Version existing)) then
                      (writeJSON StatusConflict
                                 (ConflictJSON (Version existing)), store)
                    else
                      let '(st', setting, err) :=
                        Settings.UpdateSetting st
                          (changedSetting key req existing) in
                      match err with
                      | Some ErrVersionConflict =>
                          (writeJSON StatusConflict
                                     (ConflictJSON (Version existing)), Some st')
                      | Some ErrNotFound =>
                          (writeJSON StatusNotFound (ErrorJSON "not found"),
                           Some st')
                      | Some e =>
                          (writeJSON StatusInternalServerError
                                     (ErrorJSON (Error_ e)), Some st')
                      | None =>
                          (writeJSON StatusOK (SuccessJSON (Version setting)),
                           Some st')
                      end
                end
            end
        end
    end.

(** [GetSetting] found no row: a [nil] setting, with no error or with
    [ErrNotFound]. *)
Definition found_none (res : option Setting * option error) : Prop :=
  res = (None, None) ∨ res = (None, Some ErrNotFound).

(** [GetSetting] found the row [existing]. *)
Definition found (existing : Setting) (res : option Setting * option error)
    : Prop :=
  res = (Some existing, None) ∨ res = (Some existing, Some ErrNotFound).

(** *** Sample requests *)

Definition putRequest (version : Z) : Request := {|
  isAdmin := true;
  Body := Some {|
    reqValue := AnyNumber 30; reqScope := EmptyString; reqAccountID := None;
    reqDataType := EmptyString; reqCategory := EmptyString;
    reqDescription := None; reqIsSecret := None; reqVersion := version;
    reqUpdatedBy := None |};
|}.

End SettingsHandler.

(** ** Sample data used by the examples *)
Module Samples.
Import GoTime Store.
Local Open Scope Z_scope.

Definition emptyTables : Tables := {|
  node_metrics_raw := [];
  node_metrics_hourly := ∅;
  node_metrics_daily := ∅;
  node_metrics_monthly := ∅;
|}.

Definition emptyDB : DB :=
  {| tables := emptyTables; faults := []; engine := GroupByColumn |}.

(** A record that supplies all three request counters. *)
Definition rec_5_3_4 : MetricsRecord := {|
  AccountID := "a1"; NodeID := "n1"; Timestamp := 1764064800 * Second;
  RequestsTotal := 5; RequestsSuccess := 3; RequestsFailed := 4;
  ResponseTimeSumMs := 0; ResponseTimeCount := 0; BytesTotal := 0;
  InputTokensTotal := 0; OutputTokensTotal := 0;
  FirstByteTimeSumMs := 0; StreamDurationSumMs := 0;
|}.

(** A record with failures only, more than its total. *)
Definition rec_5_0_9 : MetricsRecord := {|
  AccountID := EmptyString; NodeID := "n1"; Timestamp := zeroTime;
  RequestsTotal := 5; RequestsSuccess := 0; RequestsFailed := 9;
  ResponseTimeSumMs := 120; ResponseTimeCount := 0; BytesTotal := 0;
  InputTokensTotal := 0; OutputTokensTotal := 0;
  FirstByteTimeSumMs := 0; StreamDurationSumMs := 0;
|}.

Definition counters_of_total (n : Z) : Counters :=
  Build_Counters n n 0 0 n 0 0 0 0 0.

(** 2025-11-25T10:00:00Z and 10:30:00Z, as in scenarios S1 and S2. *)
Definition t_10_00 : Time := 1764064800 * Second.
Definition t_10_30 : Time := t_10_00 + 30 * Minute.
Definition t_11_00 : Time := t_10_00 + Hour.

Definition s1Tables : Tables := {|
  node_metrics_raw :=
    [ {| account_id := "a1"; node_id := "n1"; ts := t_10_00;
         cnt := counters_of_total 5 |};
      {| account_id := "a1"; node_id := "n1"; ts := t_10_30;
         cnt := counters_of_total 7 |} ];
  node_metrics_hourly := {[ ("a1", "n1", t_10_00) := counters_of_total 100 ]};
  node_metrics_daily := ∅;
  node_metrics_monthly := ∅;
|}.

Definition s1DB : DB :=
  {| tables := s1Tables; faults := []; engine := GroupByColumn |}.

(** 2025-11-25T00:00:00Z and the day after. *)
Definition t_00_00 : Time := t_10_00 - 10 * Hour.
Definition t_next_00_00 : Time := t_00_00 + 24 * Hour.

(** Two hourly rows of one day, for the roll-up to the daily table. *)
Definition twoHours (g : GroupBy) : DB := {|
  tables := {|
    node_metrics_raw := [];
    node_metrics_hourly :=
      {[ ("a1", "n1", t_10_00) := counters_of_total 5;
         ("a1", "n1", t_11_00) := counters_of_total 7 ]};
    node_metrics_daily := ∅;
    node_metrics_monthly := ∅ |};
  faults := [];
  engine := g;
|}.

(** Two tenants, each with one raw, hourly and daily row older than every
    retention window at [t_11_00], and one monthly row. *)
Definition oldTables : Tables := {|
  node_metrics_raw :=
    [ {| account_id := "a1"; node_id := "n1";
         ts := t_11_00 - 8 * 24 * Hour; cnt := counters_of_total 1 |};
      {| account_id := "a2"; node_id := "n2";
         ts := t_11_00 - 8 * 24 * Hour; cnt := counters_of_total 2 |};
      {| account_id := "a1"; node_id := "n1";
         ts := t_11_00 - 6 * 24 * Hour; cnt := counters_of_total 3 |} ];
  node_metrics_hourly :=
    {[ ("a1", "n1", t_11_00 - 31 * 24 * Hour) := counters_of_total 1;
       ("a2", "n2", t_11_00 - 31 * 24 * Hour) := counters_of_total 2 ]};
  node_metrics_daily :=
    {[ ("a1", "n1", t_11_00 - 366 * 24 * Hour) := counters_of_total 1;
       ("a2", "n2", t_11_00 - 366 * 24 * Hour) := counters_of_total 2 ]};
  node_metrics_monthly :=
    {[ ("a1", "n1", t_11_00 - 800 * 24 * Hour) := counters_of_total 1 ]};
|}.

Definition oldDB : DB :=
  {| tables := oldTables; faults := []; engine := GroupByColumn |}.

End Samples.

(** ** Sample executions of the hub *)
Module HubSamples.
Import Hub.

Definition client (n : positive) (acct : string) : WSClient :=
  {| conn := n; accountID := acct; isShare := false |}.

Definition message (acct : string) : WSMessage :=
  {| AccountID := acct; Type_ := "x"; Payload_ := PayloadJSON "{n:1}" |}.

Definition frame (acct : string) : Frame :=
  {| account_id := acct; type_ := "x"; payload := "{n:1}" |}.

(** Scenario S5: one client of [a1], one of [a2], one broadcast to [a1]. *)
Definition s5 : list Event :=
  [ Connect "a1"; RecvRegister; Connect "a2"; RecvRegister;
    RecvBroadcast (Some (message "a1")) [client 1 "a1"] ].

(** A client whose two goroutines both ask for its removal. *)
Definition twiceUnregistered : list Event :=
  [ Connect "a1"; RecvRegister;
    PumpExit (Some (client 1 "a1")); PumpExit (Some (client 1 "a1"));
    RecvUnregister; RecvUnregister ].

(** [n] connections of account [a1], each registered at once. *)
Definition connectAll (n : nat) : list Event :=
  concat (replicate n [Connect "a1"; RecvRegister]).

(** The clients with the handles [1 .. n] of account [a1]. *)
Definition clientsUpTo (n : nat) : list WSClient :=
  (λ i, client (Pos.of_nat i) "a1") <$> seq 1 n.

(** Twelve clients of [a1]; 256 broadcasts of which only the twelfth client
    reads its share, so that the other eleven have a full [send] channel. *)
Definition elevenStalled : list Event :=
  connectAll 12
  ++ concat (replicate 256
               [ RecvBroadcast (Some (message "a1")) (clientsUpTo 12);
                 WriteFrame (client 12 "a1") ]).

(** The hub of [elevenStalled] after some rounds: the twelve clients are
    registered, nothing waits on [register] or [unregister], the first
    eleven clients have [k] frames waiting and the twelfth none. *)
Definition stalledAt (k : nat) (h : WSHub) : Prop :=
  clients h = {[ "a1" := list_to_set (clientsUpTo 12) ]}
  ∧ register h = [] ∧ unregister h = []
  ∧ (∀ c, c ∈ clientsUpTo 11 →
          closed (chan_of h c) = false ∧ length (buf (chan_of h c)) = k)
  ∧ chan_of h (client 12 "a1") = newChan.

(** The hub once the twelve clients are connected and registered. *)
Definition connectedHub : WSHub := {|
  clients := {[ "a1" := list_to_set (clientsUpTo 12) ]};
  register := []; unregister := [];
  sends := list_to_map ((λ c, (c, newChan)) <$> clientsUpTo 12);
  nextConn := 13%positive; delivered := []; closeLog := [];
|}.

Definition round : list Event :=
  [ RecvBroadcast (Some (message "a1")) (clientsUpTo 12);
    WriteFrame (client 12 "a1") ].

End HubSamples.

(** ** [internal/store/metrics.go]: queries *)
Module StoreQuery.
Import GoTime Store.
Local Open Scope Z_scope.

(** Modelled from the spec: the [MetricsQuery] struct is declared outside
    the files at hand; its fields are the ones [QueryMetrics] reads. *)
Record MetricsQuery := {
  qAccountID : string;
  qNodeID : string;
  qFrom : Time;
  qTo : Time;
  qGranularity : MetricsGranularity;
  qLimit : Z;
  qOffset : Z;
}.

(** The empty granularity stands for the raw one. *)
Definition queryGranularity (q : MetricsQuery) : MetricsGranularity :=
  match qGranularity q with
  | GranularityOther EmptyString => MetricsGranularityRaw
  | g => g
  end.

(** The table of a granularity; the time column is [ts] for the raw table
    and [bucket_start] for the others, both the [ts] field of a [Row]. *)
Definition metricsTableInfo (gr : MetricsGranularity) : Table + error :=
  match gr with
  | MetricsGranularityRaw => inl TRaw
  | MetricsGranularityHourly => inl THourly
  | MetricsGranularityDaily => inl TDaily
  | MetricsGranularityMonthly => inl TMonthly
  | GranularityOther _ => inr (ErrUnsupported gr)
  end.

Definition queryTo (clock : Time) (q : MetricsQuery) : Time :=
  if IsZero (qTo q) then clock else qTo q.

(** The default window: raw 24 h, hourly 7 d, daily 30 d, monthly one
    year. *)
Definition queryFrom (clock : Time) (q : MetricsQuery) : Time :=
  let to := queryTo clock q in
  if IsZero (qFrom q) then
    match queryGranularity q with
    | MetricsGranularityRaw => Add to (-24 * Hour)
    | MetricsGranularityHourly => Add to (-7 * 24 * Hour)
    | MetricsGranularityDaily => AddDate to 0 0 (-30)
    | MetricsGranularityMonthly => AddDate to (-1) 0 0
    | GranularityOther _ => qFrom q
    end
  else qFrom q.

Definition queryLimit (q : MetricsQuery) : Z :=
  if Z.ltb 0 (qOffset q) && Z.eqb (qLimit q) 0 then 500 else qLimit q.

(** The [WHERE] clause: the account always, normalised; the node when one
    is given; each bound of the window unless it is the zero time. *)
Definition matches (clock : Time) (q : MetricsQuery) (r : Row) : bool :=
  bool_decide (account_id r = normalizeAccount (qAccountID q))
  && (bool_decide (qNodeID q = EmptyString)
      || bool_decide (node_id r = qNodeID q))
  && (IsZero (queryFrom clock q) || Z.leb (queryFrom clock q) (ts r))
  && (IsZero (queryTo clock q) || Z.ltb (ts r) (queryTo clock q)).

Definition ts_le (a b : Row) : Prop := ts a ≤ ts b.

#[global] Instance ts_le_dec a b : Decision (ts_le a b).
Proof. unfold ts_le. apply _. Defined.

(** [ORDER BY time ASC]: the matching rows in an order of ascending time. *)
Definition ordered (rows : list Row) : list Row := merge_sort ts_le rows.

(** [LIMIT ?] for a positive limit and [OFFSET ?] for a positive offset.
    The engine has no [OFFSET] without [LIMIT]: that statement is refused,
    which is [None] here. *)
Definition paged (limit offset : Z) (rows : list Row) : option (list Row) :=
  if Z.ltb 0 limit then
    Some (take (Z.to_nat limit)
               (if Z.ltb 0 offset then drop (Z.to_nat offset) rows else rows))
  else if Z.ltb 0 offset then None
  else Some rows.

(** What [rows.Scan] fills in; the model keeps no [created_at]. *)
Definition scan (r : Row) : MetricsRecord := {|
  AccountID := account_id r;
  NodeID := node_id r;
  Timestamp := ts r;
  RequestsTotal := requests_total (cnt r);
  RequestsSuccess := requests_success (cnt r);
  RequestsFailed := requests_failed (cnt r);
  ResponseTimeSumMs := response_time_sum_ms (cnt r);
  ResponseTimeCount := response_time_count (cnt r);
  BytesTotal := bytes_total (cnt r);
  InputTokensTotal := input_tokens_total (cnt r);
  OutputTokensTotal := output_tokens_total (cnt r);
  FirstByteTimeSumMs := first_byte_time_sum_ms (cnt r);
  StreamDurationSumMs := stream_duration_sum_ms (cnt r);
|}.

(** [s.db.QueryContext]: reads the tables, or fails as the driver's script
    says. *)
Definition QueryContext (sel : Tables → option (list Row)) (db : DB)
    : DB * (list Row + error) :=
  let answer := match sel (tables db) with
                | Some rows => inl rows
                | None => inr ErrDriver
                end in
  match faults db with
  | true :: fs =>
      ({| tables := tables db; faults := fs; engine := engine db |},
       inr ErrDriver)
  | false :: fs =>
      ({| tables := tables db; faults := fs; engine := engine db |}, answer)
  | [] => (db, answer)
  end.

Definition QueryMetrics (clock : Time) (q : MetricsQuery) (db : DB)
    : DB * (list MetricsRecord + error) :=
  match metricsTableInfo (queryGranularity q) with
  | inr e => (db, inr e)
  | inl table =>
      let sel tb :=
        paged (queryLimit q) (qOffset q)
              (ordered (filter (λ r, matches clock q r = true)
                               (rows_of table tb))) in
      match QueryContext sel db with
      | (db', inl rows) => (db', inl (scan <$> rows))
      | (db', inr e) => (db', inr e)
      end
  end.

(** [ORDER BY time ASC] fixes the order of the rows up to rows of equal
    time, whose order is left to the engine and may change from one
    statement to the next: [order] is the order an execution takes, any
    arrangement of the rows by ascending time. *)
Definition time_order (order : list Row → list Row) : Prop :=
  ∀ rows, order rows ≡ₚ rows ∧ StronglySorted ts_le (order rows).

(** [QueryMetrics] on an engine that arranges the rows by [order]. *)
Definition QueryMetricsBy (order : list Row → list Row) (clock : Time)
    (q : MetricsQuery) (db : DB) : DB * (list MetricsRecord + error) :=
  match metricsTableInfo (queryGranularity q) with
  | inr e => (db, inr e)
  | inl table =>
      let sel tb :=
        paged (queryLimit q) (qOffset q)
              (order (filter (λ r, matches clock q r = true)
                             (rows_of table tb))) in
      match QueryContext sel db with
      | (db', inl rows) => (db', inl (scan <$> rows))
      | (db', inr e) => (db', inr e)
      end
  end.

(** The same query without [LIMIT] and [OFFSET]. *)
Definition unpaged (q : MetricsQuery) : MetricsQuery := {|
  qAccountID := qAccountID q; qNodeID := qNodeID q; qFrom := qFrom q;
  qTo := qTo q; qGranularity := qGranularity q; qLimit := 0; qOffset := 0;
|}.

(** *** Sample queries *)

Definition query_a1 : MetricsQuery := {|
  qAccountID := "a1"; qNodeID := "n1";
  qFrom := 1764064800 * Second; qTo := 1764064800 * Second + Hour;
  qGranularity := MetricsGranularityRaw; qLimit := 0; qOffset := 0;
|}.

(** The second page of one record. *)
Definition query_a1_second : MetricsQuery := {|
  qAccountID := "a1"; qNodeID := "n1";
  qFrom := 1764064800 * Second; qTo := 1764064800 * Second + Hour;
  qGranularity := MetricsGranularityRaw; qLimit := 1; qOffset := 1;
|}.

End StoreQuery.

(** ** Sums over selected rows *)
Module StoreSums.
Import GoTime Store.

#[global] Instance AggTable_eq_dec : EqDecision AggTable.
Proof. solve_decision. Defined.

(** The column-wise sum of a list of counters. *)
Definition msum (l : list Counters) : Counters :=
  foldr counters_add counters_zero l.

(** The rows of a destination table that belong to the buckets a window of
    the source table touches. *)
Definition touched (src : Table) (e : BucketExpr) (from to : Time)
    (accountID : string) (tb : Tables)
    (m : gmap (string * string * Z) Counters)
    : gmap (string * string * Z) Counters :=
  filter (λ kv, window_rows src e from to accountID tb kv.1 ≠ []) m.

(** The source rows of a window. *)
Definition window_all (src : Table) (from to : Time) (accountID : string)
    (tb : Tables) : list Row :=
  filter (λ r, in_window from to accountID r = true) (rows_of src tb).

End StoreSums.


(** ** The calendar by months *)
Module CalendarMonths.
Import GoTime.
Local Open Scope Z_scope.

(** Days before year [y] of an era. *)
Definition era_days (y : Z) : Z := 365 * y + y / 4 - y / 100.

(** Months counted from the start of year 0 of the calendar. *)
Definition month_index (z : Z) : Z :=
  12 * (civil_from_days z).1.1 + (civil_from_days z).1.2.

(** The first day of the month of day [z], and of the month before. *)
Definition monthFirst (z : Z) : Z := z - (civil_from_days z).2 + 1.
Definition prevMonthFirst (z : Z) : Z :=
  let c := civil_from_days z in
  days_from_civil (c.1.1 + (c.1.2 - 2) / 12) ((c.1.2 - 2) mod 12 + 1) 1.

End CalendarMonths.

(** ** [internal/proxy]: the runs of the metrics scheduler *)
Module SchedulerRun.
Import GoTime Store Scheduler.
Local Open Scope Z_scope.

(** [t.Truncate(d)]: [t] rounded down to a multiple of [d] since the zero
    time; [t] itself when [d <= 0]. *)
Definition Truncate (t : Time) (d : Duration) : Time :=
  if Z.leb d 0 then t else t - (t - zeroTime) mod d.

Definition nextAggregateDelay (m : MetricsScheduler) (now : Time) : Duration :=
  if Z.leb (aggregateInterval m) 0 then defaultAggregateInterval
  else
    let next := Add (Truncate now (aggregateInterval m)) (aggregateInterval m) in
    Sub next now.

Definition startOfMonth (t : Time) : Time :=
  Date (Year t) (Month t) 1 0 0 0 0.

(** The windows of [runAggregation]. *)
Definition todayStart (now : Time) : Time := startOfDay now.
Definition yesterdayStart (now : Time) : Time :=
  Add (startOfDay now) (-24 * Hour).
Definition currentMonthStart (now : Time) : Time := startOfMonth now.
Definition lastMonthStart (now : Time) : Time :=
  AddDate (currentMonthStart now) 0 (-1) 0.

(** [runAggregation]: the three roll-ups one after the other; an error is
    logged and the run goes on.  [now] is the instant read at the start of
    the run, [clock] what the store reads when it is handed a zero time.
    The result carries the errors in the order of the calls. *)
Definition runAggregation (clock now : Time) (db : DB)
    : DB * list (option error) :=
  let '(db1, e1) :=
    AggregateMetrics clock EmptyString MetricsGranularityHourly
                     (Add now (-2 * Hour)) now db in
  let '(db2, e2) :=
    AggregateMetrics clock EmptyString MetricsGranularityDaily
                     (yesterdayStart now) (todayStart now) db1 in
  let '(db3, e3) :=
    AggregateMetrics clock EmptyString MetricsGranularityMonthly
                     (lastMonthStart now) (currentMonthStart now) db2 in
  (db3, [e1; e2; e3]).

(** 2025-11-25T10:00:07Z: a run that starts seven seconds late. *)
Definition at_10_00_07 : Time := at_10_00 + 7 * Second.
(** 2025-11-26T00:00:07Z. *)
Definition at_next_00_00_07 : Time := Samples.t_next_00_00 + 7 * Second.

(** Two raw rows of the hour from 08:00: one three seconds into the hour,
    one at 08:30. *)
Definition earlyRows : DB := {|
  tables := {|
    node_metrics_raw :=
      [ {| account_id := "a1"; node_id := "n1";
           ts := at_10_00 - 2 * Hour + 3 * Second;
           cnt := Samples.counters_of_total 5 |};
        {| account_id := "a1"; node_id := "n1";
           ts := at_10_00 - 90 * Minute;
           cnt := Samples.counters_of_total 7 |} ];
    node_metrics_hourly := ∅;
    node_metrics_daily := ∅;
    node_metrics_monthly := ∅ |};
  faults := [];
  engine := GroupByColumn;
|}.

End SchedulerRun.

(** ** [internal/proxy/api_health_history.go]: the health-history endpoint *)
Module HealthHistory.
Import Stdlib.Strings.Ascii GoTime.
Local Open Scope Z_scope.

(** Go strings are byte sequences. *)
Abbreviation gostring := (list Ascii.ascii) (only parsing).
Definition bytes (s : string) : gostring := String.list_ascii_of_string s.

(** [strings.HasPrefix], [strings.HasSuffix], [strings.TrimPrefix] and
    [strings.TrimSuffix]. *)
Definition HasPrefix (s prefix : gostring) : bool :=
  bool_decide ((length prefix ≤ length s)%nat ∧ take (length prefix) s = prefix).
Definition HasSuffix (s suffix : gostring) : bool :=
  bool_decide ((length suffix ≤ length s)%nat
               ∧ drop (length s - length suffix) s = suffix).
Definition TrimPrefix (s prefix : gostring) : gostring :=
  if HasPrefix s prefix then drop (length prefix) s else s.
Definition TrimSuffix (s suffix : gostring) : gostring :=
  if HasSuffix s suffix then take (length s - length suffix) s else s.

Definition nodesPrefix : gostring := bytes "/api/nodes/".
Definition historySuffix : gostring := bytes "/health-history".
Definition slash : gostring := bytes "/".

Definition extractNodeIDFromHealthHistoryPath (path : gostring)
    : gostring * bool :=
  if negb (HasPrefix path nodesPrefix) || negb (HasSuffix path historySuffix)
  then ([], false)
  else
    let trimmed := TrimPrefix path nodesPrefix in
    let trimmed := TrimSuffix trimmed historySuffix in
    let trimmed := TrimSuffix trimmed slash in
    if decide (trimmed = []) then ([], false) else (trimmed, true).

(** [strconv.Atoi]: an optional sign and at least one decimal digit, the
    value within the 64-bit [int]; anything else is an error. *)
Definition digit (c : Ascii.ascii) : option Z :=
  let n := Z.of_nat (Ascii.nat_of_ascii c) in
  if Z.leb 48 n && Z.leb n 57 then Some (n - 48) else None.

Fixpoint digits (acc : Z) (s : gostring) : option Z :=
  match s with
  | [] => Some acc
  | c :: s' =>
      match digit c with
      | Some d => digits (10 * acc + d) s'
      | None => None
      end
  end.

Definition Atoi (s : gostring) : option Z :=
  let '(neg, body) :=
    match s with
    | "-"%char :: b => (true, b)
    | "+"%char :: b => (false, b)
    | _ => (false, s)
    end in
  match body with
  | [] => None
  | _ =>
      match digits 0 body with
      | Some n =>
          let v := if neg then - n else n in
          if Z.leb (- 2 ^ 63) v && Z.leb v (2 ^ 63 - 1) then Some v else None
      | None => None
      end
  end.

(** The [limit] and [offset] of the query string. *)
Definition queryLimit (v : gostring) : Z :=
  let limit := 300 in
  let limit :=
    if decide (v = []) then limit
    else match Atoi v with
         | Some n => if Z.ltb 0 n then n else limit
         | None => limit
         end in
  if Z.ltb 2000 limit then 2000 else limit.

Definition queryOffset (v : gostring) : Z :=
  let offset := 0 in
  if decide (v = []) then offset
  else match Atoi v with
       | Some n => if Z.leb 0 n then n else offset
       | None => offset
       end.

(** Modelled from the spec: [store.QueryHealthCheckParams] and the health
    check record are declared outside the files at hand; the fields are the
    ones the handler sets and reads. *)
Record QueryHealthCheckParams := {
  pAccountID : string;
  pNodeID : gostring;
  pFrom : Time;
  pTo : Time;
  pLimit : Z;
  pOffset : Z;
}.

Record HealthCheckRecord := {
  CheckTime : Time;
  Success : bool;
  ResponseTimeMs : Z;
  ErrorMessage : string;
  CheckMethod : string;
}.

(** What the handler reads of the request: the method, the path, the
    account of the session ([accountFromCtx], [None] for nil), whether the
    session is an admin's ([isAdmin]) and four values of the query string. *)
Record Request := {
  Method : string;
  Path : gostring;
  caller : option string;
  admin : bool;
  queryTo : gostring;
  queryFrom : gostring;
  limitParam : gostring;
  offsetParam : gostring;
}.

(** What the handler uses of the server and its surroundings: whether there
    is a store, the account of a node ([p.getNode], [None] for nil), the
    clock, [parseTime] (declared outside the files at hand: a time or an
    error) and the two queries of the store (a result or the text of an
    error). *)
Record Server := {
  storeEnabled : bool;
  getNode : gostring → option string;
  now : Time;
  parseTime : gostring → option Time;
  QueryHealthChecks : QueryHealthCheckParams → list HealthCheckRecord + string;
  CountHealthChecks : QueryHealthCheckParams → Z + string;
}.

(** [t.UTC().Format(time.RFC3339)] shows an instant to the second: the
    rendering is identified by the whole seconds since the epoch. *)
Definition formatRFC3339 (t : Time) : Z := t / Second.

Inductive Body :=
  | NoBody
  | NotFoundPage
  | ErrorJSON (msg : string)
  | HistoryJSON (node_id : gostring) (from to : Z) (total : Z)
                (checks : list (Z * bool * Z * string * string)).

Record Response := { status : Z; body : Body }.

Definition check_json (rec : HealthCheckRecord)
    : Z * bool * Z * string * string :=
  (formatRFC3339 (CheckTime rec), Success rec, ResponseTimeMs rec,
   ErrorMessage rec, CheckMethod rec).

Definition handleGetHealthHistory (p : Server) (r : Request) : Response :=
  if negb (bool_decide (Method r = "GET")) then
    {| status := 405; body := NoBody |}
  else if negb (storeEnabled p) then
    {| status := 500; body := ErrorJSON "store not enabled" |}
  else
    match extractNodeIDFromHealthHistoryPath (Path r) with
    | (_, false) => {| status := 404; body := NotFoundPage |}
    | (nodeID, true) =>
    match caller r with
    | None => {| status := 401; body := ErrorJSON "unauthorized" |}
    | Some callerID =>
    match getNode p nodeID with
    | None => {| status := 404; body := ErrorJSON "node not found" |}
    | Some nodeAccount =>
    if negb (admin r) && negb (bool_decide (nodeAccount = callerID)) then
      {| status := 403; body := ErrorJSON "forbidden" |}
    else
    match parseTime p (queryTo r) with
    | None => {| status := 400; body := ErrorJSON "invalid to time" |}
    | Some to =>
    match parseTime p (queryFrom r) with
    | None => {| status := 400; body := ErrorJSON "invalid from time" |}
    | Some from =>
    let to := if IsZero to then now p else to in
    let from := if IsZero from then Add to (-24 * Hour) else from in
    if After from to then
      {| status := 400; body := ErrorJSON "from must be before to" |}
    else
    let params := {|
      pAccountID := nodeAccount; pNodeID := nodeID;
      pFrom := from; pTo := to;
      pLimit := queryLimit (limitParam r);
      pOffset := queryOffset (offsetParam r) |} in
    match QueryHealthChecks p params with
    | inr err => {| status := 500; body := ErrorJSON err |}
    | inl records =>
    match CountHealthChecks p params with
    | inr err => {| status := 500; body := ErrorJSON err |}
    | inl total =>
        {| status := 200;
           body := HistoryJSON nodeID (formatRFC3339 from) (formatRFC3339 to)
                               total (check_json <$> records) |}
    end end end end end end end.

(** *** Sample requests *)
Definition sampleServer : Server := {|
  storeEnabled := true;
  getNode := λ id, if decide (id = bytes "n1") then Some "a1" else None;
  now := 1764064800 * Second;
  parseTime := λ _, Some zeroTime;
  QueryHealthChecks := λ _, inl [];
  CountHealthChecks := λ _, inl 0;
|}.

Definition sampleRequest : Request := {|
  Method := "GET";
  Path := bytes "/api/nodes/n1/health-history";
  caller := Some "a1";
  admin := false;
  queryTo := [];
  queryFrom := [];
  limitParam := bytes "5000";
  offsetParam := bytes "-3";
|}.

End HealthHistory.

(** ** The settings cache *)
Module SettingsCache.
Import Settings.
Local Open Scope Z_scope.

#[global] Instance any_eq_dec : EqDecision any.
Proof. solve_decision. Defined.

(** The cache: the values by key, the global version, and the registered
    callbacks.  A callback is a function of the caller; the model keeps the
    number of callbacks and, as history, every call made to one of them
    (its index, the key, the value).  The callbacks are taken not to call
    back into the cache. *)
Record SettingsCache := {
  data : gmap string any;
  version : Z;
  onChange : nat;
  called : list (nat * string * any);
}.

Definition emptyCache : SettingsCache :=
  {| data := ∅; version := 0; onChange := 0; called := [] |}.

Definition Get (c : SettingsCache) (key : string) : option any :=
  data c !! key.

Definition GetString (c : SettingsCache) (key : string) (defaultVal : string)
    : string :=
  match Get c key with
  | Some (AnyString s) => s
  | _ => defaultVal
  end.

Definition GetBool (c : SettingsCache) (key : string) (defaultVal : bool)
    : bool :=
  match Get c key with
  | Some (AnyBool b) => b
  | _ => defaultVal
  end.

Definition maxInt64 (a b : Z) : Z := if Z.ltb b a then a else b.

Definition OnChange (c : SettingsCache) : SettingsCache :=
  {| data := data c; version := version c; onChange := S (onChange c);
     called := called c |}.

(** [notifyChange]: every registered callback, in the order of
    registration. *)
Definition notifyChange (key : string) (value : any) (c : SettingsCache)
    : SettingsCache :=
  {| data := data c; version := version c; onChange := onChange c;
     called := called c ++ ((λ i, (i, key, value)) <$> seq 0 (onChange c)) |}.

Definition store_value (key : string) (value : any) (v : Z)
    (c : SettingsCache) : SettingsCache :=
  {| data := <[key := value]> (data c); version := v;
     onChange := onChange c; called := called c |}.

(** The setting [Set] hands to the store. *)
Definition systemSetting (key : string) (value : any) : Setting := {|
  ID := 0; Key := key; Scope := "system"; AccountID := None; Value := value;
  DataType := EmptyString; Category := EmptyString; Description := None;
  IsSecret := false; Version := 0; UpdatedBy := None; UpdatedAt := 0;
  CreatedAt := 0;
|}.

(** [Set]: the error, the store and the cache as the call leaves them. *)
Definition Set_ {St} `{SettingsStore St} (store : option St) (key : string)
    (value : any) (c : SettingsCache)
    : option error * option St * SettingsCache :=
  match store with
  | None => (None, store, c)
  | Some st =>
      let '(st', setting, err) := UpsertSetting st (systemSetting key value) in
      match err with
      | Some e => (Some e, Some st', c)
      | None =>
          let v := Version setting in
          let version' :=
            if Z.ltb 0 v then maxInt64 (version c) v
            else Store.add64 (version c) 1 in
          (None, Some st', notifyChange key value (store_value key value version' c))
      end
  end.

Definition UpdateLocal (key : string) (value : any) (ver : Z)
    (c : SettingsCache) : SettingsCache :=
  let version' := if Z.ltb 0 ver then maxInt64 (version c) ver else version c in
  notifyChange key value (store_value key value version' c).

(** The parts of [reload].  The two [range] loops over maps run in an order
    the language leaves open; the model takes the order of [map_to_list]. *)
Definition newData (settings : list Setting) : gmap string any :=
  foldl (λ m s, <[Key s := Value s]> m) ∅ settings.

Definition maxVer (settings : list Setting) : Z :=
  foldl (λ mx s, if Z.ltb mx (Version s) then Version s else mx) 0 settings.

Definition changed (old new : gmap string any) : list (string * any) :=
  filter (λ kv, old !! kv.1 ≠ Some kv.2) (map_to_list new).

Definition removed (old new : gmap string any) : list string :=
  (filter (λ kv, new !! kv.1 = None) (map_to_list old)).*1.

(** [reload]; [listed] is what [ListSettings("system", "", "")] returned,
    [None] for an error or when the cache has no store. *)
Definition reload (notify : bool) (listed : option (list Setting))
    (c : SettingsCache) : SettingsCache :=
  match listed with
  | None => c
  | Some settings =>
      let new := newData settings in
      let mv := maxVer settings in
      let ch := if notify then changed (data c) new else [] in
      let rm := if notify then removed (data c) new else [] in
      let c1 := {| data := new;
                   version := if Z.ltb 0 mv then mv else version c;
                   onChange := onChange c; called := called c |} in
      let c2 := foldl (λ c kv, notifyChange kv.1 kv.2 c) c1 ch in
      foldl (λ c k, notifyChange k AnyNil c) c2 rm
  end.

Definition loadAll := reload false.
Definition Refresh := reload true.

(** *** Sample caches *)
Definition settingOf (key : string) (value : any) (v : Z) : Setting := {|
  ID := 0; Key := key; Scope := "system"; AccountID := None; Value := value;
  DataType := EmptyString; Category := EmptyString; Description := None;
  IsSecret := false; Version := v; UpdatedBy := None; UpdatedAt := 0;
  CreatedAt := 0;
|}.

(** A cache with one callback that holds [a = 1] and [b = true] at
    version 7. *)
Definition cacheAt7 : SettingsCache := {|
  data := {[ "a" := AnyNumber 1; "b" := AnyBool true ]};
  version := 7; onChange := 1; called := [];
|}.

End SettingsCache.

(** ** The hub: histories by client *)
Module HubHistory.
Import Hub HubSamples.

(** The frames the history records for the [send] channel of [c]. *)
Definition delivered_to (c : WSClient) (h : WSHub) : list Frame :=
  (filter (λ p, p.1 = c) (delivered h)).*2.

(** A client connects, is registered, asks for its removal and is removed;
    then a second client of the account connects and a message is
    broadcast. *)
Definition closedThenBroadcast : list Event * list Event :=
  ([ Connect "a1"; RecvRegister; PumpExit (Some (client 1 "a1"));
     RecvUnregister ],
   [ Connect "a1"; RecvRegister;
     RecvBroadcast (Some (message "a1")) [client 2 "a1"] ]).

End HubHistory.

(** ** The hub: a broadcast amid the other goroutines *)
Module HubAmid.
Import Hub HubSamples.

(** What the goroutines around the hub can do while the hub goroutine is
    inside [broadcastToAccount]: accept a connection, send a client on
    [unregister], take a frame from a [send] channel.  The hub goroutine
    itself receives nothing in the meantime. *)
Inductive Activity :=
  | Accepts (acct : string)
  | Exits (c : option WSClient)
  | Writes (c : WSClient).

Definition event_of (a : Activity) : Event :=
  match a with
  | Accepts acct => Connect acct
  | Exits c => PumpExit c
  | Writes c => WriteFrame c
  end.

(** The steps of the other goroutines; none of them is a step of the hub
    goroutine, so none can block it or make it panic. *)
Definition others (acts : list Activity) (h : WSHub) : WSHub :=
  foldl (λ h a, hub_of (step h (event_of a))) h acts.

(** The loop of [broadcastToAccount], each round preceded by what the other
    goroutines did since the round before. *)
Fixpoint sendLoopAmid (data : Frame) (rounds : list (list Activity * WSClient))
    (h : WSHub) : Outcome :=
  match rounds with
  | [] => Running h
  | (acts, c) :: rest =>
      match trySend data c (others acts h) with
      | Running h' => sendLoopAmid data rest h'
      | o => o
      end
  end.

Definition broadcastAmid (message : option WSMessage)
    (rounds : list (list Activity * WSClient)) (h : WSHub) : Outcome :=
  match message with
  | None => Running h
  | Some msg =>
      if decide (size (clients_of h (AccountID msg)) = 0) then Running h
      else
        match json_Marshal msg with
        | None => Running h
        | Some data => sendLoopAmid data rounds h
        end
  end.

(** An execution in which the others may act during a broadcast. *)
Inductive EventAmid :=
  | Alone (ev : Event)
  | RecvBroadcastAmid (m : option WSMessage)
                      (rounds : list (list Activity * WSClient)).

Definition stepAmid (h : WSHub) (ev : EventAmid) : Outcome :=
  match ev with
  | Alone ev => step h ev
  | RecvBroadcastAmid m rounds =>
      if decide (range_order h m rounds.*2)
      then broadcastAmid m rounds h else Running h
  end.

Fixpoint runAmid (h : WSHub) (evs : list EventAmid) : Outcome :=
  match evs with
  | [] => Running h
  | ev :: evs' =>
      match stepAmid h ev with
      | Running h' => runAmid h' evs'
      | o => o
      end
  end.

End HubAmid.

(** ** [internal/store]: the order of the nodes *)
Module Nodes.
Import Store.
Local Open Scope Z_scope.

(** Modelled from the spec: the [nodes] table belongs to the proxy core and
    is declared outside the files at hand.  A row carries the three columns
    the statements below read and write, [id], [account_id] and
    [sort_order]; its other columns are kept as they are, by name.  The
    column [sort_order] is taken to hold every value of a Go [int]. *)
Record NodeRow := {
  id : string;
  account_id : string;
  sort_order : Z;
  columns : list (string * string);
}.

(** The table and the answers of the driver to the calls that can fail
    ([true] for an error), one for each of [BeginTx], [PrepareContext],
    [ExecContext], [QueryRowContext] and [Commit]; a missing answer is a
    success. *)
Record NodeDB := {
  nodes : list NodeRow;
  answers : list bool;
}.

Definition fails (db : NodeDB) : bool := default false (head (answers db)).
Definition answered (db : NodeDB) : NodeDB :=
  {| nodes := nodes db; answers := tail (answers db) |}.
Definition with_nodes (rows : list NodeRow) (db : NodeDB) : NodeDB :=
  {| nodes := rows; answers := answers db |}.

Definition with_order (o : Z) (r : NodeRow) : NodeRow :=
  {| id := id r; account_id := account_id r; sort_order := o;
     columns := columns r |}.

(** [UPDATE nodes SET sort_order=? WHERE id=? AND account_id=?]. *)
Definition update_order (o : Z) (nodeID accountID : string)
    (rows : list NodeRow) : list NodeRow :=
  (λ r, if decide (id r = nodeID ∧ account_id r = accountID)
        then with_order o r else r) <$> rows.

(** The loop of [UpdateNodeOrders] inside the transaction: [rows] is the
    table as the transaction sees it.  The result is [None] when a statement
    fails. *)
Fixpoint execOrders (accountID : string) (order : list (string * Z))
    (rows : list NodeRow) (db : NodeDB) : NodeDB * option (list NodeRow) :=
  match order with
  | [] => (db, Some rows)
  | (nodeID, o) :: rest =>
      let o := if Z.ltb o 0 then 0 else o in
      if fails db then (answered db, None)
      else execOrders accountID rest (update_order o nodeID accountID rows)
                      (answered db)
  end.

(** [UpdateNodeOrders]; [order] is the order in which [range orders] yields
    the entries of the map.  A rollback, and a commit that fails, leave the
    table as it was. *)
Definition UpdateNodeOrders (accountID : string) (order : list (string * Z))
    (db : NodeDB) : NodeDB * option error :=
  if decide (length order = 0%nat) then (db, None)
  else
    let accountID := normalizeAccount accountID in
    if fails db then (answered db, Some ErrDriver)            (* BeginTx *)
    else
      let db := answered db in
      if fails db then (answered db, Some ErrDriver)          (* Prepare *)
      else
        match execOrders accountID order (nodes db) (answered db) with
        | (db, None) => (db, Some ErrDriver)
        | (db, Some rows) =>
            if fails db then (answered db, Some ErrDriver)    (* Commit *)
            else (with_nodes rows (answered db), None)
        end.

(** [SELECT MAX(sort_order) FROM nodes WHERE account_id=?]: NULL without
    rows. *)
Definition max_sort_order (accountID : string) (rows : list NodeRow)
    : option Z :=
  foldr (λ r acc,
           if decide (account_id r = accountID) then
             Some (match acc with
                   | Some m => Z.max (sort_order r) m
                   | None => sort_order r
                   end)
           else acc)
        None rows.

Definition MaxSortOrder (accountID : string) (db : NodeDB)
    : NodeDB * (Z + error) :=
  let accountID := normalizeAccount accountID in
  if fails db then (answered db, inr ErrDriver)
  else
    match max_sort_order accountID (nodes db) with
    | None => (answered db, inl 0)
    | Some m => (answered db, inl m)
    end.

(** The statements of the loop, one after the other, on one row. *)
Definition apply_orders (accountID : string) (order : list (string * Z))
    (r : NodeRow) : NodeRow :=
  foldl (λ r e, if decide (id r = e.1 ∧ account_id r = accountID)
                then with_order (Z.max e.2 0) r else r) r order.

(** What a successful [UpdateNodeOrders] writes, row by row. *)
Definition reordered (accountID : string) (orders : gmap string Z)
    (r : NodeRow) : NodeRow :=
  match orders !! id r with
  | Some o =>
      if decide (account_id r = normalizeAccount accountID)
      then with_order (Z.max o 0) r else r
  | None => r
  end.

(** *** Sample table *)
Definition sampleNodes : NodeDB := {|
  nodes :=
    [ {| id := "n1"; account_id := "a1"; sort_order := 4; columns := [] |};
      {| id := "n2"; account_id := "a1"; sort_order := 9; columns := [] |};
      {| id := "n3"; account_id := "a2"; sort_order := 1; columns := [] |} ];
  answers := [];
|}.

End Nodes.

(** ** A settings store with a second writer *)
Module SettingsRace.
Import Settings.
Local Open Scope Z_scope.

(** Modelled from the spec: the implementation of [SettingsStore] is outside
    the files at hand.  This is the store of section 4.C as one request sees
    it while other clients write: [GetSetting] reads the rows as they are,
    and the conditional updates of the other clients waiting in [pending]
    reach the rows before the next write of this request does. *)
Record RacingStore := {
  rows : gmap (string * string * string) Setting;
  pending : list Setting;
}.

Definition landed (r : RacingStore) : gmap (string * string * string) Setting :=
  foldl (λ m s, (memUpdate m s).1.1) (rows r) (pending r).

Definition settled (res : gmap (string * string * string) Setting * Setting * option error)
    : RacingStore * Setting * option error :=
  ({| rows := res.1.1; pending := [] |}, res.1.2, res.2).

#[global] Instance racingStore : SettingsStore RacingStore := {|
  GetSetting r := memGet (rows r);
  UpsertSetting r s := settled (memUpsert (landed r) s);
  UpdateSetting r s := settled (memUpdate (landed r) s);
|}.

(** The two clients of scenario S4: both have read [k] at version 3; the
    update of the first, with version 3, is on its way when the handler
    takes the request of the second. *)
Definition firstUpdate : Setting := {|
  ID := 0; Key := "k"; Scope := "system"; AccountID := None;
  Value := AnyNumber 20; DataType := "number"; Category := "monitor";
  Description := None; IsSecret := false; Version := 3;
  UpdatedBy := None; UpdatedAt := 0; CreatedAt := 0;
|}.

Definition racingAt3 : RacingStore :=
  {| rows := storeAt3; pending := [firstUpdate] |}.

(** The store once the update of the first client has reached it. *)
Definition afterFirst : RacingStore :=
  {| rows := {[ ("k", "system", EmptyString) := with_version 4 firstUpdate ]};
     pending := [] |}.

End SettingsRace.

(** ** The roll-up, with the order of the selected rows left to the engine *)
Module StoreYield.
Import GoTime Store.
Local Open Scope Z_scope.

(** The select of the roll-up has no [ORDER BY]: the engine yields its
    groups in an order of its own choosing, here [yield], which may differ
    from one execution to the next. *)
Definition Yield : Type :=
  list (BucketKey * (Time * Counters)) → list (BucketKey * (Time * Counters)).

Definition selected_by (yield : Yield) (g : GroupBy) (e : BucketExpr)
    (rows : list Row) : list (BucketKey * Counters) :=
  (λ kv, ((kv.1.1.1, kv.1.1.2, kv.2.1), kv.2.2))
    <$> yield (map_to_list (group_sum g e rows)).

Definition aggregate_stmt_by (yield : Yield) (g : GroupBy) (src : Table)
    (dst : AggTable) (e : BucketExpr) (from to : Time) (accountID : string)
    (tb : Tables) : Tables :=
  let sel := selected_by yield (groupBy g src) e
               (filter (λ r, in_window from to accountID r = true)
                       (rows_of src tb)) in
  set_agg_table dst (upsert sel (agg_table dst tb)) tb.

(** [AggregateMetrics] on an engine that yields the groups by [yield]. *)
Definition AggregateMetricsBy (yield : Yield) (clock : Time)
    (accountID : string) (target : MetricsGranularity) (from to : Time)
    (db : DB) : DB * option error :=
  match aggregationPlan target with
  | inr e => (db, Some e)
  | inl (src, dst, e) =>
      let to' := windowTo clock to in
      let from' := windowFrom target from to' in
      ExecContext
        (aggregate_stmt_by yield (engine db) src dst e from' to' accountID) db
  end.

(** The groups of the daily roll-up over a window, as the engine forms
    them. *)
Definition daily_groups (from to : Time) (accountID : string) (db : DB)
    : list (BucketKey * (Time * Counters)) :=
  map_to_list
    (group_sum (groupBy (engine db) THourly) DateOf
       (filter (λ r, in_window from to accountID r = true)
               (rows_of THourly (tables db)))).

End StoreYield.
(* ===================================================================== *)
(** * Part II: lemmas and theorems *)
(* ===================================================================== *)

Section Calendar.
Import GoTime.
Local Open Scope Z_scope.

(** Within one 400-year era the year of the era and the day of the year are
    in range. *)
Lemma era_year_bounds doe :
  0 ≤ doe < 146097 →
  0 ≤ yoe_of_doe doe < 400 ∧ 0 ≤ doy_of_doe doe ≤ 365.
Proof.
  intros H. unfold doy_of_doe, yoe_of_doe.
  Z.div_mod_to_equations. lia.
Qed.

(** The month and the day of the month identify the day of the year. *)
Lemma month_day_of_doy doy :
  0 ≤ doy ≤ 365 →
  let mp := (5 * doy + 2) / 153 in
  let d := doy - (153 * mp + 2) / 5 + 1 in
  0 ≤ mp < 12 ∧ 1 ≤ d ≤ 31 ∧ (153 * mp + 2) / 5 + d - 1 = doy.
Proof.
  intros H mp d. subst mp d. Z.div_mod_to_equations. lia.
Qed.

Lemma mp_of_month_of_mp mp :
  0 ≤ mp < 12 →
  mp_of_month (month_of_mp mp) = mp ∧ 1 ≤ month_of_mp mp ≤ 12.
Proof.
  intros H. unfold mp_of_month, month_of_mp.
  destruct (Z.ltb_spec mp 10);
    [destruct (Z.ltb_spec 2 (mp + 3))|destruct (Z.ltb_spec 2 (mp - 9))]; lia.
Qed.

Lemma civil_month_range z : 1 ≤ (civil_from_days z).1.2 ≤ 12.
Proof.
  unfold civil_from_days. cbn [fst snd].
  assert (Hdoe : 0 ≤ (z + 719468) mod 146097 < 146097)
    by (apply Z.mod_pos_bound; lia).
  destruct (era_year_bounds _ Hdoe) as [_ Hdoy].
  destruct (month_day_of_doy _ Hdoy) as (Hmp & _ & _).
  apply mp_of_month_of_mp. exact Hmp.
Qed.

Lemma days_civil_roundtrip z :
  days_from_civil (civil_from_days z).1.1 (civil_from_days z).1.2
                  (civil_from_days z).2 = z.
Proof.
  unfold civil_from_days, days_from_civil. cbn [fst snd].
  set (z' := z + 719468).
  assert (Hdoe : 0 ≤ z' mod 146097 < 146097) by (apply Z.mod_pos_bound; lia).
  set (doe := z' mod 146097) in *.
  destruct (era_year_bounds _ Hdoe) as [Hyoe Hdoy].
  destruct (month_day_of_doy _ Hdoy) as (Hmp & Hd & Hrec).
  fold (mp_of_doe doe) in Hmp, Hrec. fold (dom_of_doe doe) in Hd, Hrec.
  destruct (mp_of_month_of_mp _ Hmp) as [-> _].
  set (yoe := yoe_of_doe doe) in *.
  set (m := month_of_mp (mp_of_doe doe)).
  replace (yoe + z' / 146097 * 400 + janfeb m - janfeb m)
    with (yoe + z' / 146097 * 400) by lia.
  rewrite Z.div_add, Z.mod_add by lia.
  rewrite (Z.div_small yoe 400), (Z.mod_small yoe 400) by lia.
  rewrite Hrec.
  pose proof (Z.div_mod z' 146097 ltac:(lia)) as Hdm. fold doe in Hdm.
  unfold doy_of_doe in *. fold yoe in Hdoy |- *. lia.
Qed.

(** [time.Date] applied to the calendar date of [t] lands on the start of
    the UTC day of [t], shifted by the given clock. *)
Lemma Date_of_day t h mi s ns :
  Date (Year t) (Month t) (Day t) h mi s ns
  = unixDays t * nsPerDay + h * Hour + mi * Minute + s * Second + ns * Nanosecond.
Proof.
  unfold Date, Year, Month, Day.
  pose proof (civil_month_range (unixDays t)) as Hm.
  pose proof (days_civil_roundtrip (unixDays t)) as Hrt.
  set (c := civil_from_days (unixDays t)) in *.
  rewrite (Z.div_small (c.1.2 - 1) 12), (Z.mod_small (c.1.2 - 1) 12) by lia.
  replace (c.1.1 + 0) with c.1.1 by lia.
  replace (c.1.2 - 1 + 1) with c.1.2 by lia.
  assert (Hlin : days_from_civil c.1.1 c.1.2 1 + (c.2 - 1)
                 = days_from_civil c.1.1 c.1.2 c.2)
    by (unfold days_from_civil; lia).
  rewrite Hlin, Hrt. reflexivity.
Qed.

End Calendar.

(** ** Ingest: [InsertMetrics] *)
Section Ingest.
Import GoTime Store Samples.
Local Open Scope Z_scope.

Lemma wrap64_id z : int64 z → wrap64 z = z.
Proof.
  unfold int64, wrap64. intros H.
  rewrite Z.mod_small by lia. lia.
Qed.

Lemma wrap64_range z : int64 (wrap64 z).
Proof.
  unfold int64, wrap64.
  pose proof (Z.mod_pos_bound (z + 2 ^ 63) (2 ^ 64) ltac:(lia)). lia.
Qed.

(** A successful insert appends exactly the normalised row. *)
Lemma InsertMetrics_ok clock rec db db' :
  InsertMetrics clock rec db = (db', None) →
  node_metrics_raw (tables db')
  = node_metrics_raw (tables db) ++ [rawRow clock rec].
Proof.
  unfold InsertMetrics, ExecContext.
  destruct (faults db) as [|[] fs]; intros [= <-]; reflexivity.
Qed.

(** C1, as stated, fails: a record with total 5, success 3 and failed 4 is
    stored unchanged, and 5 < 3 + 4. *)
Lemma InsertMetrics_total_ge_counterexample :
  ∃ db' row,
    InsertMetrics 0 rec_5_3_4 emptyDB = (db', None)
    ∧ node_metrics_raw (tables db') = [row]
    ∧ ¬ total_covers (cnt row).
Proof.
  eexists _, _. split; [reflexivity|]. split; [reflexivity|].
  vm_compute. intros H. apply H. reflexivity.
Qed.

(** C1 (amended): for a record with non-negative 64-bit request counters
    whose success and failed counts add up without overflow, the row stored
    by a successful [InsertMetrics] satisfies
    [requests_success + requests_failed ≤ requests_total] exactly when the
    record has [RequestsTotal = 0], or [RequestsSuccess = 0], or satisfies
    the inequality already.  The failed count is stored as given, the total
    as given unless it is 0 (it is then the sum of success and failed), and
    a success count other than 0 as given: a record that supplies a non-zero
    total and a non-zero success is stored with its three request counters
    as given. *)
Theorem InsertMetrics_total_ge clock rec db db' :
  0 ≤ RequestsTotal rec < 2 ^ 63 →
  0 ≤ RequestsSuccess rec →
  0 ≤ RequestsFailed rec →
  RequestsSuccess rec + RequestsFailed rec < 2 ^ 63 →
  InsertMetrics clock rec db = (db', None) →
  ∃ row,
    node_metrics_raw (tables db') = node_metrics_raw (tables db) ++ [row]
    ∧ (total_covers (cnt row)
       ↔ RequestsTotal rec = 0 ∨ RequestsSuccess rec = 0
         ∨ RequestsSuccess rec + RequestsFailed rec ≤ RequestsTotal rec)
    ∧ requests_failed (cnt row) = RequestsFailed rec
    ∧ requests_total (cnt row)
      = (if decide (RequestsTotal rec = 0)
         then RequestsSuccess rec + RequestsFailed rec
         else RequestsTotal rec)
    ∧ (RequestsSuccess rec ≠ 0 →
       requests_success (cnt row) = RequestsSuccess rec)
    ∧ (RequestsTotal rec ≠ 0 → RequestsSuccess rec ≠ 0 →
       requests_total (cnt row) = RequestsTotal rec
       ∧ requests_success (cnt row) = RequestsSuccess rec
       ∧ requests_failed (cnt row) = RequestsFailed rec).
Proof.
  intros Ht Hs Hf Hsf Hins. exists (rawRow clock rec).
  split; [exact (InsertMetrics_ok _ _ _ _ Hins)|].
  unfold total_covers.
  cbn [rawRow cnt requests_total requests_success requests_failed].
  unfold deriveSuccess, deriveTotal, add64, sub64.
  rewrite (wrap64_id (RequestsSuccess rec + RequestsFailed rec))
    by (unfold int64; lia).
  destruct (Z.eqb_spec (RequestsTotal rec) 0) as [Ht0|Ht0];
    destruct (Z.eqb_spec (RequestsSuccess rec) 0) as [Hs0|Hs0];
    cbn [andb];
    (split; [|split; [done|split; [by case_decide|split; intros; done]]]).
  - destruct (Z.ltb_spec 0 (RequestsSuccess rec + RequestsFailed rec));
      [rewrite wrap64_id by (unfold int64; lia)|]; lia.
  - lia.
  - destruct (Z.ltb_spec 0 (RequestsTotal rec)); [|lia].
    rewrite wrap64_id by (unfold int64; lia). lia.
  - lia.
Qed.

Lemma InsertMetrics_total_ge_witness :
  ∃ row,
    node_metrics_raw (tables (InsertMetrics 7 rec_5_3_4 emptyDB).1)
    = node_metrics_raw (tables emptyDB) ++ [row]
    ∧ requests_total (cnt row) = 5
    ∧ requests_success (cnt row) = 3
    ∧ requests_failed (cnt row) = 4
    ∧ ¬ total_covers (cnt row).
Proof.
  destruct (InsertMetrics_total_ge 7 rec_5_3_4 emptyDB
              (InsertMetrics 7 rec_5_3_4 emptyDB).1)
    as (row & Hrow & Hiff & _ & _ & _ & Hgiven);
    [cbn; lia..|reflexivity|].
  exists row. split; [exact Hrow|].
  destruct Hgiven as (H1 & H2 & H3); [discriminate..|].
  split; [exact H1|]. split; [exact H2|]. split; [exact H3|].
  intros Hc. apply Hiff in Hc. cbn in Hc. lia.
Defined.

(** C8: when [RequestsSuccess] is 0 and the total, after its own derivation,
    is positive, the stored success count is total minus failed in 64-bit
    arithmetic; this is the plain difference whenever it fits 64 bits (so
    whenever failed is non-negative), and it is negative when failed exceeds
    the total. *)
Theorem InsertMetrics_success_derived clock rec db db' :
  int64 (RequestsTotal rec) →
  int64 (RequestsFailed rec) →
  RequestsSuccess rec = 0 →
  0 < deriveTotal rec →
  InsertMetrics clock rec db = (db', None) →
  ∃ row,
    node_metrics_raw (tables db') = node_metrics_raw (tables db) ++ [row]
    ∧ requests_total (cnt row) = deriveTotal rec
    ∧ requests_failed (cnt row) = RequestsFailed rec
    ∧ requests_success (cnt row)
      = sub64 (requests_total (cnt row)) (requests_failed (cnt row))
    ∧ (0 ≤ requests_failed (cnt row) →
       requests_success (cnt row)
       = requests_total (cnt row) - requests_failed (cnt row))
    ∧ (requests_total (cnt row) < requests_failed (cnt row) →
       requests_success (cnt row)
       = requests_total (cnt row) - requests_failed (cnt row)
       ∧ requests_success (cnt row) < 0).
Proof.
  intros Ht Hf Hs0 Hpos Hins. exists (rawRow clock rec).
  split; [exact (InsertMetrics_ok _ _ _ _ Hins)|].
  cbn [rawRow cnt requests_total requests_success requests_failed].
  assert (Hdt : int64 (deriveTotal rec)).
  { unfold deriveTotal. destruct (Z.eqb (RequestsTotal rec) 0);
      [apply wrap64_range|exact Ht]. }
  assert (Hds : deriveSuccess rec = sub64 (deriveTotal rec) (RequestsFailed rec)).
  { unfold deriveSuccess. rewrite Hs0. cbn [Z.eqb andb].
    destruct (Z.ltb_spec 0 (deriveTotal rec)); [reflexivity|lia]. }
  rewrite Hds. unfold sub64, int64 in *.
  repeat split.
  - intros Hf0. apply wrap64_id. unfold int64. lia.
  - apply wrap64_id. unfold int64. lia.
  - rewrite wrap64_id by (unfold int64; lia). lia.
Qed.

Lemma InsertMetrics_success_derived_witness :
  ∃ row,
    node_metrics_raw (tables (InsertMetrics 7 rec_5_0_9 emptyDB).1)
    = node_metrics_raw (tables emptyDB) ++ [row]
    ∧ requests_total (cnt row) = deriveTotal rec_5_0_9
    ∧ requests_failed (cnt row) = RequestsFailed rec_5_0_9
    ∧ requests_success (cnt row)
      = sub64 (requests_total (cnt row)) (requests_failed (cnt row))
    ∧ (0 ≤ requests_failed (cnt row) →
       requests_success (cnt row)
       = requests_total (cnt row) - requests_failed (cnt row))
    ∧ (requests_total (cnt row) < requests_failed (cnt row) →
       requests_success (cnt row)
       = requests_total (cnt row) - requests_failed (cnt row)
       ∧ requests_success (cnt row) < 0).
Proof.
  apply (InsertMetrics_success_derived 7 rec_5_0_9 emptyDB);
    unfold int64; cbn; try lia; reflexivity.
Defined.

(** The running example of C8: total 5, failed 9, success left at 0 is
    stored with success -4. *)
Example InsertMetrics_negative_success :
  requests_success (cnt (rawRow 7 rec_5_0_9)) = -4.
Proof. reflexivity. Qed.

End Ingest.

(** ** Roll-up: [AggregateMetrics] *)
Section Rollup.
Import GoTime Store Samples.
Local Open Scope Z_scope.

Lemma ExecContext_ok stmt db db' :
  ExecContext stmt db = (db', None) →
  tables db' = stmt (tables db) ∧ faults db' = tail (faults db).
Proof.
  unfold ExecContext. destruct (faults db) as [|[] fs]; intros [= <-]; done.
Qed.

Lemma ExecContext_tables stmt db :
  tables (ExecContext stmt db).1 = stmt (tables db)
  ∨ tables (ExecContext stmt db).1 = tables db.
Proof.
  unfold ExecContext. destruct (faults db) as [|[] fs]; cbn; auto.
Qed.

(** What a group of the select holds: nothing when no row of the list has
    the values of the key, and otherwise the bucket of one of these rows
    with the sum of all of them. *)
Lemma group_sum_lookup g e rows k :
  group_sum g e rows !! k
  = match filter (λ r, groupKey g e r = k) rows with
    | [] => None
    | r :: rs => Some (bucket e (ts r), sum_counters (r :: rs))
    end.
Proof.
  induction rows as [|r rows IH]; [done|].
  cbn [group_sum foldr]. fold (group_sum g e rows).
  rewrite filter_cons. destruct (decide (groupKey g e r = k)) as [->|Hne].
  - rewrite lookup_insert_eq, IH.
    destruct (filter _ rows); reflexivity.
  - rewrite lookup_insert_ne by done. exact IH.
Qed.

Lemma agg_table_set dst m tb : agg_table dst (set_agg_table dst m tb) = m.
Proof. destruct dst; reflexivity. Qed.

Lemma set_agg_table_twice dst m m' tb :
  set_agg_table dst m (set_agg_table dst m' tb) = set_agg_table dst m tb.
Proof. destruct dst; reflexivity. Qed.

(** No roll-up writes the table it reads. *)
Lemma plan_rows_untouched target src dst e m tb :
  aggregationPlan target = inl (src, dst, e) →
  rows_of src (set_agg_table dst m tb) = rows_of src tb.
Proof. destruct target; intros [= <- <- <-]; reflexivity. Qed.

(** Upserting into a table is upserting into the empty table and keeping
    the other rows of the table. *)
Lemma upsert_union (sel : list (BucketKey * Counters))
    (d0 dst : gmap BucketKey Counters) :
  upsert sel (d0 ∪ dst) = upsert sel d0 ∪ dst.
Proof.
  unfold upsert. revert d0. induction sel as [|[k v] sel IH]; intros d0; [done|].
  cbn [foldl fst snd]. rewrite insert_union_l. apply IH.
Qed.

Lemma upsert_empty (sel : list (BucketKey * Counters))
    (dst : gmap BucketKey Counters) :
  upsert sel dst = upsert sel ∅ ∪ dst.
Proof. by rewrite <- upsert_union, (left_id_L ∅ (∪)). Qed.

Lemma upsert_twice (sel : list (BucketKey * Counters))
    (dst : gmap BucketKey Counters) :
  upsert sel (upsert sel dst) = upsert sel dst.
Proof.
  rewrite (upsert_empty sel dst), upsert_union.
  rewrite (upsert_empty sel (upsert sel ∅)).
  by rewrite (idemp_L (∪)).
Qed.

(** With one selected row per key, the table after the upsert holds the
    selected row of a key, and the old row where none was selected. *)
Lemma upsert_lookup (sel : list (BucketKey * Counters))
    (dst : gmap BucketKey Counters) k :
  NoDup sel.*1 →
  upsert sel dst !! k
  = match list_to_map (M := gmap BucketKey Counters) sel !! k with
    | Some v => Some v
    | None => dst !! k
    end.
Proof.
  unfold upsert. revert dst. induction sel as [|[k' v] sel IH]; intros dst Hnd.
  { cbn. by rewrite lookup_empty. }
  cbn [fmap list_fmap fst] in Hnd. apply NoDup_cons in Hnd as [Hk' Hnd].
  cbn [foldl fst snd]. rewrite IH by done. rewrite list_to_map_cons.
  destruct (decide (k' = k)) as [->|Hne].
  - rewrite lookup_insert_eq.
    by rewrite (not_elem_of_list_to_map_1 sel k Hk'), lookup_insert_eq.
  - by rewrite !lookup_insert_ne by done.
Qed.

(** Grouped by the bucket, the select yields the groups under their own
    keys. *)
Lemma selected_by_bucket e rows :
  selected GroupByBucket e rows
  = (λ kv, (kv.1, kv.2.2)) <$> map_to_list (group_sum GroupByBucket e rows).
Proof.
  unfold selected. apply list_fmap_ext. intros i [[[a n] t] [b c]] Hi.
  apply list_elem_of_lookup_2, elem_of_map_to_list in Hi.
  rewrite group_sum_lookup in Hi.
  destruct (filter _ rows) as [|r rs] eqn:Hf; [done|].
  assert (Hr : r ∈ filter (λ r, groupKey GroupByBucket e r = (a, n, t)) rows)
    by (rewrite Hf; left).
  apply list_elem_of_filter in Hr as [Hr _].
  injection Hi as <- <-. injection Hr as _ _ <-. reflexivity.
Qed.

Lemma selected_by_bucket_lookup e rows k :
  NoDup (selected GroupByBucket e rows).*1
  ∧ list_to_map (M := gmap BucketKey Counters)
      (selected GroupByBucket e rows) !! k
    = snd <$> group_sum GroupByBucket e rows !! k.
Proof.
  rewrite selected_by_bucket.
  assert (Hfst : ((λ kv : BucketKey * (Time * Counters), (kv.1, kv.2.2))
                    <$> map_to_list (group_sum GroupByBucket e rows)).*1
                 = (map_to_list (group_sum GroupByBucket e rows)).*1).
  { rewrite <- list_fmap_compose. by apply list_fmap_ext. }
  assert (Hnd : NoDup ((λ kv : BucketKey * (Time * Counters), (kv.1, kv.2.2))
                         <$> map_to_list (group_sum GroupByBucket e rows)).*1).
  { rewrite Hfst. apply NoDup_fst_map_to_list. }
  split; [exact Hnd|].
  destruct (group_sum GroupByBucket e rows !! k) as [[b c]|] eqn:Hk; cbn.
  - apply elem_of_list_to_map; [done|]. apply list_elem_of_fmap.
    exists (k, (b, c)). split; [done|]. by apply elem_of_map_to_list.
  - apply not_elem_of_list_to_map_1. rewrite Hfst. intros Hin.
    apply list_elem_of_fmap in Hin as ([k' v] & -> & Hin).
    apply elem_of_map_to_list in Hin. cbn in Hk. congruence.
Qed.

Lemma aggregate_stmt_twice g target src dst e from to accountID tb :
  aggregationPlan target = inl (src, dst, e) →
  aggregate_stmt g src dst e from to accountID
    (aggregate_stmt g src dst e from to accountID tb)
  = aggregate_stmt g src dst e from to accountID tb.
Proof.
  intros Hplan. unfold aggregate_stmt.
  rewrite (plan_rows_untouched _ _ _ _ _ _ Hplan).
  rewrite agg_table_set, set_agg_table_twice, upsert_twice. reflexivity.
Qed.

Lemma ExecContext_engine stmt db : engine (ExecContext stmt db).1 = engine db.
Proof. unfold ExecContext. by destruct (faults db) as [|[] fs]. Qed.

(** The roll-up with the groups taken in one fixed order: with an explicit
    end of the window, a second [AggregateMetrics] over the same window
    leaves every table as the first, successful one left it; when the
    engine groups by the bucket (as it must for the roll-up of the raw
    table) the destination row of every bucket of the window holds, after
    the first run, the sum of the window's source rows of that bucket,
    whatever it held before, and the other destination rows are
    untouched. *)
Theorem AggregateMetrics_idempotent
    clock1 clock2 accountID target from to db db1 :
  IsZero to = false →
  AggregateMetrics clock1 accountID target from to db = (db1, None) →
  tables (AggregateMetrics clock2 accountID target from to db1).1 = tables db1
  ∧ ∀ src dst e,
      aggregationPlan target = inl (src, dst, e) →
      groupBy (engine db) src = GroupByBucket →
      ∀ k,
        agg_table dst (tables db1) !! k
        = match window_rows src e (windowFrom target from to) to accountID
                  (tables db) k with
          | [] => agg_table dst (tables db) !! k
          | rs => Some (sum_counters rs)
          end.
Proof.
  intros Hto. unfold AggregateMetrics, windowTo. rewrite Hto.
  destruct (aggregationPlan target) as [[[src dst] e]|err] eqn:Hplan;
    [|intros [=]].
  intros Hrun.
  assert (Heng : engine db1 = engine db).
  { pose proof (ExecContext_engine
                  (aggregate_stmt (engine db) src dst e
                     (windowFrom target from to) to accountID) db) as He.
    by rewrite Hrun in He. }
  apply ExecContext_ok in Hrun as [Htb _]. split.
  - rewrite Heng.
    destruct (ExecContext_tables
                (aggregate_stmt (engine db) src dst e
                   (windowFrom target from to) to accountID)
                db1) as [-> | ->]; [|reflexivity].
    rewrite Htb. by apply (aggregate_stmt_twice _ target).
  - intros src' dst' e' [= <- <- <-] Hg k.
    rewrite Htb. unfold aggregate_stmt, window_rows. rewrite Hg.
    destruct (selected_by_bucket_lookup e
                (filter (λ r, in_window (windowFrom target from to) to
                                accountID r = true) (rows_of src (tables db)))
                k) as [Hnd Hsel].
    rewrite agg_table_set, upsert_lookup, Hsel, group_sum_lookup by done.
    change (groupKey GroupByBucket e) with (bucketKey e).
    destruct (filter _ (filter _ _)); reflexivity.
Qed.

Lemma AggregateMetrics_idempotent_witness :
  let db1 :=
    (AggregateMetrics 0 EmptyString MetricsGranularityHourly t_10_00 t_11_00
                      s1DB).1 in
  tables (AggregateMetrics 1 EmptyString MetricsGranularityHourly
                           t_10_00 t_11_00 db1).1
  = tables db1
  ∧ node_metrics_hourly (tables db1) !! ("a1", "n1", t_10_00)
    = Some (counters_of_total 12).
Proof.
  intros db1.
  destruct (AggregateMetrics_idempotent 0 1 EmptyString MetricsGranularityHourly
              t_10_00 t_11_00 s1DB db1 eq_refl eq_refl) as [Hidem Hrow].
  split; [exact Hidem|].
  change (node_metrics_hourly (tables db1))
    with (agg_table AHourly (tables db1)).
  rewrite (Hrow TRaw AHourly HourOf eq_refl eq_refl ("a1", "n1", t_10_00)).
  vm_compute. reflexivity.
Defined.

(** The two readings of the grouping column on the roll-up of two hourly
    rows of one day: grouped by the bucket, the daily row is their sum;
    grouped by the source column, each hour is a group of its own and the
    daily row is left with the counters of one of them. *)
Example AggregateMetrics_day_readings :
  let day g :=
    node_metrics_daily
      (tables (AggregateMetrics 0 EmptyString MetricsGranularityDaily
                                t_00_00 t_next_00_00 (twoHours g)).1)
    !! ("a1", "n1", t_00_00) in
  day GroupByBucket = Some (counters_of_total 12)
  ∧ (day GroupByColumn = Some (counters_of_total 5)
     ∨ day GroupByColumn = Some (counters_of_total 7)).
Proof.
  split; [vm_compute; reflexivity|].
  first [left; vm_compute; reflexivity|right; vm_compute; reflexivity].
Qed.

(** *** The order of the selected rows *)

Import StoreYield.

Lemma AggregateMetricsBy_id clock accountID target from to db :
  AggregateMetricsBy id clock accountID target from to db
  = AggregateMetrics clock accountID target from to db.
Proof. reflexivity. Qed.

(** With one selected row per key, the order of the rows plays no part in
    the upsert. *)
Lemma upsert_perm (sel sel' : list (BucketKey * Counters))
    (dst : gmap BucketKey Counters) :
  NoDup sel.*1 → sel' ≡ₚ sel → upsert sel' dst = upsert sel dst.
Proof.
  intros Hnd Hp.
  assert (Hnd' : NoDup sel'.*1) by (by rewrite Hp).
  apply map_eq. intros k. rewrite !upsert_lookup by done.
  by rewrite (list_to_map_proper (M := gmap BucketKey) sel' sel Hnd' Hp).
Qed.

(** Grouped by the bucket, the roll-up does not depend on the order in
    which the engine yields the groups. *)
Lemma aggregate_stmt_by_bucket (yield : Yield) g src dst e from to accountID tb :
  (∀ l, yield l ≡ₚ l) →
  groupBy g src = GroupByBucket →
  aggregate_stmt_by yield g src dst e from to accountID tb
  = aggregate_stmt g src dst e from to accountID tb.
Proof.
  intros Hy Hg. unfold aggregate_stmt_by, aggregate_stmt. rewrite Hg.
  f_equal. apply upsert_perm.
  - apply selected_by_bucket_lookup. exact (("", "", 0) : BucketKey).
  - unfold selected_by, selected. by rewrite Hy.
Qed.

(** The roll-up of the raw table, whatever the engine and the order in
    which it yields the groups at each run: a second run over the same
    window leaves every table as the first, successful one left it, and
    after the first run the hourly row of every bucket of the window holds
    the sum of the window's raw rows of that bucket, whatever it held
    before. *)
Lemma AggregateMetricsBy_hourly_idempotent (yield1 yield2 : Yield)
    clock1 clock2 accountID from to db db1 :
  (∀ l, yield1 l ≡ₚ l) → (∀ l, yield2 l ≡ₚ l) →
  IsZero to = false →
  AggregateMetricsBy yield1 clock1 accountID MetricsGranularityHourly from to db
  = (db1, None) →
  tables (AggregateMetricsBy yield2 clock2 accountID MetricsGranularityHourly
                             from to db1).1 = tables db1
  ∧ ∀ k,
      node_metrics_hourly (tables db1) !! k
      = match window_rows TRaw HourOf
                (windowFrom MetricsGranularityHourly from to) to accountID
                (tables db) k with
        | [] => node_metrics_hourly (tables db) !! k
        | rs => Some (sum_counters rs)
        end.
Proof.
  intros Hy1 Hy2 Hto.
  assert (Heq : ∀ yield clock d, (∀ l, yield l ≡ₚ l) →
            AggregateMetricsBy yield clock accountID MetricsGranularityHourly
                               from to d
            = AggregateMetrics clock accountID MetricsGranularityHourly
                               from to d).
  { intros yield clock d Hy. unfold AggregateMetricsBy, AggregateMetrics.
    unfold ExecContext. cbn [aggregationPlan].
    by rewrite aggregate_stmt_by_bucket by done. }
  rewrite !Heq by done. intros Hrun.
  destruct (AggregateMetrics_idempotent clock1 clock2 accountID
              MetricsGranularityHourly from to db db1 Hto Hrun) as [H1 H2].
  split; [exact H1|]. intros k.
  exact (H2 TRaw AHourly HourOf eq_refl eq_refl k).
Qed.

Lemma AggregateMetricsBy_daily (yield : Yield) clock from to db :
  IsZero to = false → IsZero from = false → faults db = [] →
  AggregateMetricsBy yield clock EmptyString MetricsGranularityDaily from to db
  = ({| tables :=
          set_agg_table ADaily
            (upsert ((λ kv, ((kv.1.1.1, kv.1.1.2, kv.2.1), kv.2.2))
                       <$> yield (daily_groups from to EmptyString db))
                    (node_metrics_daily (tables db)))
            (tables db);
        faults := []; engine := engine db |}, None).
Proof.
  intros Hto Hfrom Hf.
  unfold AggregateMetricsBy, windowTo, windowFrom, ExecContext.
  cbn [aggregationPlan]. rewrite Hto, Hfrom, Hf. reflexivity.
Qed.

(** C2: where the code does not do what the claim says.  The hourly table
    holds two rows of one node for one day, with 5 and 7 requests, and the
    engine reads [GROUP BY .. bucket_start] as the column of the source
    table, as MySQL does.  [AggregateMetrics] to the daily table over that
    day succeeds, and the daily row holds the counters of one of the two
    hours, 5 or 7 requests, whichever the engine yields last, and never the
    re-summed total of 12.  A second run over the same window succeeds as
    well; it leaves the tables as they were when the engine yields the
    groups in the same order, and changes the daily row when it yields them
    in the opposite order. *)
Theorem AggregateMetrics_daily_keeps_one_hour (yield1 yield2 : Yield) :
  (∀ l, yield1 l ≡ₚ l) →
  (∀ l, yield2 l ≡ₚ l) →
  let db := twoHours GroupByColumn in
  let key : BucketKey := ("a1", "n1", t_00_00) in
  let groups := daily_groups t_00_00 t_next_00_00 EmptyString db in
  let first :=
    AggregateMetricsBy yield1 0 EmptyString MetricsGranularityDaily
                       t_00_00 t_next_00_00 db in
  let second :=
    AggregateMetricsBy yield2 1 EmptyString MetricsGranularityDaily
                       t_00_00 t_next_00_00 first.1 in
  let day (res : DB * option error) :=
    node_metrics_daily (tables res.1) !! key in
  first.2 = None
  ∧ second.2 = None
  ∧ sum_counters (window_rows THourly DateOf t_00_00 t_next_00_00 EmptyString
                              (tables db) key) = counters_of_total 12
  ∧ (day first = Some (counters_of_total 5)
     ∨ day first = Some (counters_of_total 7))
  ∧ (day second = Some (counters_of_total 5)
     ∨ day second = Some (counters_of_total 7))
  ∧ (yield2 groups = yield1 groups → tables second.1 = tables first.1)
  ∧ (yield2 groups = reverse (yield1 groups) → day second ≠ day first).
Proof.
  intros Hy1 Hy2 db key groups first second day.
  assert (Hfirst := AggregateMetricsBy_daily yield1 0 t_00_00 t_next_00_00 db
                      eq_refl eq_refl eq_refl).
  fold groups first in Hfirst.
  assert (Hsecond := AggregateMetricsBy_daily yield2 1 t_00_00 t_next_00_00
                       first.1 eq_refl eq_refl
                       ltac:(by rewrite Hfirst)).
  fold second in Hsecond.
  assert (Hsame : daily_groups t_00_00 t_next_00_00 EmptyString first.1
                  = groups) by (by rewrite Hfirst).
  rewrite Hsame in Hsecond.
  assert (Hg : ∃ g5 g7 : BucketKey * (Time * Counters),
            (groups = [g5; g7] ∨ groups = [g7; g5])
            ∧ (g5.1.1.1, g5.1.1.2, g5.2.1, g5.2.2) = (key, counters_of_total 5)
            ∧ (g7.1.1.1, g7.1.1.2, g7.2.1, g7.2.2) = (key, counters_of_total 7)).
  { exists (("a1", "n1", t_10_00), (t_00_00, counters_of_total 5)),
           (("a1", "n1", t_11_00), (t_00_00, counters_of_total 7)).
    split; [|split; vm_compute; reflexivity].
      first [left; vm_compute; reflexivity|right; vm_compute; reflexivity]. }
  destruct Hg as (g5 & g7 & Hgroups & H5 & H7).
  assert (Hperm : ∀ yield : Yield, (∀ l, yield l ≡ₚ l) →
            yield groups = [g5; g7] ∨ yield groups = [g7; g5]).
  { intros yield Hy. specialize (Hy groups). symmetry in Hy.
    destruct Hgroups as [Hgr|Hgr]; rewrite Hgr in Hy at 1;
      apply Permutation_length_2_inv in Hy; tauto. }
  assert (Hsum : sum_counters
            (window_rows THourly DateOf t_00_00 t_next_00_00 EmptyString
                         (tables db) key) = counters_of_total 12)
    by (vm_compute; reflexivity).
  assert (Hne : counters_of_total 5 ≠ counters_of_total 7) by (intros [=]).
  clearbody groups. subst day. cbn beta.
  rewrite Hsecond, Hfirst. 
  cbn [fst snd tables set_agg_table node_metrics_daily].
  change (node_metrics_daily (tables db)) with (∅ : gmap BucketKey Counters).

  clearbody key.
  split; [done|]. split; [done|]. split; [exact Hsum|]. clear Hsum.
  set (proj := λ kv : BucketKey * (Time * Counters),
                 (kv.1.1.1, kv.1.1.2, kv.2.1, kv.2.2)) in *.
  assert (Hlast : ∀ (yield : Yield) dst, (∀ l, yield l ≡ₚ l) →
            yield groups = [g5; g7]
            ∧ upsert (proj <$> yield groups) dst !! key
              = Some (counters_of_total 7)
            ∨ yield groups = [g7; g5]
              ∧ upsert (proj <$> yield groups) dst !! key
                = Some (counters_of_total 5)).
  { intros yield dst Hy.
    destruct (Hperm yield Hy) as [E|E]; [left|right]; (split; [done|]);
      rewrite E; unfold upsert; cbn [fmap list_fmap foldl];
      change (proj g5) with (g5.1.1.1, g5.1.1.2, g5.2.1, g5.2.2);
      change (proj g7) with (g7.1.1.1, g7.1.1.2, g7.2.1, g7.2.2);
      rewrite H5, H7; cbn [fst snd]; by rewrite lookup_insert_eq. }
  split; [destruct (Hlast yield1 ∅ Hy1) as [[_ ->]|[_ ->]]; auto|].
  split.
  { destruct (Hlast yield2 (upsert (proj <$> yield1 groups) ∅) Hy2)
      as [[_ ->]|[_ ->]]; auto. }
  split.
  - intros Heq. rewrite Heq, upsert_twice. reflexivity.
  - intros Hrev.
    destruct (Hlast yield1 ∅ Hy1) as [[E1 ->]|[E1 ->]];
      destruct (Hlast yield2 (upsert (proj <$> yield1 groups) ∅) Hy2)
        as [[E2 ->]|[E2 ->]];
      rewrite E1, E2 in Hrev.
    + injection Hrev as Hrev _. rewrite Hrev in H5. rewrite H5 in H7.
      by injection H7.
    + intros [=].
    + intros [=].
    + injection Hrev as Hrev _. rewrite Hrev in H7. rewrite H5 in H7.
      by injection H7.
Qed.

Lemma AggregateMetrics_daily_keeps_one_hour_witness :
  let db := twoHours GroupByColumn in
  let first :=
    AggregateMetricsBy id 0 EmptyString MetricsGranularityDaily
                       t_00_00 t_next_00_00 db in
  let second :=
    AggregateMetricsBy reverse 1 EmptyString MetricsGranularityDaily
                       t_00_00 t_next_00_00 first.1 in
  first.2 = None
  ∧ second.2 = None
  ∧ node_metrics_daily (tables first.1) !! ("a1", "n1", t_00_00)
    ≠ Some (counters_of_total 12)
  ∧ node_metrics_daily (tables second.1) !! ("a1", "n1", t_00_00)
    ≠ node_metrics_daily (tables first.1) !! ("a1", "n1", t_00_00).
Proof.
  intros db first second.
  destruct (AggregateMetrics_daily_keeps_one_hour id reverse
              (λ l, reflexivity l) reverse_Permutation)
    as (H1 & H2 & _ & Hday & _ & _ & Hrev).
  split; [exact H1|]. split; [exact H2|]. split.
  - intros Hbad.
    destruct Hday as [Hd|Hd]; pose proof (eq_trans (eq_sym Hd) Hbad) as [=].
  - exact (Hrev eq_refl).
Defined.

End Rollup.

(** ** Retention: [CleanupMetrics] *)
Section Retention.
Import GoTime Store Samples.
Local Open Scope Z_scope.

Lemma ExecContext_err stmt db db' err :
  ExecContext stmt db = (db', Some err) →
  tables db' = tables db ∧ err = ErrDriver.
Proof.
  unfold ExecContext. destruct (faults db) as [|[] fs]; intros [= <- <-]; done.
Qed.

Lemma CleanupMetrics_ok clock accountID now db db' :
  CleanupMetrics clock accountID now db = (db', None) →
  tables db' = cleaned (cleanupNow clock now) (cleanupAccount accountID) (tables db).
Proof.
  unfold CleanupMetrics, cuts, cleaned. cbn [cleanupLoop].
  set (n := cleanupNow clock now). set (a := cleanupAccount accountID).
  destruct (ExecContext (delete_stmt TRaw _ a) db) as [d1 [e1|]] eqn:H1;
    [intros [=]|].
  destruct (ExecContext (delete_stmt THourly _ a) d1) as [d2 [e2|]] eqn:H2;
    [intros [=]|].
  destruct (ExecContext (delete_stmt TDaily _ a) d2) as [d3 [e3|]] eqn:H3;
    [intros [=]|].
  intros [= <-].
  apply ExecContext_ok in H1 as [H1 _], H2 as [H2 _], H3 as [H3 _].
  by rewrite H3, H2, H1.
Qed.

Lemma doomed_targeted cutoff accountID acct t :
  targeted accountID acct →
  doomed cutoff (cleanupAccount accountID) acct t = false →
  ¬ t < cutoff.
Proof.
  unfold targeted, doomed, cleanupAccount. intros Htg Hd Hlt.
  apply Z.ltb_lt in Hlt. rewrite Hlt in Hd. cbn [andb] in Hd.
  apply orb_false_iff in Hd as [Hd1 Hd2].
  apply bool_decide_eq_false in Hd1, Hd2.
  destruct (decide (accountID = EmptyString)) as [->|Hne]; [done|].
  destruct Htg as [Hall | ->]; done.
Qed.

Lemma doomed_true cutoff accountID acct t :
  doomed cutoff (cleanupAccount accountID) acct t = true →
  targeted accountID acct ∧ t < cutoff.
Proof.
  unfold targeted, doomed, cleanupAccount, normalizeAccount.
  intros [Hlt Hor]%andb_true_iff. apply Z.ltb_lt in Hlt. split; [|done].
  destruct (decide (accountID = EmptyString)) as [->|Hne]; [by left|].
  right. apply orb_true_iff in Hor as [H|H]; apply bool_decide_eq_true in H;
    done.
Qed.

Lemma spared_not_doomed cutoff accountID acct t :
  ¬ targeted accountID acct ∨ cutoff ≤ t →
  doomed cutoff (cleanupAccount accountID) acct t = false.
Proof.
  intros Hsp. destruct (doomed _ _ _ _) eqn:Hd; [|done].
  apply doomed_true in Hd as [Htg Hlt]. destruct Hsp; [done|lia].
Qed.

(** A [DELETE] of [CleanupMetrics] spares a row exactly when the row is not
    among those the call is aimed at or is not older than the retention. *)
Lemma doomed_false_iff now' keep accountID acct t :
  doomed (Add now' (- keep)) (cleanupAccount accountID) acct t = false
  ↔ ¬ (targeted accountID acct ∧ t < now' - keep).
Proof.
  split.
  - intros Hd [Htg Hlt]. apply (doomed_targeted _ _ _ _ Htg Hd).
    unfold Add. lia.
  - intros Hn. destruct (doomed _ _ _ _) eqn:Hd; [|done].
    apply doomed_true in Hd as [Htg Hlt]. destruct Hn.
    split; [done|]. unfold Add in Hlt. lia.
Qed.

Lemma raw_deleted now' keep accountID tb r :
  r ∈ node_metrics_raw
        (delete_stmt TRaw (Add now' (- keep)) (cleanupAccount accountID) tb)
  ↔ r ∈ node_metrics_raw tb
    ∧ ¬ (targeted accountID (account_id r) ∧ ts r < now' - keep).
Proof.
  cbn [delete_stmt node_metrics_raw].
  rewrite list_elem_of_filter, doomed_false_iff. tauto.
Qed.

Lemma agg_deleted (now' keep : Z) (accountID : string)
    (m : gmap BucketKey Counters) (k : BucketKey) (c : Counters) :
  delete_agg (Add now' (- keep)) (cleanupAccount accountID) m !! k = Some c
  ↔ m !! k = Some c ∧ ¬ (targeted accountID k.1.1 ∧ k.2 < now' - keep).
Proof.
  unfold delete_agg. rewrite map_lookup_filter_Some. cbn [fst snd].
  by rewrite doomed_false_iff.
Qed.

(** C6, as stated, fails: a cleanup for account [a1] succeeds and leaves the
    raw row of account [a2] that is eight days old. *)
Lemma CleanupMetrics_retention_counterexample :
  ∃ db' r,
    CleanupMetrics 0 "a1" t_11_00 oldDB = (db', None)
    ∧ r ∈ node_metrics_raw (tables db')
    ∧ ts r < t_11_00 - retentionRaw.
Proof.
  eexists _, {| account_id := "a2"; node_id := "n2";
                ts := t_11_00 - 8 * 24 * Hour; cnt := counters_of_total 2 |}.
  split; [reflexivity|]. split; [|vm_compute; reflexivity].
  vm_compute. apply list_elem_of_here.
Qed.

(** C6 (amended): after a successful [CleanupMetrics(accountID, now)], among
    the rows the call is aimed at (all rows when [accountID] is empty, the
    rows of that account otherwise) no raw row has [ts < now - 7d], no hourly
    row has [bucket_start < now - 30d] and no daily row has
    [bucket_start < now - 365d]; the monthly table is left as it was.  A zero
    [now] stands for the clock. *)
Theorem CleanupMetrics_retention clock accountID now db db' :
  CleanupMetrics clock accountID now db = (db', None) →
  let now' := cleanupNow clock now in
  (∀ r, r ∈ node_metrics_raw (tables db') →
        targeted accountID (account_id r) → ¬ ts r < now' - 7 * 24 * Hour)
  ∧ (∀ k c, node_metrics_hourly (tables db') !! k = Some c →
            targeted accountID k.1.1 → ¬ k.2 < now' - 30 * 24 * Hour)
  ∧ (∀ k c, node_metrics_daily (tables db') !! k = Some c →
            targeted accountID k.1.1 → ¬ k.2 < now' - 365 * 24 * Hour)
  ∧ node_metrics_monthly (tables db') = node_metrics_monthly (tables db).
Proof.
  intros Hrun now'. rewrite (CleanupMetrics_ok _ _ _ _ _ Hrun).
  fold now'. unfold cleaned. cbn.
  repeat split.
  - intros r Hr Htg. apply list_elem_of_filter in Hr as [Hd _].
    exact (doomed_targeted _ _ _ _ Htg Hd).
  - intros k c Hk Htg. apply map_lookup_filter_Some in Hk as [_ Hd].
    exact (doomed_targeted _ _ _ _ Htg Hd).
  - intros k c Hk Htg. apply map_lookup_filter_Some in Hk as [_ Hd].
    exact (doomed_targeted _ _ _ _ Htg Hd).
Qed.

Lemma CleanupMetrics_retention_witness :
  let db' := (CleanupMetrics 0 EmptyString t_11_00 oldDB).1 in
  (∀ r, r ∈ node_metrics_raw (tables db') →
        targeted EmptyString (account_id r) → ¬ ts r < t_11_00 - 7 * 24 * Hour)
  ∧ (∀ k c, node_metrics_hourly (tables db') !! k = Some c →
            targeted EmptyString k.1.1 → ¬ k.2 < t_11_00 - 30 * 24 * Hour)
  ∧ (∀ k c, node_metrics_daily (tables db') !! k = Some c →
            targeted EmptyString k.1.1 → ¬ k.2 < t_11_00 - 365 * 24 * Hour)
  ∧ node_metrics_monthly (tables db') = node_metrics_monthly (tables oldDB).
Proof.
  intros db'.
  exact (CleanupMetrics_retention 0 EmptyString t_11_00 oldDB db' eq_refl).
Defined.

(** Scenario S3: the raw row of eight days ago goes, the one of six days ago
    stays. *)
Example CleanupMetrics_S3 :
  node_metrics_raw (tables (CleanupMetrics 0 EmptyString t_11_00 oldDB).1)
  = [ {| account_id := "a1"; node_id := "n1";
         ts := t_11_00 - 6 * 24 * Hour; cnt := counters_of_total 3 |} ].
Proof. vm_compute. reflexivity. Qed.

(** C10: [CleanupMetrics] deletes from the raw, the hourly and the daily
    table in this order and returns at the first error of the database; the
    rows deleted before the error stay deleted.  A table is cleaned when
    it has lost exactly its rows that the call is aimed at and that are
    older than its retention (7, 30 and 365 days).  An error on the first
    statement leaves every table as it was; an error on the second leaves
    the raw table cleaned and the hourly and daily tables as they were; an
    error on the third leaves the raw and hourly tables cleaned and the
    daily one as it was; each time the error is returned and the later
    statements are not sent (the answers the driver holds for them are
    still there).  Without an error the three tables are cleaned.  The
    monthly table stays as it was throughout. *)
Theorem CleanupMetrics_stops_at_first_error clock accountID now tb fs g :
  let now' := cleanupNow clock now in
  let run script :=
    CleanupMetrics clock accountID now
      {| tables := tb; faults := script; engine := g |} in
  let old keep acct t := targeted accountID acct ∧ t < now' - keep in
  let raw_cleaned (tb' : Tables) :=
    (∀ r, r ∈ node_metrics_raw tb'
          ↔ r ∈ node_metrics_raw tb
            ∧ ¬ old (7 * 24 * Hour) (account_id r) (ts r))
    ∧ sublist (node_metrics_raw tb') (node_metrics_raw tb) in
  let hourly_cleaned (tb' : Tables) :=
    ∀ k c, node_metrics_hourly tb' !! k = Some c
           ↔ node_metrics_hourly tb !! k = Some c
             ∧ ¬ old (30 * 24 * Hour) k.1.1 k.2 in
  let daily_cleaned (tb' : Tables) :=
    ∀ k c, node_metrics_daily tb' !! k = Some c
           ↔ node_metrics_daily tb !! k = Some c
             ∧ ¬ old (365 * 24 * Hour) k.1.1 k.2 in
  let stopped (res : DB * option error) :=
    res.2 = Some ErrDriver ∧ faults res.1 = fs
    ∧ node_metrics_monthly (tables res.1) = node_metrics_monthly tb in
  (stopped (run (true :: fs))
   ∧ tables (run (true :: fs)).1 = tb)
  ∧ (stopped (run (false :: true :: fs))
     ∧ raw_cleaned (tables (run (false :: true :: fs)).1)
     ∧ node_metrics_hourly (tables (run (false :: true :: fs)).1)
       = node_metrics_hourly tb
     ∧ node_metrics_daily (tables (run (false :: true :: fs)).1)
       = node_metrics_daily tb)
  ∧ (stopped (run (false :: false :: true :: fs))
     ∧ raw_cleaned (tables (run (false :: false :: true :: fs)).1)
     ∧ hourly_cleaned (tables (run (false :: false :: true :: fs)).1)
     ∧ node_metrics_daily (tables (run (false :: false :: true :: fs)).1)
       = node_metrics_daily tb)
  ∧ ((run (false :: false :: false :: fs)).2 = None
     ∧ faults (run (false :: false :: false :: fs)).1 = fs
     ∧ raw_cleaned (tables (run (false :: false :: false :: fs)).1)
     ∧ hourly_cleaned (tables (run (false :: false :: false :: fs)).1)
     ∧ daily_cleaned (tables (run (false :: false :: false :: fs)).1)
     ∧ node_metrics_monthly (tables (run (false :: false :: false :: fs)).1)
       = node_metrics_monthly tb).
Proof.
  intros now' run old raw_cleaned hourly_cleaned daily_cleaned stopped.
  assert (Hraw : raw_cleaned
            (delete_stmt TRaw (Add now' (- retentionRaw))
                         (cleanupAccount accountID) tb)).
  { split; [intros r; apply raw_deleted|apply sublist_filter]. }
  assert (Hhourly : ∀ tb', node_metrics_hourly tb' = node_metrics_hourly tb →
            hourly_cleaned
              (delete_stmt THourly (Add now' (- retentionHourly))
                           (cleanupAccount accountID) tb')).
  { intros tb' Heq k c. cbn [delete_stmt set_agg_table node_metrics_hourly].
    rewrite Heq. apply agg_deleted. }
  assert (Hdaily : ∀ tb', node_metrics_daily tb' = node_metrics_daily tb →
            daily_cleaned
              (delete_stmt TDaily (Add now' (- retentionDaily))
                           (cleanupAccount accountID) tb')).
  { intros tb' Heq k c. cbn [delete_stmt set_agg_table node_metrics_daily].
    rewrite Heq. apply agg_deleted. }
  split; [|split; [|split]].
  - done.
  - split; [done|]. split; [exact Hraw|done].
  - split; [done|]. split; [exact Hraw|]. split; [|done].
    by apply Hhourly.
  - split; [done|]. split; [done|]. split; [exact Hraw|].
    split; [by apply Hhourly|]. split; [|done]. by apply Hdaily.
Qed.

(** On the tables of scenario S3, a cleanup for every account whose second
    statement fails: the error comes back, the raw rows of eight days ago
    are gone although the call failed, the raw row of six days ago and the
    hourly and daily rows, old as they are, are still there. *)
Lemma CleanupMetrics_stops_at_first_error_witness :
  let res := CleanupMetrics 0 EmptyString t_11_00
               {| tables := oldTables; faults := [false; true];
                  engine := GroupByColumn |} in
  res.2 = Some ErrDriver
  ∧ (∀ r, r ∈ node_metrics_raw (tables res.1)
          ↔ r ∈ node_metrics_raw oldTables
            ∧ ¬ ((EmptyString = EmptyString
                  ∨ account_id r = normalizeAccount EmptyString)
                 ∧ ts r < t_11_00 - 7 * 24 * Hour))
  ∧ node_metrics_hourly (tables res.1) = node_metrics_hourly oldTables
  ∧ node_metrics_daily (tables res.1) = node_metrics_daily oldTables.
Proof.
  intros res.
  destruct (CleanupMetrics_stops_at_first_error 0 EmptyString t_11_00
              oldTables [] GroupByColumn)
    as (_ & ((Herr & _) & (Hraw & _) & Hhourly & Hdaily) & _).
  split; [exact Herr|]. split; [exact Hraw|]. split; [exact Hhourly|].
  exact Hdaily.
Defined.

(** On the sample tables, an error on the hourly delete: the old raw rows
    are gone although the call failed, the old hourly rows are still there. *)
Example CleanupMetrics_partial :
  let r := CleanupMetrics 0 EmptyString t_11_00
             {| tables := oldTables; faults := [false; true];
                engine := GroupByColumn |} in
  r.2 = Some ErrDriver
  ∧ length (node_metrics_raw (tables r.1)) = 1%nat
  ∧ node_metrics_hourly (tables r.1) !! ("a1", "n1", t_11_00 - 31 * 24 * Hour)
    = Some (counters_of_total 1).
Proof.
  split; [reflexivity|]. split; vm_compute; reflexivity.
Qed.

End Retention.

(** ** The cleanup loop: [nextCleanupDelay] *)
Section Cleanup_delay.
Import GoTime Scheduler.
Local Open Scope Z_scope.

Lemma startOfDay_floor t : startOfDay t = t / nsPerDay * nsPerDay.
Proof. unfold startOfDay. rewrite Date_of_day. unfold unixDays. lia. Qed.

(** In the daily branch the timer is set to the first 02:00 UTC after
    [now]. *)
Lemma nextCleanupDelay_daily m now :
  20 * Hour ≤ cleanupInterval m →
  Add now (nextCleanupDelay m now)
  = (if decide (now < twoOClock now) then twoOClock now
     else twoOClock now + 24 * Hour).
Proof.
  intros Hge. unfold nextCleanupDelay.
  destruct (Z.leb_spec (20 * Hour) (cleanupInterval m)) as [_|]; [|lia].
  rewrite Date_of_day. unfold twoOClock, unixDays, cleanupHour, After, Add.
  match goal with
  | |- context [Z.ltb ?a ?b] => destruct (Z.ltb_spec a b)
  end; cbn [negb]; unfold Sub;
    case_decide as Hlt;
    repeat match goal with
           | |- context [Z.ltb ?a ?b] => destruct (Z.ltb_spec a b)
           end;
    unfold minDuration, maxDuration, nsPerDay, Hour, Minute, Second,
      Nanosecond in *;
    Z.div_mod_to_equations; lia.
Qed.

(** After [Start] the cleanup interval is positive, so in the cleanup loop
    the default of [nextCleanupDelay] is never taken: a scheduler configured
    with a non-positive interval runs its first cleanup at 02:00 UTC. *)
Lemma Start_cleanup_daily m now :
  cleanupInterval m ≤ 0 →
  0 < cleanupInterval (Start m)
  ∧ Add now (nextCleanupDelay (Start m) now)
    = (if decide (now < twoOClock now) then twoOClock now
       else twoOClock now + 24 * Hour).
Proof.
  intros Hle.
  assert (Hint : cleanupInterval (Start m) = 24 * Hour).
  { cbn. destruct (Z.leb_spec (cleanupInterval m) 0); [done|lia]. }
  split; [rewrite Hint; done|].
  apply nextCleanupDelay_daily. rewrite Hint.
  unfold Hour, Minute, Second, Nanosecond. lia.
Qed.

(** [twoOClock] is the instant the code builds with [time.Date]. *)
Lemma twoOClock_Date now :
  Date (Year now) (Month now) (Day now) cleanupHour 0 0 0 = twoOClock now.
Proof.
  rewrite Date_of_day. unfold twoOClock, unixDays, cleanupHour. lia.
Qed.

(** C7: the scheduler as [Start] runs it.  [NewMetricsScheduler] sets the
    cleanup interval to 24 h; [Start] keeps a positive interval and replaces
    any other by 24 h before it starts the cleanup loop, the only caller of
    [nextCleanupDelay], so the interval the loop is configured with is
    positive.  For every [now]: when that interval is at least 20 h, the
    first cleanup fires at 02:00 UTC of the current day, or at 02:00 UTC of
    the next day if that instant is not after [now]; otherwise the delay
    before the first cleanup is that interval. *)
Theorem nextCleanupDelay_spec m now :
  let interval := cleanupInterval (Start m) in
  let today := Date (Year now) (Month now) (Day now) 2 0 0 0 in
  cleanupInterval (Start NewMetricsScheduler) = 24 * Hour
  ∧ interval = (if decide (0 < cleanupInterval m) then cleanupInterval m
                else 24 * Hour)
  ∧ 0 < interval
  ∧ today = now / nsPerDay * nsPerDay + 2 * Hour
  ∧ (20 * Hour ≤ interval →
     Add now (nextCleanupDelay (Start m) now)
     = (if decide (now < today) then today else today + 24 * Hour))
  ∧ (¬ 20 * Hour ≤ interval →
     nextCleanupDelay (Start m) now = interval).
Proof.
  intros interval today.
  assert (Hint : interval = (if decide (0 < cleanupInterval m)
                             then cleanupInterval m else 24 * Hour)).
  { unfold interval. cbn [Start cleanupInterval].
    unfold defaultCleanupInterval.
    destruct (Z.leb_spec (cleanupInterval m) 0); case_decide; lia. }
  assert (Hpos : 0 < interval).
  { rewrite Hint. case_decide; [done|].
    unfold Hour, Minute, Second, Nanosecond. lia. }
  assert (Htoday : today = twoOClock now) by apply twoOClock_Date.
  split; [reflexivity|]. split; [exact Hint|]. split; [exact Hpos|].
  split; [exact Htoday|]. rewrite Htoday. clearbody today. clear Htoday.
  split.
  - apply nextCleanupDelay_daily.
  - intros Hlt. fold interval in Hlt |- *. unfold nextCleanupDelay.
    fold interval. clearbody interval.
    destruct (Z.leb_spec (20 * Hour) interval); [lia|].
    destruct (Z.leb_spec interval 0); [lia|reflexivity].
Qed.

(** The started scheduler on concrete inputs: as built by
    [NewMetricsScheduler], at 10:00 the first cleanup is 16 h away, at 02:00
    of the next day; configured with 6 h, the delay is 6 h; configured with
    zero, it runs with 24 h and the first cleanup is at 02:00 as well.  The
    default inside [nextCleanupDelay] itself is met only by a scheduler that
    was not started. *)
Example nextCleanupDelay_started :
  nextCleanupDelay (Start NewMetricsScheduler) at_10_00 = 16 * Hour
  ∧ nextCleanupDelay
      (Start {| aggregateInterval := Hour; cleanupInterval := 6 * Hour |})
      at_10_00 = 6 * Hour
  ∧ nextCleanupDelay (Start zeroInterval) at_10_00 = 16 * Hour
  ∧ nextCleanupDelay zeroInterval at_10_00 = 24 * Hour.
Proof. repeat split; vm_compute; reflexivity. Qed.

(** The calendar route of the code on concrete instants: at 10:00 the next
    run is 02:00 of the next day, at 01:30 it is 02:00 of the same day, and
    at 02:00 sharp it is 02:00 of the next day. *)
Example nextCleanupDelay_at_10_00 :
  nextCleanupDelay NewMetricsScheduler at_10_00 = 16 * Hour.
Proof. vm_compute. reflexivity. Qed.

Example nextCleanupDelay_at_01_30 :
  nextCleanupDelay NewMetricsScheduler at_01_30 = 30 * Minute.
Proof. vm_compute. reflexivity. Qed.

Example nextCleanupDelay_at_02_00 :
  nextCleanupDelay NewMetricsScheduler (at_01_30 + 30 * Minute) = 24 * Hour.
Proof. vm_compute. reflexivity. Qed.

Example calendar_2025_11_25 :
  (Year at_10_00, Month at_10_00, Day at_10_00) = (2025, 11, 25)
  ∧ (Year zeroTime, Month zeroTime, Day zeroTime) = (1, 1, 1)
  ∧ Date 2025 11 25 10 0 0 0 = at_10_00
  ∧ AddDate at_10_00 0 (-1) 6 = Date 2025 10 31 10 0 0 0
  ∧ AddDate at_10_00 0 3 6 = Date 2026 3 3 10 0 0 0.
Proof. vm_compute. repeat split. Qed.

End Cleanup_delay.

(** ** The hub: invariant of the reachable states *)
Section Hub_invariant.
Import Hub.

Lemma chan_of_set_chan c ch h c' :
  chan_of (set_chan c ch h) c' = if decide (c = c') then ch else chan_of h c'.
Proof.
  unfold chan_of. cbn. rewrite lookup_insert. by case_decide.
Qed.

Lemma chan_of_set_chan_eq c ch h : chan_of (set_chan c ch h) c = ch.
Proof. rewrite chan_of_set_chan. by case_decide. Qed.

Lemma chan_of_set_chan_ne c ch h c' :
  c ≠ c' → chan_of (set_chan c ch h) c' = chan_of h c'.
Proof. intros. rewrite chan_of_set_chan. by case_decide. Qed.

Lemma Inv_NewWSHub : Inv NewWSHub.
Proof.
  split; cbn; try (intros; set_solver); apply NoDup_nil_2.
Qed.

Lemma Inv_connect acct h : Inv h → Inv (connect acct h).
Proof.
  intros [I1 I2 I3 I5 I6 I7 I8]. unfold connect.
  set (c0 := {| conn := nextConn h; accountID := acct; isShare := false |}).
  assert (Hfresh : ∀ c, (conn c < nextConn h)%positive → c0 ≠ c).
  { intros c Hlt Heq. subst c. unfold c0 in Hlt. cbn in Hlt. lia. }
  split; cbn.
  - intros a cs c Hcs Hc. destruct (I1 a cs c Hcs Hc) as (Ha & Hopen & Hreg & Hlt).
    change (chan_of _ c) with (chan_of (set_chan c0 newChan h) c).
    rewrite chan_of_set_chan_ne by auto. repeat split; try done; [|lia].
    rewrite elem_of_app, list_elem_of_singleton. intros [?| ->]; [done|].
    by apply (Hfresh c0).
  - intros c Hc.
    change (chan_of _ c) with (chan_of (set_chan c0 newChan h) c).
    apply elem_of_app in Hc as [Hc| ->%list_elem_of_singleton].
    + destruct (I2 c Hc) as [Hopen Hlt].
      rewrite chan_of_set_chan_ne by auto. split; [done|lia].
    + rewrite chan_of_set_chan_eq. split; [done|]. cbn. lia.
  - apply NoDup_app. split; [done|]. split; [|apply NoDup_singleton].
    intros c Hc ->%list_elem_of_singleton.
    destruct (I2 c0 Hc) as [_ Hlt]. cbn in Hlt. lia.
  - intros c f.
    change (chan_of _ c) with (chan_of (set_chan c0 newChan h) c).
    rewrite chan_of_set_chan. case_decide; [cbn; set_solver|apply I5].
  - exact I6.
  - exact I7.
  - intros c Hc. destruct (I8 c Hc) as [Hcl Hlt].
    change (chan_of _ c) with (chan_of (set_chan c0 newChan h) c).
    rewrite chan_of_set_chan_ne by auto. split; [done|lia].
Qed.


Lemma Inv_set_unregister q h : Inv h → Inv (set_unregister q h).
Proof. intros [I1 I2 I3 I5 I6 I7 I8]. by split. Qed.

Lemma Inv_recv_register c q h :
  Inv h → register h = c :: q → Inv (addClient (Some c) (set_register q h)).
Proof.
  intros [I1 I2 I3 I5 I6 I7 I8] Hq. rewrite Hq in *.
  apply NoDup_cons in I3 as [Hcq Hnd].
  destruct (I2 c ltac:(left)) as [Hopen Hlt].
  split; cbn; try done.
  - intros a cs c' Hcs Hc'.
    change (chan_of _ c') with (chan_of h c').
    destruct (decide (accountID c = a)) as [<-|Hne].
    + rewrite lookup_insert_eq in Hcs. injection Hcs as <-.
      apply elem_of_union in Hc' as [->%elem_of_singleton|Hc'].
      * done.
      * unfold clients_of in Hc'. cbn in Hc'.
        destruct (clients h !! accountID c) as [cs|] eqn:Hcs; [|set_solver].
        destruct (I1 _ _ _ Hcs Hc') as (? & ? & Hreg & ?).
        repeat split; try done. intros ?. apply Hreg. by right.
    + rewrite lookup_insert_ne in Hcs by done.
      destruct (I1 _ _ _ Hcs Hc') as (? & ? & Hreg & ?).
      repeat split; try done. intros ?. apply Hreg. by right.
  - intros c' Hc'. apply (I2 c'). by right.
Qed.

(** The hub goes on unchanged. *)
Local Ltac unchanged := split; [cbn; tauto|cbn; assumption].

Lemma removeClient_Inv client h :
  Inv h →
  ¬ panicked (removeClient client h) ∧ Inv (hub_of (removeClient client h)).
Proof.
  intros Hinv. destruct client as [c|]; [|unchanged]. unfold removeClient.
  destruct (clients h !! accountID c) as [cs|] eqn:Hcs; [|unchanged].
  case_decide as Hc; [|unchanged].
  destruct Hinv as [I1 I2 I3 I5 I6 I7 I8].
  destruct (I1 _ _ _ Hcs Hc) as (_ & Hopen & Hreg & Hlt).
  change (chan_of (set_clients _ h) c) with (chan_of h c). rewrite Hopen.
  assert (Hmem : ∀ a cs' c',
            <[accountID c := cs ∖ {[c]}]> (clients h) !! a = Some cs' →
            c' ∈ cs' →
            c' ≠ c ∧ ∃ cs0, clients h !! a = Some cs0 ∧ c' ∈ cs0).
  { intros a cs' c' Hl Hc'. destruct (decide (accountID c = a)) as [<-|Hne].
    - rewrite lookup_insert_eq in Hl. injection Hl as <-.
      apply elem_of_difference in Hc' as [Hin Hne].
      rewrite elem_of_singleton in Hne. split; [done|]. by exists cs.
    - rewrite lookup_insert_ne in Hl by done. split; [|by eauto].
      intros ->. destruct (I1 _ _ _ Hl Hc') as [? _]. done. }
  assert (Hinv3 : Inv (set_chan c {| buf := buf (chan_of h c); closed := true |}
                         (log_close c
                            (set_clients (<[accountID c := cs ∖ {[c]}]> (clients h)) h)))).
  { split; cbn.
    - intros a cs' c' Hl Hc'. destruct (Hmem _ _ _ Hl Hc') as (Hne & cs0 & Hcs0 & Hin).
      rewrite chan_of_set_chan_ne by done. exact (I1 _ _ _ Hcs0 Hin).
    - intros c' Hc'. rewrite chan_of_set_chan_ne by (intros ->; done).
      exact (I2 _ Hc').
    - done.
    - intros c' f. rewrite chan_of_set_chan. case_decide as Heq; [|apply I5].
      subst c'. cbn. apply I5.
    - done.
    - apply NoDup_cons. split; [|done]. intros Hin.
      destruct (I8 _ Hin) as [Hcl _]. congruence.
    - intros c' Hc'. rewrite chan_of_set_chan. case_decide as Heq.
      + subst c'. done.
      + apply elem_of_cons in Hc' as [?|Hc']; [done|]. exact (I8 _ Hc'). }
  case_decide; (split; [cbn; tauto|]); cbn [hub_of]; [|done].
  destruct Hinv3 as [J1 J2 J3 J5 J6 J7 J8]. split; try done.
  cbn. intros a cs' c' Hl Hc'.
  apply lookup_delete_Some in Hl as [Hne Hl]. exact (J1 _ _ _ Hl Hc').
Qed.


Lemma trySend_Inv data c h acct :
  Inv h →
  c ∈ clients_of h acct →
  account_id data = acct →
  ¬ panicked (trySend data c h)
  ∧ Inv (hub_of (trySend data c h))
  ∧ clients (hub_of (trySend data c h)) = clients h.
Proof.
  intros Hinv Hc Hdata. unfold trySend.
  pose proof Hinv as [I1 I2 I3 I5 I6 I7 I8].
  unfold clients_of in Hc.
  destruct (clients h !! acct) as [cs|] eqn:Hcs; [|by apply not_elem_of_empty in Hc].
  cbn in Hc. destruct (I1 _ _ _ Hcs Hc) as (Hacct & Hopen & _ & _).
  rewrite Hopen. case_decide as Hroom; [|case_decide]; cbn;
    (split; [tauto|]); (split; [|reflexivity]); [| |done].
  - split; cbn; try done.
    + intros a cs' c' Hl Hc'. destruct (I1 _ _ _ Hl Hc') as (? & ? & ? & ?).
      change (chan_of _ c') with
        (chan_of (set_chan c {| buf := buf (chan_of h c) ++ [data];
                                closed := false |} h) c').
      rewrite chan_of_set_chan. by case_decide.
    + intros c' Hc'. destruct (I2 _ Hc') as [? ?].
      change (chan_of _ c') with
        (chan_of (set_chan c {| buf := buf (chan_of h c) ++ [data];
                                closed := false |} h) c').
      rewrite chan_of_set_chan. by case_decide.
    + intros c' f.
      change (chan_of _ c') with
        (chan_of (set_chan c {| buf := buf (chan_of h c) ++ [data];
                                closed := false |} h) c').
      rewrite chan_of_set_chan. case_decide as Heq; [|apply I5].
      subst c'. cbn. rewrite elem_of_app, list_elem_of_singleton.
      intros [Hf| ->]; [by apply I5|congruence].
    + intros c' f. rewrite elem_of_app, list_elem_of_singleton.
      intros [Hf|[= -> ->]]; [by apply I6|congruence].
    + intros c' Hc'. destruct (I8 _ Hc') as [Hcl ?].
      change (chan_of _ c') with
        (chan_of (set_chan c {| buf := buf (chan_of h c) ++ [data];
                                closed := false |} h) c').
      rewrite chan_of_set_chan. case_decide as Heq; [|done].
      subst c'. congruence.
  - by apply Inv_set_unregister.
Qed.

Lemma sendLoop_Inv data order h acct :
  Inv h →
  (∀ c, c ∈ order → c ∈ clients_of h acct) →
  account_id data = acct →
  ¬ panicked (sendLoop data order h) ∧ Inv (hub_of (sendLoop data order h)).
Proof.
  revert h. induction order as [|c rest IH]; intros h Hinv Hord Hdata.
  { unchanged. }
  cbn [sendLoop].
  destruct (trySend_Inv data c h acct Hinv (Hord c ltac:(left)) Hdata)
    as (Hnp & Hinv' & Hcl).
  destruct (trySend data c h) as [h'|h'|h'] eqn:Hts; cbn in *.
  - apply IH; [done| |done]. intros c' Hc'. unfold clients_of. rewrite Hcl.
    apply Hord. by right.
  - done.
  - done.
Qed.

Lemma broadcastToAccount_Inv m order h :
  Inv h → range_order h m order →
  ¬ panicked (broadcastToAccount m order h)
  ∧ Inv (hub_of (broadcastToAccount m order h)).
Proof.
  intros Hinv Hord. unfold broadcastToAccount.
  destruct m as [msg|]; [|unchanged].
  case_decide; [unchanged|].
  destruct (json_Marshal msg) as [data|] eqn:Hdata; [|unchanged].
  destruct Hord as [_ Hset].
  apply (sendLoop_Inv data order h (AccountID msg)); [done| |].
  - intros c Hc. rewrite <- Hset. by apply elem_of_list_to_set.
  - unfold json_Marshal in Hdata.
    destruct (Payload_ msg); [|done]. by injection Hdata as <-.
Qed.

Lemma Inv_write_frame c ch h :
  Inv h →
  closed ch = closed (chan_of h c) →
  (∀ f, f ∈ buf ch → f ∈ buf (chan_of h c)) →
  Inv (set_chan c ch h).
Proof.
  intros [I1 I2 I3 I5 I6 I7 I8] Hcl Hbuf. split; cbn; try done.
  - intros a cs c' Hl Hc'. destruct (I1 _ _ _ Hl Hc') as (? & ? & ? & ?).
    change (chan_of _ c') with (chan_of (set_chan c ch h) c').
    rewrite chan_of_set_chan. case_decide as Heq; [|done]. subst c'.
    by rewrite Hcl.
  - intros c' Hc'. destruct (I2 _ Hc') as [? ?].
    change (chan_of _ c') with (chan_of (set_chan c ch h) c').
    rewrite chan_of_set_chan. case_decide as Heq; [|done]. subst c'.
    by rewrite Hcl.
  - intros c' f. change (chan_of _ c') with (chan_of (set_chan c ch h) c').
    rewrite chan_of_set_chan. case_decide as Heq; [|apply I5]. subst c'.
    intros Hf. by apply I5, Hbuf.
  - intros c' Hc'. destruct (I8 _ Hc') as [? ?].
    change (chan_of _ c') with (chan_of (set_chan c ch h) c').
    rewrite chan_of_set_chan. case_decide as Heq; [|done]. subst c'.
    by rewrite Hcl.
Qed.

Lemma step_Inv h ev :
  Inv h → ¬ panicked (step h ev) ∧ Inv (hub_of (step h ev)).
Proof.
  intros Hinv. destruct ev as [acct| |c| |m order|c]; cbn [step].
  - case_decide; [|unchanged]. split; [cbn; tauto|]. by apply Inv_connect.
  - destruct (register h) as [|c q] eqn:Hq; [unchanged|].
    split; [cbn; tauto|]. by apply Inv_recv_register.
  - case_decide; [|unchanged]. split; [cbn; tauto|].
    by apply Inv_set_unregister.
  - destruct (unregister h) as [|c q]; [unchanged|].
    by apply removeClient_Inv, Inv_set_unregister.
  - case_decide; [|unchanged]. by apply broadcastToAccount_Inv.
  - destruct (buf (chan_of h c)) as [|f fs] eqn:Hbuf; [unchanged|].
    split; [cbn; tauto|]. cbn [hub_of].
    apply Inv_write_frame; [done|done|]. cbn. intros f' Hf'.
    rewrite Hbuf. by right.
Qed.

(** Every execution from the initial hub keeps the invariant and never
    panics. *)
Lemma run_Inv h evs :
  Inv h → ¬ panicked (run h evs) ∧ Inv (hub_of (run h evs)).
Proof.
  revert h. induction evs as [|ev evs IH]; intros h Hinv; [unchanged|].
  cbn [run]. destruct (step_Inv h ev Hinv) as [Hnp Hinv'].
  destruct (step h ev) as [h'|h'|h']; cbn in *; [by apply IH|done|done].
Qed.

End Hub_invariant.

(** ** The hub: what one broadcast does *)
Section Hub_fanout.
Import Hub.

Lemma trySend_room data c h :
  closed (chan_of h c) = false →
  ¬ full h c →
  trySend data c h
  = Running (log_delivered c data
               (set_chan c {| buf := buf (chan_of h c) ++ [data];
                              closed := false |} h)).
Proof.
  unfold trySend, full. intros -> Hroom. case_decide; [done|lia].
Qed.

Lemma trySend_full data c h :
  closed (chan_of h c) = false →
  full h c →
  trySend data c h
  = if decide (length (unregister h) < unregisterCap)
    then Running (set_unregister (unregister h ++ [Some c]) h)
    else Blocked h.
Proof.
  unfold trySend, full. intros -> Hfull. case_decide; [lia|done].
Qed.

(** A round of the loop leaves the channels of the other clients alone. *)
Lemma trySend_others data c h c' :
  c ≠ c' → chan_of (hub_of (trySend data c h)) c' = chan_of h c'.
Proof.
  intros Hne. unfold trySend.
  destruct (closed (chan_of h c)); [done|].
  repeat case_decide; cbn [hub_of]; try done.
  change (chan_of (log_delivered _ _ ?h0) c') with (chan_of h0 c').
  by rewrite chan_of_set_chan_ne.
Qed.

Lemma filter_full_ext h h' (l : list WSClient) :
  (∀ c, c ∈ l → chan_of h' c = chan_of h c) →
  filter (full h') l = filter (full h) l.
Proof.
  induction l as [|c l IH]; intros Heq; [done|].
  rewrite !filter_cons, IH by (intros c' Hc'; apply Heq; by right).
  assert (Hiff : full h' c ↔ full h c)
    by (unfold full; by rewrite (Heq c ltac:(left))).
  destruct (decide (full h' c)), (decide (full h c)); tauto || done.
Qed.

(** With room on [unregister] for every client whose [send] channel is
    full, the loop of [broadcastToAccount] completes: each client with room
    gets the frame, each full client is put on [unregister] and gets
    nothing, and the map of clients is as before. *)
Lemma sendLoop_room data order h :
  NoDup order →
  (∀ c, c ∈ order → closed (chan_of h c) = false) →
  length (unregister h) + length (filter (full h) order) ≤ unregisterCap →
  ∃ h',
    sendLoop data order h = Running h'
    ∧ clients h' = clients h
    ∧ register h' = register h
    ∧ unregister h' = unregister h ++ (Some <$> filter (full h) order)
    ∧ (∀ c, c ∈ order → ¬ full h c →
            chan_of h' c
            = {| buf := buf (chan_of h c) ++ [data]; closed := false |})
    ∧ (∀ c, c ∈ order → full h c → chan_of h' c = chan_of h c)
    ∧ (∀ c, c ∉ order → chan_of h' c = chan_of h c).
Proof.
  revert h. induction order as [|c rest IH]; intros h Hnd Hopen Hroom.
  { exists h. cbn. rewrite app_nil_r. repeat split; try done.
    intros c Hc. by apply not_elem_of_nil in Hc. }
  apply NoDup_cons in Hnd as [Hc Hnd].
  assert (Hrest : ∀ c', c' ∈ rest → c ≠ c') by (intros c' Hc' ->; done).
  pose proof (Hopen c ltac:(left)) as Hopen_c.
  cbn [sendLoop]. rewrite filter_cons in Hroom |- *.
  destruct (decide (full h c)) as [Hfull|Hfree].
  - rewrite (trySend_full _ _ _ Hopen_c Hfull).
    cbn [length] in Hroom. case_decide; [|lia].
    set (h1 := set_unregister (unregister h ++ [Some c]) h).
    assert (Hsame : ∀ c', chan_of h1 c' = chan_of h c') by done.
    destruct (IH h1) as (h' & Hrun & Hcl & Hreg & Hun & Hgot & Hnot & Hout).
    + done.
    + intros c' Hc'. rewrite Hsame. apply Hopen. by right.
    + rewrite (filter_full_ext h h1) by (intros; apply Hsame).
      subst h1. cbn. rewrite length_app. cbn. lia.
    + exists h'. split; [done|]. split; [by rewrite Hcl|].
      split; [by rewrite Hreg|].
      rewrite (filter_full_ext h h1) in * by (intros; apply Hsame).
      split; [rewrite Hun; subst h1; cbn; by rewrite <- app_assoc|].
      split; [|split].
      * intros c' [->|Hc']%elem_of_cons Hfree; [done|].
        rewrite (Hgot c' Hc'); [by rewrite Hsame|]. unfold full in *.
        by rewrite Hsame.
      * intros c' [->|Hc']%elem_of_cons Hf.
        -- by rewrite (Hout c Hc), Hsame.
        -- rewrite (Hnot c' Hc'); [by rewrite Hsame|]. unfold full in *.
           by rewrite Hsame.
      * intros c' Hc'. rewrite not_elem_of_cons in Hc'.
        destruct Hc' as [_ Hc']. by rewrite (Hout c' Hc'), Hsame.
  - rewrite (trySend_room _ _ _ Hopen_c Hfree).
    set (h1 := log_delivered c data
                 (set_chan c {| buf := buf (chan_of h c) ++ [data];
                                closed := false |} h)).
    assert (Hsame : ∀ c', c ≠ c' → chan_of h1 c' = chan_of h c').
    { intros c' Hne. subst h1.
      change (chan_of (log_delivered _ _ ?h0) c') with (chan_of h0 c').
      by rewrite chan_of_set_chan_ne. }
    assert (Hself : chan_of h1 c
                    = {| buf := buf (chan_of h c) ++ [data]; closed := false |}).
    { subst h1.
      change (chan_of (log_delivered _ _ ?h0) c) with (chan_of h0 c).
      by rewrite chan_of_set_chan_eq. }
    assert (Hfilter : filter (full h1) rest = filter (full h) rest).
    { apply filter_full_ext. intros c' Hc'. apply Hsame. by apply Hrest. }
    destruct (IH h1) as (h' & Hrun & Hcl & Hreg & Hun & Hgot & Hnot & Hout).
    + done.
    + intros c' Hc'. rewrite Hsame by (by apply Hrest). apply Hopen. by right.
    + by rewrite Hfilter.
    + exists h'. split; [done|]. split; [by rewrite Hcl|].
      split; [by rewrite Hreg|].
      rewrite Hfilter in *. split; [by rewrite Hun|]. split; [|split].
      * intros c' [->|Hc']%elem_of_cons Hfree'.
        -- by rewrite (Hout c Hc), Hself.
        -- pose proof (Hrest c' Hc') as Hne.
           rewrite (Hgot c' Hc'); [by rewrite Hsame|]. unfold full in *.
           by rewrite Hsame.
      * intros c' [->|Hc']%elem_of_cons Hf; [done|].
        pose proof (Hrest c' Hc') as Hne.
        rewrite (Hnot c' Hc'); [by rewrite Hsame|]. unfold full in *.
        by rewrite Hsame.
      * intros c' Hc'. rewrite not_elem_of_cons in Hc'.
        destruct Hc' as [Hne Hc']. rewrite (Hout c' Hc'). by apply Hsame.
Qed.

(** With more full clients than room on [unregister], the loop blocks. *)
Lemma sendLoop_blocks data order h :
  NoDup order →
  (∀ c, c ∈ order → closed (chan_of h c) = false) →
  unregisterCap < length (unregister h) + length (filter (full h) order) →
  length (unregister h) ≤ unregisterCap →
  ∃ h', sendLoop data order h = Blocked h'.
Proof.
  revert h. induction order as [|c rest IH]; intros h Hnd Hopen Hover Hcap.
  { cbn in Hover. lia. }
  apply NoDup_cons in Hnd as [Hc Hnd].
  assert (Hrest : ∀ c', c' ∈ rest → c ≠ c') by (intros c' Hc' ->; done).
  pose proof (Hopen c ltac:(left)) as Hopen_c.
  cbn [sendLoop]. rewrite filter_cons in Hover.
  destruct (decide (full h c)) as [Hfull|Hfree].
  - rewrite (trySend_full _ _ _ Hopen_c Hfull). cbn [length] in Hover.
    case_decide; [|by eexists].
    apply IH; [done| | |].
    + intros c' Hc'. apply Hopen. by right.
    + rewrite (filter_full_ext h) by done. cbn. rewrite length_app. cbn. lia.
    + cbn. rewrite length_app. cbn. lia.
  - rewrite (trySend_room _ _ _ Hopen_c Hfree).
    assert (Hsame : ∀ c', c ≠ c' →
              chan_of (log_delivered c data
                 (set_chan c {| buf := buf (chan_of h c) ++ [data];
                                closed := false |} h)) c' = chan_of h c').
    { intros c' Hne.
      change (chan_of (log_delivered _ _ ?h0) c') with (chan_of h0 c').
      by rewrite chan_of_set_chan_ne. }
    apply IH; [done| | |done].
    + intros c' Hc'. rewrite Hsame by (by apply Hrest). apply Hopen. by right.
    + rewrite (filter_full_ext h).
      * done.
      * intros c' Hc'. apply Hsame. by apply Hrest.
Qed.

End Hub_fanout.

(** ** The hub: tenant isolation, removal, and back-pressure *)
Section Hub_claims.
Import Hub HubSamples.

(** Equations between closed terms, checked by evaluating both sides. *)
Local Ltac vm_refl :=
  match goal with |- ?l = ?r => vm_cast_no_check (@eq_refl _ r) end.

(** C3: in every execution of the hub from its initial state, whatever the
    order of connections, registrations, removal requests, removals,
    broadcasts and reads, every frame ever put on the [send] channel of a
    client, and every frame waiting in it, carries the account id of that
    client. *)
Theorem tenant_isolation evs c f :
  (c, f) ∈ delivered (hub_of (run NewWSHub evs))
  ∨ f ∈ buf (chan_of (hub_of (run NewWSHub evs)) c) →
  account_id f = accountID c.
Proof.
  destruct (run_Inv NewWSHub evs Inv_NewWSHub) as [_ Hinv].
  intros [Hd|Hb].
  - exact (inv_delivered _ Hinv c f Hd).
  - exact (inv_buf _ Hinv c f Hb).
Qed.

Lemma tenant_isolation_witness :
  (client 1 "a1", frame "a1") ∈ delivered (hub_of (run NewWSHub s5))
  ∧ account_id (frame "a1") = accountID (client 1 "a1").
Proof.
  assert (H : (client 1 "a1", frame "a1") ∈ delivered (hub_of (run NewWSHub s5))).
  { vm_compute. apply list_elem_of_here. }
  split; [exact H|].
  exact (tenant_isolation s5 (client 1 "a1") (frame "a1") (or_introl H)).
Defined.

(** Scenario S5: the broadcast to [a1] puts exactly one frame on the channel
    of the client of [a1] and none on the channel of the client of [a2]. *)
Example broadcast_S5 :
  delivered (hub_of (run NewWSHub s5)) = [(client 1 "a1", frame "a1")]
  ∧ buf (chan_of (hub_of (run NewWSHub s5)) (client 1 "a1")) = [frame "a1"]
  ∧ buf (chan_of (hub_of (run NewWSHub s5)) (client 2 "a2")) = [].
Proof. split; [|split]; vm_compute; reflexivity. Qed.


(** C9: [removeClient] leaves the hub as it is when the client is not in the
    [clients] map; and no execution of the hub from its initial state
    panics, in particular not on a second [close] of a [send] channel: no
    client appears twice in the history of the closes, however often its
    removal is requested. *)
Theorem removeClient_closes_once :
  (∀ h c,
     (∀ cs, clients h !! accountID c = Some cs → c ∉ cs) →
     removeClient (Some c) h = Running h)
  ∧ (∀ evs,
       ¬ panicked (run NewWSHub evs)
       ∧ NoDup (closeLog (hub_of (run NewWSHub evs)))).
Proof.
  split.
  - intros h c Habs. unfold removeClient.
    destruct (clients h !! accountID c) as [cs|] eqn:Hcs; [|done].
    case_decide as Hc; [|done]. by destruct (Habs cs eq_refl).
  - intros evs. destruct (run_Inv NewWSHub evs Inv_NewWSHub) as [Hnp Hinv].
    split; [exact Hnp|]. exact (inv_closeLog_nodup _ Hinv).
Qed.

Lemma removeClient_closes_once_witness :
  let h := hub_of (run NewWSHub (take 5 twiceUnregistered)) in
  closeLog h = [client 1 "a1"]
  ∧ removeClient (Some (client 1 "a1")) h = Running h
  ∧ ¬ panicked (run NewWSHub twiceUnregistered)
  ∧ closeLog (hub_of (run NewWSHub twiceUnregistered)) = [client 1 "a1"].
Proof.
  intros h. destruct removeClient_closes_once as [Hnoop Hrun].
  split; [vm_compute; reflexivity|]. split; [|split].
  - apply Hnoop. intros cs Hcs. vm_compute in Hcs. discriminate.
  - exact (proj1 (Hrun twiceUnregistered)).
  - vm_compute. reflexivity.
Defined.

(** The panic is in the model: a second [close] of the channel of a client
    that is in the map would panic, as would a send on the closed channel. *)
Example removeClient_closed_panics :
  let c := client 1 "a1" in
  let h := set_chan c {| buf := []; closed := true |}
             (addClient (Some c) NewWSHub) in
  panicked (removeClient (Some c) h)
  ∧ panicked (broadcastToAccount (Some (message "a1")) [c] h).
Proof. split; vm_compute; exact I. Qed.

Lemma run_app h evs1 evs2 :
  run h (evs1 ++ evs2)
  = match run h evs1 with
    | Running h' => run h' evs2
    | o => o
    end.
Proof.
  revert h. induction evs1 as [|ev evs1 IH]; intros h; [done|].
  cbn [app run]. destruct (step h ev); [apply IH|done|done].
Qed.

Lemma clientsUpTo_12 : clientsUpTo 12 = clientsUpTo 11 ++ [client 12 "a1"].
Proof. reflexivity. Qed.

Lemma clientsUpTo_12_NoDup : NoDup (clientsUpTo 12).
Proof. apply (bool_decide_unpack _). vm_compute. exact I. Qed.

Lemma clientsUpTo_11_not_12 c : c ∈ clientsUpTo 11 → c ≠ client 12 "a1".
Proof.
  intros Hc ->. pose proof clientsUpTo_12_NoDup as Hnd.
  rewrite clientsUpTo_12 in Hnd. apply NoDup_app in Hnd as (_ & Hdisj & _).
  apply (Hdisj _ Hc). apply list_elem_of_here.
Qed.

Lemma stalledAt_clients_of k h :
  stalledAt k h → clients_of h "a1" = list_to_set (clientsUpTo 12).
Proof.
  intros (Hcl & _). unfold clients_of. by rewrite Hcl, lookup_singleton_eq.
Qed.

Lemma stalledAt_range_order k h :
  stalledAt k h → range_order h (Some (message "a1")) (clientsUpTo 12).
Proof.
  intros Hst. split; [apply clientsUpTo_12_NoDup|].
  change (AccountID (message "a1")) with "a1".
  by rewrite (stalledAt_clients_of k).
Qed.

Lemma stalledAt_size k h :
  stalledAt k h → size (clients_of h (AccountID (message "a1"))) = 12.
Proof.
  intros Hst. change (AccountID (message "a1")) with "a1".
  rewrite (stalledAt_clients_of k) by done.
  rewrite size_list_to_set by apply clientsUpTo_12_NoDup. reflexivity.
Qed.

Lemma stalledAt_open k h c :
  stalledAt k h → c ∈ clientsUpTo 12 → closed (chan_of h c) = false.
Proof.
  intros (_ & _ & _ & H11 & H12). rewrite clientsUpTo_12.
  intros [Hc| ->%list_elem_of_singleton]%elem_of_app.
  - by destruct (H11 c Hc).
  - by rewrite H12.
Qed.

Lemma stalledAt_filter_room k h :
  stalledAt k h → k < sendCap → filter (full h) (clientsUpTo 12) = [].
Proof.
  intros (_ & _ & _ & H11 & H12) Hk.
  assert (Hall : Forall (λ c, ¬ full h c) (clientsUpTo 12)).
  { rewrite clientsUpTo_12. apply Forall_app. split.
    - apply Forall_forall. intros c Hc. destruct (H11 c Hc) as [_ Hlen].
      unfold full. rewrite Hlen. lia.
    - apply Forall_singleton. unfold full. rewrite H12. cbn. unfold sendCap. lia. }
  induction Hall as [|c l Hc _ IH]; [done|].
  by rewrite filter_cons_False.
Qed.

(** One round of [elevenStalled]: a broadcast, of which only the twelfth
    client reads its frame. *)
Lemma stalledAt_round k h :
  stalledAt k h → k < sendCap →
  ∃ h', run h round = Running h' ∧ stalledAt (S k) h'.
Proof.
  intros Hst Hk. pose proof Hst as (Hcl & Hreg & Hun & H11 & H12).
  unfold round. cbn [run step].
  destruct (decide (range_order h (Some (message "a1")) (clientsUpTo 12)))
    as [_|Hno]; [|destruct Hno; by apply (stalledAt_range_order k)].
  unfold broadcastToAccount.
  rewrite (stalledAt_size k) by done.
  destruct (decide (12 = 0)) as [?|_]; [done|].
  change (json_Marshal (message "a1")) with (Some (frame "a1")). cbn match.
  destruct (sendLoop_room (frame "a1") (clientsUpTo 12) h)
    as (h1 & Hrun & Hcl1 & Hreg1 & Hun1 & Hgot & _ & _).
  { apply clientsUpTo_12_NoDup. }
  { intros c Hc. by apply (stalledAt_open k). }
  { rewrite (stalledAt_filter_room k) by done. rewrite Hun. cbn.
    unfold unregisterCap. lia. }
  rewrite Hrun.
  assert (Hroom : ∀ c, c ∈ clientsUpTo 12 → ¬ full h c).
  { intros c Hc Hf.
    assert (Hin : c ∈ filter (full h) (clientsUpTo 12))
      by (by apply list_elem_of_filter).
    rewrite (stalledAt_filter_room k) in Hin by done.
    by apply not_elem_of_nil in Hin. }
  assert (H12in : client 12 "a1" ∈ clientsUpTo 12).
  { rewrite clientsUpTo_12. apply elem_of_app. right. apply list_elem_of_here. }
  rewrite (Hgot _ H12in (Hroom _ H12in)), H12. cbn [buf newChan app closed].
  eexists. split; [reflexivity|].
  split; [cbn; by rewrite Hcl1|]. split; [cbn; by rewrite Hreg1|]. split.
  { cbn. rewrite Hun1, Hun, (stalledAt_filter_room k) by done. reflexivity. }
  split.
  - intros c Hc. rewrite chan_of_set_chan_ne
      by (intros <-; by apply (clientsUpTo_11_not_12 _ Hc)).
    assert (Hc12 : c ∈ clientsUpTo 12)
      by (rewrite clientsUpTo_12; apply elem_of_app; by left).
    rewrite (Hgot _ Hc12 (Hroom _ Hc12)). cbn.
    destruct (H11 c Hc) as [_ Hlen]. rewrite length_app, Hlen. cbn. lia.
  - by rewrite chan_of_set_chan_eq.
Qed.

Lemma stalledAt_rounds n k h :
  stalledAt k h → k + n ≤ sendCap →
  ∃ h', run h (concat (replicate n round)) = Running h' ∧ stalledAt (k + n) h'.
Proof.
  revert k h. induction n as [|n IH]; intros k h Hst Hk.
  { exists h. rewrite Nat.add_0_r. by split. }
  destruct (stalledAt_round k h Hst ltac:(lia)) as (h1 & Hrun1 & Hst1).
  destruct (IH (S k) h1 Hst1 ltac:(lia)) as (h2 & Hrun2 & Hst2).
  exists h2. cbn [replicate concat]. rewrite run_app, Hrun1, Hrun2.
  split; [done|]. by replace (k + S n) with (S k + n) by lia.
Qed.

(** The twelve connections lead to the start of the rounds. *)
Lemma connectedHub_run : run NewWSHub (connectAll 12) = Running connectedHub.
Proof. vm_refl. Qed.

Lemma connectedHub_chans :
  Forall (λ c, chan_of connectedHub c = newChan) (clientsUpTo 12).
Proof. apply (bool_decide_unpack _). vm_cast_no_check I. Qed.

Lemma stalledAt_connected : stalledAt 0 connectedHub.
Proof.
  pose proof connectedHub_chans as Hch. rewrite Forall_forall in Hch.
  split; [reflexivity|]. split; [reflexivity|]. split; [reflexivity|]. split.
  - intros c Hc. rewrite Hch; [done|]. rewrite clientsUpTo_12.
    apply elem_of_app. by left.
  - apply Hch. rewrite clientsUpTo_12. apply elem_of_app. right.
    apply list_elem_of_here.
Qed.

Lemma elevenStalled_reached :
  ∃ h, run NewWSHub elevenStalled = Running h ∧ stalledAt sendCap h.
Proof.
  destruct (stalledAt_rounds 256 0 connectedHub stalledAt_connected)
    as (h & Hrun & Hst); [unfold sendCap; lia|].
  exists h. unfold elevenStalled. fold round.
  rewrite run_app, connectedHub_run. by split.
Qed.

(** In a hub of [stalledAt sendCap], a broadcast to [a1] in the order of
    the handles blocks on the eleventh client. *)
Lemma stalled_broadcast_blocks h :
  stalledAt sendCap h →
  step h (RecvBroadcast (Some (message "a1")) (clientsUpTo 12))
  = Blocked (set_unregister (Some <$> clientsUpTo 10) h).
Proof.
  intros Hst. pose proof Hst as (Hcl & Hreg & Hun & H11 & H12).
  cbn [step].
  destruct (decide (range_order h (Some (message "a1")) (clientsUpTo 12)))
    as [_|Hno]; [|destruct Hno; by apply (stalledAt_range_order sendCap)].
  unfold broadcastToAccount.
  rewrite (stalledAt_size sendCap) by done.
  destruct (decide (12 = 0)) as [?|_]; [done|].
  change (json_Marshal (message "a1")) with (Some (frame "a1")). cbn match.
  assert (Hfull : ∀ q c, c ∈ clientsUpTo 11 →
            closed (chan_of (set_unregister q h) c) = false
            ∧ full (set_unregister q h) c).
  { intros q c Hc. destruct (H11 c Hc) as [Hopen Hlen].
    split; [exact Hopen|]. unfold full.
    change (chan_of (set_unregister q h) c) with (chan_of h c).
    rewrite Hlen. done. }
  assert (Hh : h = set_unregister [] h).
  { destruct h. cbn in Hun. by rewrite Hun. }
  rewrite Hh at 1.
  change (clientsUpTo 12) with
    (client 1 "a1" :: client 2 "a1" :: client 3 "a1" :: client 4 "a1"
     :: client 5 "a1" :: client 6 "a1" :: client 7 "a1" :: client 8 "a1"
     :: client 9 "a1" :: client 10 "a1" :: client 11 "a1" :: [client 12 "a1"]).
  assert (Hset : ∀ q q', set_unregister q' (set_unregister q h)
                         = set_unregister q' h) by done.
  assert (Hunq : ∀ q, unregister (set_unregister q h) = q) by done.
  do 10 (cbn [sendLoop];
         match goal with
         | |- context [trySend ?d ?c (set_unregister ?q h)] =>
             destruct (Hfull q c ltac:(apply (bool_decide_unpack _);
                                       vm_compute; exact I)) as [Ho Hf];
             rewrite (trySend_full d c _ Ho Hf), Hunq, Hset; clear Ho Hf;
             cbn [length app];
             destruct (decide _) as [_|Hn]; [|unfold unregisterCap in Hn; lia]
         end).
  cbn [sendLoop].
  match goal with
  | |- context [trySend ?d ?c (set_unregister ?q h)] =>
      destruct (Hfull q c ltac:(apply (bool_decide_unpack _);
                                vm_compute; exact I)) as [Ho Hf];
      rewrite (trySend_full d c _ Ho Hf), Hunq; clear Ho Hf
  end.
  cbn [length app].
  destruct (decide _) as [Hn|_]; [unfold unregisterCap in Hn; lia|].
  reflexivity.
Qed.

(** C5 fails on the code: with eleven clients of one account whose [send]
    channels are full, the broadcast puts ten of them on [unregister], which
    is then full, and blocks for ever on the eleventh, because the hub
    goroutine is the only receiver of [unregister].  Nothing else changes:
    no client is removed, and the twelfth client, whose channel is empty,
    does not get the frame. *)
Theorem broadcast_blocks_on_eleven_full_clients :
  ∃ h,
    run NewWSHub elevenStalled = Running h
    ∧ clients h = {[ "a1" := list_to_set (clientsUpTo 12) ]}
    ∧ (∀ c, c ∈ clientsUpTo 11 → full h c)
    ∧ buf (chan_of h (client 12 "a1")) = []
    ∧ unregister h = []
    ∧ range_order h (Some (message "a1")) (clientsUpTo 12)
    ∧ step h (RecvBroadcast (Some (message "a1")) (clientsUpTo 12))
      = Blocked (set_unregister (Some <$> clientsUpTo 10) h).
Proof.
  destruct elevenStalled_reached as (h & Hrun & Hst).
  exists h. pose proof Hst as (Hcl & Hreg & Hun & H11 & H12).
  split; [exact Hrun|]. split; [exact Hcl|]. split.
  { intros c Hc. destruct (H11 c Hc) as [_ Hlen]. unfold full.
    by rewrite Hlen. }
  split; [by rewrite H12|]. split; [exact Hun|].
  split; [by apply (stalledAt_range_order sendCap)|].
  by apply stalled_broadcast_blocks.
Qed.

End Hub_claims.

(** ** The settings handler: [UpdateSetting] *)
Section Settings_handler.
Import Settings SettingsHandler.
Local Open Scope Z_scope.
Context {S : Type} `{SettingsStore S}.

(** The version protocol of [PUT] as far as the handler's own checks go,
    for an admin with a well-formed body, on every store: when the key
    exists and the request has no version (version 0), the response is 400
    and the store is not written; when the key exists and the version of
    the request is not the version of the row the handler has read, the
    response is 409 with that version as [current_version] and the store is
    not written; when no row exists, the setting handed to [UpsertSetting]
    has the key, scope, account, value, type, category, description and
    author of the request, is secret only when the request says so, and has
    no version, whatever the version of the request; the response is 200
    with the version the store gave to the setting, or 500 when the store
    refuses. *)
Theorem UpdateSetting_versioning (st : S) (r : Request) (req : updateRequest)
    (key : string) :
  isAdmin r = true →
  Body r = Some req →
  let res := GetSetting st key (requestScope req) (requestAccount req) in
  (∀ existing,
     found existing res →
     (reqVersion req = 0 →
      SettingsHandler.UpdateSetting (Some st) r key
      = (writeJSON 400 (ErrorJSON "version required"), Some st))
     ∧ (reqVersion req ≠ 0 → reqVersion req ≠ Version existing →
        SettingsHandler.UpdateSetting (Some st) r key
        = (writeJSON 409 (ConflictJSON (Version existing)), Some st)))
  ∧ (found_none res →
     ∀ st' created e,
       UpsertSetting st {|
         ID := 0; Key := key;
         Scope := if decide (reqScope req = EmptyString) then "system"
                  else reqScope req;
         AccountID := reqAccountID req; Value := reqValue req;
         DataType := reqDataType req; Category := reqCategory req;
         Description := reqDescription req;
         IsSecret := match reqIsSecret req with Some b => b | None => false end;
         Version := 0; UpdatedBy := reqUpdatedBy req;
         UpdatedAt := 0; CreatedAt := 0 |} = (st', created, e) →
       SettingsHandler.UpdateSetting (Some st) r key
       = (match e with
          | None => writeJSON 200 (SuccessJSON (Version created))
          | Some e => writeJSON 500 (ErrorJSON (Error_ e))
          end, Some st')).
Proof.
  intros Hadmin Hbody res. unfold SettingsHandler.UpdateSetting.
  rewrite Hadmin, Hbody. cbn [negb]. fold res. split.
  - intros existing Hfound. split.
    + intros Hv. destruct Hfound as [-> | ->]; by rewrite Hv.
    + intros Hv0 Hne.
      apply Z.eqb_neq in Hv0, Hne.
      destruct Hfound as [-> | ->]; by rewrite Hv0, Hne.
  - intros Hnone st' created e Hup.
    change (UpsertSetting st (newSetting key req) = (st', created, e)) in Hup.
    destruct Hnone as [-> | ->]; rewrite Hup; by destruct e.
Qed.

End Settings_handler.

Section Settings_examples.
Import Settings SettingsHandler SettingsRace.
Local Open Scope Z_scope.

Lemma UpdateSetting_versioning_witness :
  SettingsHandler.UpdateSetting (Some storeAt3) (putRequest 0) "k"
  = (writeJSON 400 (ErrorJSON "version required"), Some storeAt3)
  ∧ SettingsHandler.UpdateSetting (Some storeAt3) (putRequest 2) "k"
    = (writeJSON 409 (ConflictJSON 3), Some storeAt3)
  ∧ SettingsHandler.UpdateSetting (Some emptyStore) (putRequest 7) "k"
    = (writeJSON 200 (SuccessJSON 1),
       Some {[ ("k", "system", EmptyString) := {|
                 ID := 0; Key := "k"; Scope := "system"; AccountID := None;
                 Value := AnyNumber 30; DataType := EmptyString;
                 Category := EmptyString; Description := None;
                 IsSecret := false; Version := 1; UpdatedBy := None;
                 UpdatedAt := 0; CreatedAt := 0 |} ]}).
Proof.
  assert (Hget : found settingAt3 (memGet storeAt3 "k" "system" EmptyString))
    by (left; vm_compute; reflexivity).
  assert (Hnone : found_none (memGet emptyStore "k" "system" EmptyString))
    by (right; reflexivity).
  destruct (UpdateSetting_versioning storeAt3 (putRequest 0) _ "k"
              eq_refl eq_refl) as [H0 _].
  destruct (UpdateSetting_versioning storeAt3 (putRequest 2) _ "k"
              eq_refl eq_refl) as [H2 _].
  destruct (UpdateSetting_versioning emptyStore (putRequest 7) _ "k"
              eq_refl eq_refl) as [_ H7].
  split; [|split].
  - exact (proj1 (H0 settingAt3 Hget) eq_refl).
  - apply (proj2 (H2 settingAt3 Hget)); discriminate.
  - exact (H7 Hnone _ _ None eq_refl).
Defined.

(** Scenario S4, one request after the other: both carry version 3; the
    first is accepted with the new version 4, the second is refused with
    409 and the current version 4. *)
Example UpdateSetting_S4 :
  let first := SettingsHandler.UpdateSetting (Some storeAt3) (putRequest 3) "k" in
  let second := SettingsHandler.UpdateSetting first.2 (putRequest 3) "k" in
  first.1 = writeJSON 200 (SuccessJSON 4)
  ∧ second.1 = writeJSON 409 (ConflictJSON 4).
Proof. split; vm_compute; reflexivity. Qed.

(** C4: the case in which the code does not do what the claim says.  Two
    clients have read [k] at version 3 and both send version 3 (scenario
    S4); the update of the first reaches the store after the handler has
    read the row for the second and before it writes.  The request of the
    second carries a version, the handler's own comparison passes, the store
    refuses the conditional update, and the response is 409 with
    [current_version] 3, the version the request itself carries, while the
    store holds [k] at version 4 with the value of the first client.  Taken
    after the update of the first has reached the store, the same request is
    answered 409 with [current_version] 4. *)
Theorem UpdateSetting_conflict_stale_version :
  let res := SettingsHandler.UpdateSetting (Some racingAt3) (putRequest 3) "k" in
  GetSetting racingAt3 "k" "system" EmptyString = (Some settingAt3, None)
  ∧ Version settingAt3 = 3
  ∧ res = (writeJSON 409 (ConflictJSON 3), Some afterFirst)
  ∧ GetSetting afterFirst "k" "system" EmptyString
    = (Some (with_version 4 firstUpdate), None)
  ∧ SettingsHandler.UpdateSetting (Some afterFirst) (putRequest 3) "k"
    = (writeJSON 409 (ConflictJSON 4), Some afterFirst).
Proof. repeat split; vm_compute; reflexivity. Qed.

End Settings_examples.

(** ** Queries: [QueryMetrics] *)
Section Query.
Import GoTime Store StoreQuery Samples.
Local Open Scope Z_scope.

#[local] Instance ts_le_total : Total ts_le.
Proof. intros a b. unfold ts_le. lia. Qed.

#[local] Instance ts_le_trans : Transitive ts_le.
Proof. intros a b c. unfold ts_le. lia. Qed.

Lemma StronglySorted_take {A} (R : relation A) n (l : list A) :
  StronglySorted R l → StronglySorted R (take n l).
Proof.
  intros H. rewrite <- (take_drop n l) in H.
  by apply StronglySorted_app_1_l in H.
Qed.

Lemma StronglySorted_drop {A} (R : relation A) n (l : list A) :
  StronglySorted R l → StronglySorted R (drop n l).
Proof.
  intros H. rewrite <- (take_drop n l) in H.
  by apply StronglySorted_app_1_r in H.
Qed.

Lemma paged_sublist limit offset rows page :
  paged limit offset rows = Some page →
  (∀ r, r ∈ page → r ∈ rows)
  ∧ (StronglySorted ts_le rows → StronglySorted ts_le page)
  ∧ (0 < limit → (length page ≤ Z.to_nat limit)%nat).
Proof.
  unfold paged. destruct (Z.ltb_spec 0 limit) as [Hl|Hl].
  - intros [= <-]. destruct (Z.ltb_spec 0 offset); repeat split.
    + intros r Hr. by apply (subseteq_drop (Z.to_nat offset)), (subseteq_take (Z.to_nat limit)).
    + intros Hs. by apply StronglySorted_take, StronglySorted_drop.
    + intros _. rewrite length_take. lia.
    + intros r Hr. by apply (subseteq_take (Z.to_nat limit)).
    + intros Hs. by apply StronglySorted_take.
    + intros _. rewrite length_take. lia.
  - destruct (Z.ltb_spec 0 offset); [done|]. intros [= <-].
    repeat split; [done|done|lia].
Qed.

Lemma QueryContext_ok sel db db' rows :
  QueryContext sel db = (db', inl rows) →
  tables db' = tables db ∧ sel (tables db) = Some rows.
Proof.
  unfold QueryContext.
  destruct (sel (tables db)) as [rs|];
    destruct (faults db) as [|[] fs]; intros [= <- <-]; done.
Qed.

Lemma QueryMetrics_ok clock q db db' recs :
  QueryMetrics clock q db = (db', inl recs) →
  ∃ table rows,
    metricsTableInfo (queryGranularity q) = inl table
    ∧ tables db' = tables db
    ∧ recs = scan <$> rows
    ∧ paged (queryLimit q) (qOffset q)
        (ordered (filter (λ r, matches clock q r = true)
                         (rows_of table (tables db)))) = Some rows.
Proof.
  unfold QueryMetrics.
  destruct (metricsTableInfo (queryGranularity q)) as [table|e]; [|done].
  destruct (QueryContext _ db) as [db1 [rows|e]] eqn:Hq; [|done].
  intros [= <- <-]. apply QueryContext_ok in Hq as [Htb Hsel].
  by exists table, rows.
Qed.

(** X1: the records of a successful [QueryMetrics] come in ascending order
    of time, all belong to the normalised account of the query (the default
    account when the query names none) and to its node when it names one,
    and lie in the half-open window [from, to) of the query with its
    defaults applied; a positive limit bounds their number; the tables are
    not changed. *)
Theorem QueryMetrics_sound clock q db db' recs :
  QueryMetrics clock q db = (db', inl recs) →
  tables db' = tables db
  ∧ StronglySorted (λ a b, Timestamp a ≤ Timestamp b) recs
  ∧ (0 < queryLimit q → (length recs ≤ Z.to_nat (queryLimit q))%nat)
  ∧ ∀ r, r ∈ recs →
      AccountID r = normalizeAccount (qAccountID q)
      ∧ (qNodeID q ≠ EmptyString → NodeID r = qNodeID q)
      ∧ (IsZero (queryFrom clock q) = false → queryFrom clock q ≤ Timestamp r)
      ∧ (IsZero (queryTo clock q) = false → Timestamp r < queryTo clock q).
Proof.
  intros Hq. apply QueryMetrics_ok in Hq as (table & rows & _ & Htb & -> & Hp).
  apply paged_sublist in Hp as (Hsub & Hsorted & Hlen).
  split; [exact Htb|]. split; [|split].
  - apply (StronglySorted_fmap scan ts_le); [done|].
    apply Hsorted. apply StronglySorted_merge_sort; apply _.
  - intros Hl. rewrite length_fmap. by apply Hlen.
  - intros r Hr. apply list_elem_of_fmap in Hr as (row & -> & Hrow).
    apply Hsub in Hrow. unfold ordered in Hrow.
    rewrite merge_sort_Permutation in Hrow.
    apply list_elem_of_filter in Hrow as [Hm _]. unfold matches in Hm.
    repeat (apply andb_true_iff in Hm as [Hm ?]).
    apply bool_decide_eq_true in Hm. cbn. split; [done|].
    split; [|split].
    + intros Hn. destruct (orb_prop _ _ H1) as [He|He];
        apply bool_decide_eq_true in He; done.
    + intros Hz. rewrite Hz in H0. by apply Z.leb_le in H0.
    + intros Hz. rewrite Hz in H. by apply Z.ltb_lt in H.
Qed.


Lemma query_a1_answer :
  QueryMetrics 0 query_a1 s1DB
  = (s1DB, inl (scan <$> node_metrics_raw s1Tables)).
Proof. vm_compute. reflexivity. Qed.

Lemma QueryMetrics_sound_witness :
  StronglySorted (λ a b, Timestamp a ≤ Timestamp b)
    (scan <$> node_metrics_raw s1Tables)
  ∧ ∀ r, r ∈ scan <$> node_metrics_raw s1Tables →
         AccountID r = "a1" ∧ t_10_00 ≤ Timestamp r < t_11_00.
Proof.
  destruct (QueryMetrics_sound 0 query_a1 s1DB _ _ query_a1_answer)
    as (_ & Hs & _ & Hr).
  split; [exact Hs|]. intros r Hin.
  destruct (Hr r Hin) as (Ha & _ & Hf & Ht).
  split; [exact Ha|]. split; [exact (Hf eq_refl)|exact (Ht eq_refl)].
Defined.

(** Scenario S1: the two raw rows of 10:00 and 10:30 are returned for the
    window from 10:00 to 11:00, and their totals add up to 12. *)
Example QueryMetrics_S1 :
  ∃ recs,
    (QueryMetrics 0 query_a1 s1DB).2 = inl recs
    ∧ RequestsTotal <$> recs = [5; 7].
Proof. eexists. split; [vm_compute; reflexivity|reflexivity]. Qed.

Lemma QueryMetricsBy_ordered clock q db :
  QueryMetricsBy ordered clock q db = QueryMetrics clock q db.
Proof. reflexivity. Qed.

Lemma ordered_time_order : time_order ordered.
Proof.
  intros rows. split; [apply merge_sort_Permutation|].
  apply StronglySorted_merge_sort; apply _.
Qed.

Lemma QueryMetricsBy_ok order clock q db db' recs :
  QueryMetricsBy order clock q db = (db', inl recs) →
  ∃ table rows,
    metricsTableInfo (queryGranularity q) = inl table
    ∧ tables db' = tables db
    ∧ recs = scan <$> rows
    ∧ paged (queryLimit q) (qOffset q)
        (order (filter (λ r, matches clock q r = true)
                       (rows_of table (tables db)))) = Some rows.
Proof.
  unfold QueryMetricsBy.
  destruct (metricsTableInfo (queryGranularity q)) as [table|e]; [|done].
  destruct (QueryContext _ db) as [db1 [rows|e]] eqn:Hq; [|done].
  intros [= <- <-]. apply QueryContext_ok in Hq as [Htb Hsel].
  by exists table, rows.
Qed.

Lemma NoDup_fmap_elem_inj {A B} (f : A → B) (l : list A) x y :
  NoDup (f <$> l) → x ∈ l → y ∈ l → f x = f y → x = y.
Proof.
  induction l as [|a l IH]; [by intros _ ?%elem_of_nil|].
  rewrite fmap_cons. intros [Ha Hnd]%NoDup_cons.
  intros [->|Hx]%elem_of_cons [->|Hy]%elem_of_cons Hf; [done| | |by apply IH].
  - destruct Ha. rewrite Hf. by apply list_elem_of_fmap_2.
  - destruct Ha. rewrite <- Hf. by apply list_elem_of_fmap_2.
Qed.

(** X2: [LIMIT] and [OFFSET] cut a page out of an answer of the same query
    without them.  [ORDER BY] leaves the order of rows of equal time to the
    engine, which may arrange them differently for the two statements; so,
    for a limit that is not negative, the page is cut from some arrangement
    by ascending time of the records of the unpaged answer: that
    arrangement with the first [Offset] records dropped (none for an offset
    that is not positive), cut to [Limit] records.  When no two records of
    the unpaged answer have the same time, the page is cut from the unpaged
    answer itself.  A limit of 0 means no cut, except that with a positive
    offset it means 500. *)
Theorem QueryMetrics_page (orderP orderA : list Row → list Row)
    clock q db db1 db2 page all :
  time_order orderP → time_order orderA →
  0 ≤ qLimit q →
  QueryMetricsBy orderP clock q db = (db1, inl page) →
  QueryMetricsBy orderA clock (unpaged q) db = (db2, inl all) →
  ∃ all',
    all' ≡ₚ all
    ∧ StronglySorted (λ a b, Timestamp a ≤ Timestamp b) all'
    ∧ page
      = (if decide (0 < queryLimit q) then take (Z.to_nat (queryLimit q))
         else id)
          (drop (Z.to_nat (qOffset q)) all')
    ∧ (NoDup (Timestamp <$> all) → all' = all)
    ∧ queryLimit q
      = (if decide (qLimit q = 0 ∧ 0 < qOffset q) then 500 else qLimit q).
Proof.
  intros HP HA Hl Hq Ha.
  apply QueryMetricsBy_ok in Hq as (table & rows & Ht & _ & -> & Hp).
  apply QueryMetricsBy_ok in Ha as (table' & rows' & Ht' & _ & -> & Hp').
  change (queryGranularity (unpaged q)) with (queryGranularity q) in Ht'.
  assert (table' = table) as -> by congruence.
  assert (Hm : ∀ r, matches clock (unpaged q) r = matches clock q r) by done.
  erewrite (list_filter_iff _ (λ r, matches clock q r = true)) in Hp'
    by (intros r; by rewrite Hm).
  unfold paged in Hp'. cbn in Hp'. injection Hp' as <-.
  set (F := filter (λ r, matches clock q r = true)
                   (rows_of table (tables db))) in *.
  destruct (HP F) as [HPp HPs]. destruct (HA F) as [HAp HAs].
  assert (Hql : queryLimit q
                = if decide (qLimit q = 0 ∧ 0 < qOffset q) then 500
                  else qLimit q).
  { unfold queryLimit.
    destruct (Z.ltb_spec 0 (qOffset q)), (Z.eqb_spec (qLimit q) 0);
      cbn; case_decide; lia || done. }
  exists (scan <$> orderP F).
  split; [by rewrite HPp, HAp|].
  split; [by apply (StronglySorted_fmap scan ts_le)|].
  split; [|split; [|exact Hql]].
  - unfold paged in Hp.
    destruct (Z.ltb_spec 0 (queryLimit q)) as [Hpos|Hnpos].
    + injection Hp as <-. rewrite decide_True by done.
      destruct (Z.ltb_spec 0 (qOffset q)) as [Ho|Ho].
      * by rewrite fmap_take, fmap_drop.
      * replace (Z.to_nat (qOffset q)) with 0%nat by lia.
        by rewrite fmap_take.
    + rewrite decide_False by lia.
      destruct (Z.ltb_spec 0 (qOffset q)) as [Ho|Ho].
      * rewrite Hql in Hnpos. case_decide; lia.
      * injection Hp as <-.
        by replace (Z.to_nat (qOffset q)) with 0%nat by lia.
  - intros Hnd. f_equal.
    assert (Hnd' : NoDup (ts <$> orderA F)).
    { rewrite <- list_fmap_compose in Hnd. exact Hnd. }
    apply (StronglySorted_unique_strong ts_le); [|done|done|by rewrite HPp].
    intros x1 x2 H1 H2 H12 H21.
    apply (NoDup_fmap_elem_inj ts (orderA F)); [done| |done|].
    + by rewrite HAp, <- HPp.
    + unfold ts_le in *. lia.
Qed.

Lemma QueryMetrics_page_witness :
  (QueryMetrics 0 query_a1_second s1DB).2
  = inl (take 1 (drop 1 (scan <$> node_metrics_raw s1Tables))).
Proof.
  assert (Hq : QueryMetricsBy ordered 0 query_a1_second s1DB
               = (s1DB, inl (scan <$> [ {| account_id := "a1"; node_id := "n1";
                                           ts := t_10_30;
                                           cnt := counters_of_total 7 |} ])))
    by (vm_compute; reflexivity).
  destruct (QueryMetrics_page ordered ordered 0 query_a1_second s1DB _ _ _ _
              ordered_time_order ordered_time_order
              ltac:(cbn; lia) Hq query_a1_answer)
    as (all' & _ & _ & Hpage & Hsame & _).
  assert (Hnd : NoDup (Timestamp <$> (scan <$> node_metrics_raw s1Tables))).
  { cbn. apply NoDup_cons. split; [|apply NoDup_singleton].
    intros Heq%list_elem_of_singleton. vm_compute in Heq. discriminate Heq. }
  rewrite (Hsame Hnd) in Hpage.
  change (QueryMetrics 0 query_a1_second s1DB)
    with (QueryMetricsBy ordered 0 query_a1_second s1DB).
  rewrite Hq. cbn [snd]. by rewrite Hpage.
Defined.

(** X3: a successful [InsertMetrics] adds the record it stored to the answer
    of every raw query without [LIMIT] whose filters the record passes, and
    changes the answer of no other raw query: the answer after the insert
    is, up to the order of records of equal time, the answer before with
    the stored record added when it matches. *)
Theorem InsertMetrics_then_query clock rec db db1 clock' q db2 db3 before after :
  InsertMetrics clock rec db = (db1, None) →
  queryGranularity q = MetricsGranularityRaw →
  qLimit q ≤ 0 → qOffset q ≤ 0 →
  QueryMetrics clock' q db = (db2, inl before) →
  QueryMetrics clock' q db1 = (db3, inl after) →
  after ≡ₚ before
           ++ (if matches clock' q (rawRow clock rec)
               then [scan (rawRow clock rec)] else []).
Proof.
  intros Hins Hg Hl Ho Hb Ha.
  apply InsertMetrics_ok in Hins.
  apply QueryMetrics_ok in Hb as (table & rows & Ht & _ & -> & Hp).
  apply QueryMetrics_ok in Ha as (table' & rows' & Ht' & _ & -> & Hp').
  rewrite Hg in Ht, Ht'. cbn in Ht, Ht'.
  injection Ht as <-. injection Ht' as <-. cbn [rows_of] in Hp, Hp'.
  assert (Hnp : ∀ l, paged (queryLimit q) (qOffset q) l = Some l).
  { intros l. unfold paged, queryLimit.
    destruct (Z.ltb_spec 0 (qOffset q)); [lia|]. cbn.
    destruct (Z.ltb_spec 0 (qLimit q)); [lia|done]. }
  rewrite Hnp in Hp, Hp'. injection Hp as <-. injection Hp' as <-.
  rewrite Hins, filter_app. unfold ordered.
  rewrite !merge_sort_Permutation, fmap_app.
  apply Permutation_app_head. rewrite filter_cons, filter_nil.
  destruct (matches clock' q (rawRow clock rec)); by case_decide.
Qed.

Lemma InsertMetrics_then_query_witness :
  ∃ after,
    (QueryMetrics 0 query_a1
       (InsertMetrics 0 rec_5_3_4 s1DB).1).2 = inl after
    ∧ after ≡ₚ (scan <$> node_metrics_raw s1Tables)
               ++ [scan (rawRow 0 rec_5_3_4)].
Proof.
  eexists. split; [vm_compute; reflexivity|].
  refine (InsertMetrics_then_query 0 rec_5_3_4 s1DB _ 0 query_a1 _ _ _ _
            eq_refl eq_refl _ _ query_a1_answer _);
    [cbn; lia|cbn; lia|vm_compute; reflexivity].
Defined.

End Query.

(** ** Roll-up: what it leaves alone and what it conserves *)
Section Rollup_more.
Import GoTime Store StoreSums Samples.
Local Open Scope Z_scope.

Lemma agg_table_set_ne dst t m tb :
  t ≠ dst → agg_table t (set_agg_table dst m tb) = agg_table t tb.
Proof. destruct dst, t; done. Qed.

Lemma raw_set_agg_table dst m tb :
  node_metrics_raw (set_agg_table dst m tb) = node_metrics_raw tb.
Proof. by destruct dst. Qed.

(** X4: [AggregateMetrics] writes its destination table only: the raw table
    and the other aggregated tables are as before, whatever the outcome; no
    row of the destination table is removed; and with an error (a target
    that is no roll-up, such as the raw granularity, or a failed statement)
    no table changes at all. *)
Theorem AggregateMetrics_frame clock accountID target from to db db1 err :
  AggregateMetrics clock accountID target from to db = (db1, err) →
  node_metrics_raw (tables db1) = node_metrics_raw (tables db)
  ∧ (err ≠ None → tables db1 = tables db)
  ∧ (∀ t, (∀ src e, aggregationPlan target ≠ inl (src, t, e)) →
          agg_table t (tables db1) = agg_table t (tables db))
  ∧ (∀ t k, is_Some (agg_table t (tables db) !! k) →
            is_Some (agg_table t (tables db1) !! k)).
Proof.
  unfold AggregateMetrics.
  destruct (aggregationPlan target) as [[[src dst] e]|e0] eqn:Hplan.
  2:{ intros [= <- <-]. repeat split; try done. }
  set (stmt := aggregate_stmt _ _ _ _ _ _ _). intros Hrun.
  destruct err as [e1|].
  { apply ExecContext_err in Hrun as [-> _]. repeat split; try done. }
  apply ExecContext_ok in Hrun as [-> _]. subst stmt. unfold aggregate_stmt.
  split; [apply raw_set_agg_table|]. split; [done|]. split.
  - intros t Hne. apply agg_table_set_ne.
    intros ->. by destruct (Hne src e).
  - intros t k Hk. destruct (decide (t = dst)) as [->|Hne].
    + rewrite agg_table_set, upsert_empty. apply lookup_union_is_Some. by right.
    + by rewrite agg_table_set_ne.
Qed.


Lemma counters_add_comm a b : counters_add a b = counters_add b a.
Proof. unfold counters_add. f_equal; lia. Qed.

Lemma counters_add_assoc a b c :
  counters_add a (counters_add b c) = counters_add (counters_add a b) c.
Proof. unfold counters_add. cbn. f_equal; lia. Qed.

Lemma counters_add_zero a : counters_add a counters_zero = a.
Proof. destruct a. unfold counters_add. cbn. f_equal; lia. Qed.

Lemma msum_perm l l' : l ≡ₚ l' → msum l = msum l'.
Proof.
  unfold msum.
  induction 1 as [|x l l' _ IH|x y l|l l' l'' _ IH1 _ IH2]; cbn [foldr].
  - done.
  - by rewrite IH.
  - by rewrite !counters_add_assoc, (counters_add_comm y x).
  - by rewrite IH1.
Qed.

(** The sums of the groups add up to the sum of the rows, however the rows
    are grouped. *)
Lemma group_sum_total g e rows :
  msum ((λ kv, kv.2.2) <$> map_to_list (group_sum g e rows))
  = sum_counters rows.
Proof.
  induction rows as [|r rows IH].
  { cbn. by rewrite map_to_list_empty. }
  unfold group_sum, sum_counters. cbn [foldr]. fold (group_sum g e rows).
  fold (sum_counters rows). rewrite <- IH.
  set (G := group_sum g e rows). set (k := groupKey g e r).
  destruct (G !! k) as [[b c]|] eqn:Hk; cbn [fmap option_fmap option_map default snd].
  - rewrite <- (insert_delete_eq G k).
    rewrite (msum_perm _ _ (fmap_Permutation _ _ _
               (map_to_list_insert _ _ _ (lookup_delete_eq G k)))).
    rewrite <- (msum_perm _ (_ <$> map_to_list G) (fmap_Permutation _ _ _
               (map_to_list_delete _ _ _ Hk))).
    cbn. by rewrite counters_add_assoc.
  - rewrite (msum_perm _ _ (fmap_Permutation _ _ _
               (map_to_list_insert _ _ _ Hk))).
    cbn. by rewrite counters_add_zero.
Qed.

(** X5: a successful roll-up conserves the counters when the engine groups
    by the bucket (as it must for the roll-up of the raw table): the rows of
    the destination table that belong to the buckets of the window add up,
    column by column, to the source rows of the window. *)
Theorem AggregateMetrics_conserves
    clock accountID target from to db db1 src dst e :
  IsZero to = false →
  aggregationPlan target = inl (src, dst, e) →
  groupBy (engine db) src = GroupByBucket →
  AggregateMetrics clock accountID target from to db = (db1, None) →
  let from' := windowFrom target from to in
  msum (map_to_list
          (touched src e from' to accountID (tables db)
                   (agg_table dst (tables db1)))).*2
  = sum_counters (window_all src from' to accountID (tables db)).
Proof.
  intros Hto Hplan Hg. unfold AggregateMetrics, windowTo.
  rewrite Hto, Hplan. intros Hrun. set (from' := windowFrom target from to) in *.
  apply ExecContext_ok in Hrun as [Htb _]. rewrite Htb.
  unfold aggregate_stmt. rewrite agg_table_set, Hg.
  set (W := window_all src from' to accountID (tables db)).
  change (filter (λ r, in_window from' to accountID r = true)
                 (rows_of src (tables db))) with W.
  assert (Heq : touched src e from' to accountID (tables db)
                  (upsert (selected GroupByBucket e W)
                          (agg_table dst (tables db)))
                = snd <$> group_sum GroupByBucket e W).
  { apply map_eq. intros k. unfold touched.
    destruct (selected_by_bucket_lookup e W k) as [Hnd Hsel].
    rewrite map_lookup_filter, upsert_lookup, Hsel by done.
    rewrite lookup_fmap, group_sum_lookup.
    change (groupKey GroupByBucket e) with (bucketKey e).
    unfold window_rows.
    change (filter (λ r, in_window from' to accountID r = true)
                   (rows_of src (tables db))) with W. cbn [fst].
    destruct (filter (λ r, bucketKey e r = k) W) as [|r rs] eqn:Hf; cbn.
    - destruct (agg_table dst (tables db) !! k); cbn; [|done].
      by rewrite option_guard_False by auto.
    - by rewrite option_guard_True. }
  rewrite Heq, <- (group_sum_total GroupByBucket e W).
  rewrite map_to_list_fmap, <- list_fmap_compose. done.
Qed.

Lemma AggregateMetrics_conserves_witness :
  msum (map_to_list
          (touched TRaw HourOf
             (windowFrom MetricsGranularityHourly t_10_00 t_11_00) t_11_00
             EmptyString (tables s1DB)
             (agg_table AHourly
                (tables (AggregateMetrics 0 EmptyString
                           MetricsGranularityHourly t_10_00 t_11_00
                           s1DB).1)))).*2
  = sum_counters
      (window_all TRaw (windowFrom MetricsGranularityHourly t_10_00 t_11_00)
                  t_11_00 EmptyString (tables s1DB)).
Proof.
  exact (AggregateMetrics_conserves 0 EmptyString MetricsGranularityHourly
           t_10_00 t_11_00 s1DB _ TRaw AHourly HourOf
           eq_refl eq_refl eq_refl eq_refl).
Defined.

Lemma AggregateMetrics_frame_witness :
  node_metrics_raw
    (tables (AggregateMetrics 0 EmptyString MetricsGranularityHourly
                              t_10_00 t_11_00 s1DB).1)
  = node_metrics_raw (tables s1DB).
Proof.
  exact (proj1 (AggregateMetrics_frame 0 EmptyString MetricsGranularityHourly
                  t_10_00 t_11_00 s1DB _ None eq_refl)).
Defined.

End Rollup_more.

(** ** Cleanup: what it keeps *)
Section Retention_more.
Import GoTime Store Samples.
Local Open Scope Z_scope.

(** Whatever the driver answers, a statement either ran or left the tables
    alone. *)
Lemma ExecContext_cases stmt db db' err :
  ExecContext stmt db = (db', err) →
  tables db' = tables db ∨ tables db' = stmt (tables db).
Proof.
  destruct err as [e|]; intros H.
  - left. unfold ExecContext in H.
    destruct (faults db) as [|[] fs]; by inversion H.
  - right. by apply ExecContext_ok in H as [-> _].
Qed.

(** The tables a cleanup can end with: those after zero, one, two or three
    of its deletes. *)
Lemma CleanupMetrics_prefix clock accountID now db db' err :
  CleanupMetrics clock accountID now db = (db', err) →
  let n := cleanupNow clock now in
  let a := cleanupAccount accountID in
  let raw' := delete_stmt TRaw (Add n (- retentionRaw)) a (tables db) in
  let hourly' := delete_stmt THourly (Add n (- retentionHourly)) a raw' in
  let daily' := delete_stmt TDaily (Add n (- retentionDaily)) a hourly' in
  tables db' ∈ [tables db; raw'; hourly'; daily'].
Proof.
  unfold CleanupMetrics, cuts. cbn [cleanupLoop].
  set (n := cleanupNow clock now). set (a := cleanupAccount accountID).
  destruct (ExecContext (delete_stmt TRaw _ a) db) as [d1 [e1|]] eqn:H1.
  { intros [= <- <-]. apply ExecContext_err in H1 as [-> _]. set_solver. }
  apply ExecContext_ok in H1 as [H1 _].
  destruct (ExecContext (delete_stmt THourly _ a) d1) as [d2 [e2|]] eqn:H2.
  { intros [= <- <-]. apply ExecContext_err in H2 as [-> _].
    rewrite H1. set_solver. }
  apply ExecContext_ok in H2 as [H2 _].
  destruct (ExecContext (delete_stmt TDaily _ a) d2) as [d3 [e3|]] eqn:H3.
  { intros [= <- <-]. apply ExecContext_err in H3 as [-> _].
    rewrite H2, H1. set_solver. }
  apply ExecContext_ok in H3 as [H3 _].
  intros [= <- <-]. rewrite H3, H2, H1. set_solver.
Qed.

(** X6: [CleanupMetrics] never deletes too much, whether it succeeds or
    stops at an error: a row of another account, or a row that is not older
    than the retention of its table, is still there afterwards; the monthly
    table is never touched; and no table gains a row (the raw table keeps
    the order of its rows). *)
Theorem CleanupMetrics_keeps clock accountID now db db' err :
  CleanupMetrics clock accountID now db = (db', err) →
  let now' := cleanupNow clock now in
  (∀ r, r ∈ node_metrics_raw (tables db) →
        ¬ targeted accountID (account_id r) ∨ now' - 7 * 24 * Hour ≤ ts r →
        r ∈ node_metrics_raw (tables db'))
  ∧ (∀ k c, node_metrics_hourly (tables db) !! k = Some c →
            ¬ targeted accountID k.1.1 ∨ now' - 30 * 24 * Hour ≤ k.2 →
            node_metrics_hourly (tables db') !! k = Some c)
  ∧ (∀ k c, node_metrics_daily (tables db) !! k = Some c →
            ¬ targeted accountID k.1.1 ∨ now' - 365 * 24 * Hour ≤ k.2 →
            node_metrics_daily (tables db') !! k = Some c)
  ∧ node_metrics_monthly (tables db') = node_metrics_monthly (tables db)
  ∧ sublist (node_metrics_raw (tables db')) (node_metrics_raw (tables db))
  ∧ node_metrics_hourly (tables db') ⊆ node_metrics_hourly (tables db)
  ∧ node_metrics_daily (tables db') ⊆ node_metrics_daily (tables db).
Proof.
  intros Hrun now'. apply CleanupMetrics_prefix in Hrun. cbn zeta in Hrun.
  fold now' in Hrun.
  assert (Hraw : ∀ r, r ∈ node_metrics_raw (tables db) →
            ¬ targeted accountID (account_id r) ∨ now' - 7 * 24 * Hour ≤ ts r →
            r ∈ filter (λ r, doomed (Add now' (- retentionRaw))
                               (cleanupAccount accountID) (account_id r)
                               (ts r) = false)
                       (node_metrics_raw (tables db))).
  { intros r Hr Hsp. apply list_elem_of_filter. split; [|done].
    by apply spared_not_doomed. }
  assert (Hagg : ∀ keep (m : gmap BucketKey Counters) k c,
            m !! k = Some c →
            ¬ targeted accountID k.1.1 ∨ now' - keep ≤ k.2 →
            delete_agg (Add now' (- keep)) (cleanupAccount accountID) m !! k
            = Some c).
  { intros keep m k c Hk Hsp. apply map_lookup_filter_Some. split; [done|].
    by apply spared_not_doomed. }
  assert (Hsub : ∀ cutoff a (m : gmap BucketKey Counters),
            delete_agg cutoff a m ⊆ m).
  { intros. apply map_filter_subseteq. }
  repeat (apply elem_of_cons in Hrun as [-> | Hrun]);
    [..|by apply elem_of_nil in Hrun]; cbn;
    repeat split; auto using sublist_filter;
    try (intros; by apply (Hagg (30 * 24 * Hour)));
    try (intros; by apply (Hagg (365 * 24 * Hour))).
Qed.

Lemma CleanupMetrics_keeps_witness :
  node_metrics_monthly
    (tables (CleanupMetrics 0 "a1" t_11_00
               {| tables := oldTables; faults := [false; true];
                  engine := GroupByBucket |}).1)
  = node_metrics_monthly oldTables.
Proof.
  exact (proj1 (proj2 (proj2 (proj2
    (CleanupMetrics_keeps 0 "a1" t_11_00
       {| tables := oldTables; faults := [false; true];
          engine := GroupByBucket |} _ _ eq_refl))))).
Defined.

Lemma filter_filter_weaker {A} (P Q : A → Prop)
    `{!∀ x, Decision (P x)} `{!∀ x, Decision (Q x)} (l : list A) :
  (∀ x, Q x → P x) → filter P (filter Q l) = filter Q l.
Proof.
  intros HQP. induction l as [|x l IH]; [done|].
  rewrite (filter_cons Q). destruct (decide (Q x)) as [HQ|HQ]; [|done].
  rewrite filter_cons, decide_True by auto. by rewrite IH.
Qed.

Lemma map_filter_filter_weaker (P Q : BucketKey * Counters → Prop)
    `{!∀ x, Decision (P x)} `{!∀ x, Decision (Q x)}
    (m : gmap BucketKey Counters) :
  (∀ x, Q x → P x) → filter P (filter Q m) = filter Q m.
Proof.
  intros HQP. apply map_eq. intros k.
  rewrite !map_lookup_filter.
  destruct (m !! k) as [c|]; cbn; [|done].
  destruct (decide (Q (k, c))) as [HQ|HQ].
  - rewrite option_guard_True by done. cbn.
    by rewrite option_guard_True by auto.
  - by rewrite option_guard_False by done.
Qed.

Lemma doomed_mono cutoff cutoff' a acct t :
  cutoff' ≤ cutoff →
  doomed cutoff a acct t = false → doomed cutoff' a acct t = false.
Proof.
  unfold doomed. intros Hle Hd.
  destruct (Z.ltb_spec t cutoff'); [|done].
  rewrite (proj2 (Z.ltb_lt t cutoff)) in Hd by lia. done.
Qed.

(** X7: once a cleanup has succeeded, a later successful cleanup for the
    same account whose [now] is not later deletes nothing: the tables stay
    as the first cleanup left them.  In particular a cleanup repeated at the
    same instant is idempotent. *)
Theorem CleanupMetrics_again clock clock' accountID now now' db db1 db2 :
  CleanupMetrics clock accountID now db = (db1, None) →
  CleanupMetrics clock' accountID now' db1 = (db2, None) →
  cleanupNow clock' now' ≤ cleanupNow clock now →
  tables db2 = tables db1.
Proof.
  intros H1 H2 Hle.
  apply CleanupMetrics_ok in H1, H2. rewrite H2, H1.
  unfold cleaned, delete_stmt, set_agg_table, delete_agg. cbn.
  f_equal.
  - apply filter_filter_weaker. intros r.
    apply doomed_mono. unfold Add. lia.
  - apply map_filter_filter_weaker. intros kv.
    apply doomed_mono. unfold Add. lia.
  - apply map_filter_filter_weaker. intros kv.
    apply doomed_mono. unfold Add. lia.
Qed.

Lemma CleanupMetrics_again_witness :
  tables (CleanupMetrics 0 "a1" t_10_00
            (CleanupMetrics 0 "a1" t_11_00
               {| tables := oldTables; faults := []; engine := GroupByBucket |}).1).1
  = tables (CleanupMetrics 0 "a1" t_11_00
              {| tables := oldTables; faults := []; engine := GroupByBucket |}).1.
Proof.
  apply (CleanupMetrics_again 0 0 "a1" t_11_00 t_10_00
           {| tables := oldTables; faults := []; engine := GroupByBucket |}
           _ _ eq_refl eq_refl).
  vm_compute. discriminate.
Defined.

End Retention_more.

(** ** The calendar: first days of months *)
Section Calendar_more.
Import GoTime CalendarMonths.
Local Open Scope Z_scope.

Lemma era_days_mono a b : a < b → era_days a + 365 ≤ era_days b.
Proof. unfold era_days. intros. Z.div_mod_to_equations. lia. Qed.

Lemma year_lower doe :
  0 ≤ doe < 146097 →
  0 ≤ yoe_of_doe doe < 400
  ∧ era_days (yoe_of_doe doe) ≤ doe ≤ era_days (yoe_of_doe doe) + 365.
Proof.
  intros H. unfold era_days, yoe_of_doe. Z.div_mod_to_equations. lia.
Qed.

Lemma year_upper doe :
  0 ≤ doe < 146096 → doe < era_days (yoe_of_doe doe + 1).
Proof.
  intros H. unfold era_days, yoe_of_doe. Z.div_mod_to_equations. lia.
Qed.

(** The year of the era is monotone in the day of the era. *)
Lemma yoe_mono doe1 doe2 :
  0 ≤ doe1 → doe1 ≤ doe2 → doe2 < 146097 →
  yoe_of_doe doe1 ≤ yoe_of_doe doe2.
Proof.
  intros H0 Hle Hlt.
  destruct (year_lower doe1 ltac:(lia)) as [Hr1 Hb1].
  destruct (year_lower doe2 ltac:(lia)) as [Hr2 Hb2].
  destruct (Z.le_gt_cases (yoe_of_doe doe1) (yoe_of_doe doe2)) as [|Hgt];
    [done|exfalso].
  assert (Hs : doe2 < 146096).
  { destruct (Z.eq_dec doe2 146096) as [->|]; [|lia].
    assert (Hy : yoe_of_doe 146096 = 399) by reflexivity. lia. }
  pose proof (year_upper doe2 ltac:(lia)) as Hu.
  destruct (Z.eq_dec (yoe_of_doe doe2 + 1) (yoe_of_doe doe1)) as [He|Hne].
  - rewrite He in Hu. lia.
  - pose proof (era_days_mono (yoe_of_doe doe2 + 1) (yoe_of_doe doe1)
                  ltac:(lia)). lia.
Qed.

(** The year of the era of a day given by its year and a day of the year
    before the leap day. *)
Lemma yoe_unique doe y :
  0 ≤ y < 400 → era_days y ≤ doe < era_days y + 365 → yoe_of_doe doe = y.
Proof.
  intros Hy Hb.
  assert (Hd : 0 ≤ doe < 146096).
  { assert (0 ≤ era_days y) by (unfold era_days; Z.div_mod_to_equations; lia).
    destruct (Z.eq_dec y 399) as [->|].
    - change (era_days 399) with 145731 in Hb. lia.
    - pose proof (era_days_mono y 399 ltac:(lia)) as Hm.
      change (era_days 399) with 145731 in Hm. lia. }
  destruct (year_lower doe ltac:(lia)) as [Hr Hl].
  pose proof (year_upper doe Hd) as Hu.
  destruct (Z.lt_trichotomy (yoe_of_doe doe) y) as [Hlt|[Heq|Hgt]]; [|done|].
  - destruct (Z.eq_dec (yoe_of_doe doe + 1) y) as [He|Hne].
    + rewrite He in Hu. lia.
    + pose proof (era_days_mono (yoe_of_doe doe + 1) y ltac:(lia)). lia.
  - pose proof (era_days_mono _ _ Hgt). lia.
Qed.

Lemma mp_of_first mp d :
  0 ≤ mp < 12 → 1 ≤ d ≤ 28 →
  (5 * ((153 * mp + 2) / 5 + d - 1) + 2) / 153 = mp.
Proof. intros. Z.div_mod_to_equations. lia. Qed.

Lemma month_of_mp_of_month m :
  1 ≤ m ≤ 12 → month_of_mp (mp_of_month m) = m ∧ 0 ≤ mp_of_month m < 12.
Proof.
  intros H. unfold mp_of_month, month_of_mp.
  destruct (Z.ltb_spec 2 m);
    [destruct (Z.ltb_spec (m - 3) 10)|destruct (Z.ltb_spec (m + 9) 10)]; lia.
Qed.

(** The calendar date of a day given by year, month and a day up to the
    28th is that date. *)
Lemma civil_days_roundtrip y m d :
  1 ≤ m ≤ 12 → 1 ≤ d ≤ 28 →
  civil_from_days (days_from_civil y m d) = (y, m, d).
Proof.
  intros Hm Hd. unfold civil_from_days, days_from_civil.
  destruct (month_of_mp_of_month m Hm) as [Hmm Hmp].
  set (mp := mp_of_month m) in *.
  set (y' := y - janfeb m).
  pose proof (Z.mod_pos_bound y' 400 ltac:(lia)) as Hyoe.
  set (yoe := y' mod 400) in *. set (era := y' / 400).
  set (doy := (153 * mp + 2) / 5 + d - 1).
  assert (Hdoy : 0 ≤ doy ≤ 364) by (subst doy; Z.div_mod_to_equations; lia).
  set (doe := yoe * 365 + yoe / 4 - yoe / 100 + doy).
  assert (Hyo : yoe_of_doe doe = yoe).
  { apply yoe_unique; [done|]. subst doe. unfold era_days. lia. }
  assert (Hdoe : 0 ≤ doe < 146097).
  { assert (0 ≤ era_days yoe)
      by (unfold era_days; Z.div_mod_to_equations; lia).
    destruct (Z.eq_dec yoe 399) as [He|].
    - subst doe. rewrite He. change (399 / 4) with 99.
      change (399 / 100) with 3. lia.
    - pose proof (era_days_mono yoe 399 ltac:(lia)) as Hmo.
      change (era_days 399) with 145731 in Hmo.
      subst doe. unfold era_days in *. lia. }
  replace (era * 146097 + doe - 719468 + 719468)
    with (doe + era * 146097) by lia.
  rewrite Z.div_add, Z.mod_add by lia.
  rewrite (Z.div_small doe), (Z.mod_small doe) by lia.
  assert (Hdy : doy_of_doe doe = doy).
  { unfold doy_of_doe. rewrite Hyo. subst doe. lia. }
  assert (Hmpd : mp_of_doe doe = mp).
  { unfold mp_of_doe. rewrite Hdy. subst doy. by apply mp_of_first. }
  unfold dom_of_doe. rewrite Hmpd, Hdy, Hyo, Hmm.
  f_equal; [f_equal|].
  - subst y'. pose proof (Z.div_mod (y - janfeb m) 400 ltac:(lia)).
    fold era in H. fold yoe in H. lia.
  - subst doy. lia.
Qed.

Lemma month_index_eq z :
  let z' := z + 719468 in
  month_index z
  = 12 * (400 * (z' / 146097) + yoe_of_doe (z' mod 146097))
    + mp_of_doe (z' mod 146097) + 3.
Proof.
  intros z'. unfold month_index, civil_from_days. cbn [fst snd]. fold z'.
  assert (Hdoe : 0 ≤ z' mod 146097 < 146097) by (apply Z.mod_pos_bound; lia).
  destruct (era_year_bounds _ Hdoe) as [_ Hdoy].
  destruct (month_day_of_doy _ Hdoy) as (Hmp & _ & _).
  fold (mp_of_doe (z' mod 146097)) in Hmp.
  unfold month_of_mp, janfeb.
  destruct (Z.ltb_spec (mp_of_doe (z' mod 146097)) 10);
    [destruct (Z.leb_spec (mp_of_doe (z' mod 146097) + 3) 2)
    |destruct (Z.leb_spec (mp_of_doe (z' mod 146097) - 9) 2)]; lia.
Qed.

(** Later days lie in later months. *)
Lemma month_index_mono z1 z2 : z1 ≤ z2 → month_index z1 ≤ month_index z2.
Proof.
  intros Hle. rewrite !month_index_eq. cbn zeta.
  set (a := z1 + 719468). set (b := z2 + 719468).
  assert (Hab : a ≤ b) by lia.
  assert (Ha : 0 ≤ a mod 146097 < 146097) by (apply Z.mod_pos_bound; lia).
  assert (Hb : 0 ≤ b mod 146097 < 146097) by (apply Z.mod_pos_bound; lia).
  destruct (year_lower _ Ha) as [Hya _], (year_lower _ Hb) as [Hyb _].
  destruct (era_year_bounds _ Ha) as [_ Hda], (era_year_bounds _ Hb) as [_ Hdb].
  destruct (month_day_of_doy _ Hda) as (Hma & _ & _).
  destruct (month_day_of_doy _ Hdb) as (Hmb & _ & _).
  fold (mp_of_doe (a mod 146097)) in Hma.
  fold (mp_of_doe (b mod 146097)) in Hmb.
  pose proof (Z.div_le_mono a b 146097 ltac:(lia) Hab) as He.
  destruct (Z.eq_dec (a / 146097) (b / 146097)) as [Heq|Hne]; [|lia].
  assert (Hmod : a mod 146097 ≤ b mod 146097).
  { rewrite !Z.mod_eq by lia. rewrite Heq. lia. }
  pose proof (yoe_mono _ _ (proj1 Ha) Hmod (proj2 Hb)) as Hy.
  destruct (Z.eq_dec (yoe_of_doe (a mod 146097)) (yoe_of_doe (b mod 146097)))
    as [Hyeq|Hyne]; [|lia].
  assert (Hmp : mp_of_doe (a mod 146097) ≤ mp_of_doe (b mod 146097)).
  { unfold mp_of_doe, doy_of_doe. rewrite Hyeq.
    apply Z.div_le_mono; lia. }
  lia.
Qed.

(** The day of the month is at least one. *)
Lemma Day_pos t : 1 ≤ Day t.
Proof.
  unfold Day, civil_from_days. cbn [snd].
  assert (Hdoe : 0 ≤ (unixDays t + 719468) mod 146097 < 146097)
    by (apply Z.mod_pos_bound; lia).
  destruct (era_year_bounds _ Hdoe) as [_ Hdoy].
  destruct (month_day_of_doy _ Hdoy) as (_ & Hd & _).
  exact (proj1 Hd).
Qed.

End Calendar_more.

(** ** The scheduler: the first delay and the windows of a run *)
Section Scheduler_runs.
Import GoTime CalendarMonths Store Scheduler SchedulerRun Samples.
Local Open Scope Z_scope.

(** X8: with a positive interval the first aggregation is due after a
    positive delay of at most one interval, at the next instant that is a
    whole number of intervals after the zero time; when the interval divides
    the offset of the zero time, as the default hour does, this is the next
    multiple of the interval on the clock ([now] rounded up to the next full
    hour), and never [now] itself. *)
Theorem nextAggregateDelay_aligned m now :
  0 < aggregateInterval m ≤ maxDuration →
  let i := aggregateInterval m in
  let d := nextAggregateDelay m now in
  0 < d ≤ i
  ∧ (now + d - zeroTime) mod i = 0
  ∧ (zeroTime mod i = 0 → d = i - now mod i ∧ (now + d) mod i = 0).
Proof.
  intros Hi i d. subst d. unfold nextAggregateDelay, Truncate, Sub, Add.
  fold i. destruct (Z.leb_spec i 0) as [|_]; [lia|].
  pose proof (Z.mod_pos_bound (now - zeroTime) i ltac:(lia)) as Hr.
  set (r := (now - zeroTime) mod i) in *.
  cbn zeta. replace (now - r + i - now) with (i - r) by lia.
  unfold minDuration, maxDuration in *.
  destruct (Z.ltb_spec (i - r) (- 2 ^ 63)); [lia|].
  destruct (Z.ltb_spec (2 ^ 63 - 1) (i - r)); [lia|].
  split; [lia|]. split.
  - replace (now + (i - r) - zeroTime) with (now - zeroTime - r + 1 * i) by lia.
    rewrite Z.mod_add by lia. subst r.
    rewrite Zminus_mod_idemp_r, Z.sub_diag. apply Zmod_0_l.
  - intros Hz.
    assert (Hr' : r = now mod i).
    { subst r. rewrite Zminus_mod, Hz, Z.sub_0_r. by rewrite Z.mod_mod by lia. }
    rewrite Hr'. split; [done|].
    replace (now + (i - now mod i)) with (now - now mod i + 1 * i) by lia.
    rewrite Z.mod_add by lia.
    rewrite Zminus_mod_idemp_r, Z.sub_diag. apply Zmod_0_l.
Qed.

Lemma nextAggregateDelay_aligned_witness :
  nextAggregateDelay (Start NewMetricsScheduler) at_10_00_07
  = Hour - 7 * Second.
Proof.
  destruct (nextAggregateDelay_aligned (Start NewMetricsScheduler)
              at_10_00_07
              ltac:(vm_compute; split; [reflexivity|discriminate]))
    as (_ & _ & H).
  destruct (H eq_refl) as [-> _]. reflexivity.
Defined.

Lemma first_of_month z :
  days_from_civil (civil_from_days z).1.1 (civil_from_days z).1.2 1
  = z - (civil_from_days z).2 + 1.
Proof.
  pose proof (days_civil_roundtrip z) as Hrt.
  unfold days_from_civil in *. lia.
Qed.

Lemma civil_first_of_month z :
  civil_from_days (z - (civil_from_days z).2 + 1)
  = ((civil_from_days z).1.1, (civil_from_days z).1.2, 1).
Proof.
  rewrite <- first_of_month.
  apply civil_days_roundtrip; [apply civil_month_range|lia].
Qed.

Lemma unixDays_mul z : unixDays (z * nsPerDay) = z.
Proof. unfold unixDays. by apply Z.div_mul. Qed.

Lemma Date_first t :
  Date (Year t) (Month t) 1 0 0 0 0 = (unixDays t - Day t + 1) * nsPerDay.
Proof.
  unfold Date, Year, Month, Day.
  pose proof (civil_month_range (unixDays t)) as Hm.
  pose proof (first_of_month (unixDays t)) as Hf.
  set (c := civil_from_days (unixDays t)) in *.
  rewrite (Z.div_small (c.1.2 - 1) 12), (Z.mod_small (c.1.2 - 1) 12) by lia.
  replace (c.1.1 + 0) with c.1.1 by lia.
  replace (c.1.2 - 1 + 1) with c.1.2 by lia.
  rewrite Hf. lia.
Qed.

Lemma startOfMonth_days t :
  startOfMonth t = (unixDays t - Day t + 1) * nsPerDay.
Proof. unfold startOfMonth. apply Date_first. Qed.

Lemma bucket_MonthOf t :
  bucket MonthOf t = (unixDays t - Day t + 1) * nsPerDay.
Proof. unfold bucket. apply Date_first. Qed.

Lemma startOfMonth_first t :
  startOfMonth t = monthFirst (unixDays t) * nsPerDay.
Proof. rewrite startOfMonth_days. unfold monthFirst, Day. reflexivity. Qed.

Lemma bucket_MonthOf_first t :
  bucket MonthOf t = monthFirst (unixDays t) * nsPerDay.
Proof. rewrite bucket_MonthOf. unfold monthFirst, Day. reflexivity. Qed.

(** The first day of the month before the month of day [z]. *)
Lemma previous_month z x :
  prevMonthFirst z ≤ x < monthFirst z ↔ monthFirst x = prevMonthFirst z.
Proof.
  unfold prevMonthFirst, monthFirst.
  set (c := civil_from_days z).
  set (F' := days_from_civil (c.1.1 + (c.1.2 - 2) / 12)
                             ((c.1.2 - 2) mod 12 + 1) 1).
  pose proof (civil_month_range z) as Hm. fold c in Hm.
  pose proof (Z.mod_pos_bound (c.1.2 - 2) 12 ltac:(lia)) as Hm'.
  assert (HcF' : civil_from_days F'
                 = (c.1.1 + (c.1.2 - 2) / 12, (c.1.2 - 2) mod 12 + 1, 1))
    by (apply civil_days_roundtrip; lia).
  pose proof (civil_first_of_month z) as HcF. fold c in HcF.
  set (F := z - c.2 + 1) in *.
  assert (HiF : month_index F = 12 * c.1.1 + c.1.2)
    by (unfold month_index; by rewrite HcF).
  assert (HiF' : month_index F' = 12 * c.1.1 + c.1.2 - 1).
  { unfold month_index. rewrite HcF'. cbn [fst snd].
    pose proof (Z.div_mod (c.1.2 - 2) 12 ltac:(lia)). lia. }
  pose proof (civil_month_range x) as Hmx.
  pose proof (first_of_month x) as Hfx.
  pose proof (civil_first_of_month x) as Hcx.
  assert (Hdx : 1 ≤ (civil_from_days x).2).
  { pose proof (Day_pos (x * nsPerDay)) as H.
    unfold Day in H. by rewrite unixDays_mul in H. }
  set (cx := civil_from_days x) in *.
  split.
  - intros [Hlo Hhi].
    pose proof (month_index_mono _ _ Hlo) as H1.
    pose proof (month_index_mono x F ltac:(lia)) as H2.
    assert (Hix : month_index x = 12 * cx.1.1 + cx.1.2) by done.
    destruct (Z.eq_dec (month_index x) (month_index F)) as [He|Hne].
    + assert (cx.1.1 = c.1.1 ∧ cx.1.2 = c.1.2) as [Hy Hmo] by lia.
      rewrite Hy, Hmo in Hfx.
      pose proof (first_of_month z) as Hfz. fold c in Hfz. lia.
    + assert (cx.1.1 = c.1.1 + (c.1.2 - 2) / 12
              ∧ cx.1.2 = (c.1.2 - 2) mod 12 + 1) as [Hy Hmo].
      { pose proof (Z.div_mod (c.1.2 - 2) 12 ltac:(lia)). lia. }
      rewrite Hy, Hmo in Hfx. subst F'. lia.
  - intros He. split; [lia|].
    rewrite He in Hcx. rewrite HcF' in Hcx.
    assert (Hy : c.1.1 + (c.1.2 - 2) / 12 = cx.1.1)
      by exact (f_equal (λ p, p.1.1) Hcx).
    assert (Hmo : (c.1.2 - 2) mod 12 + 1 = cx.1.2)
      by exact (f_equal (λ p, p.1.2) Hcx).
    assert (Hix : month_index x = 12 * cx.1.1 + cx.1.2) by done.
    pose proof (Z.div_mod (c.1.2 - 2) 12 ltac:(lia)).
    destruct (Z.lt_ge_cases x F) as [|Hge]; [done|].
    pose proof (month_index_mono _ _ Hge). lia.
Qed.

Lemma day_bounds (a t : Z) :
  a * nsPerDay ≤ t ↔ a ≤ unixDays t.
Proof.
  unfold unixDays, nsPerDay, Hour, Minute, Second, Nanosecond.
  Z.div_mod_to_equations. lia.
Qed.

Lemma day_bounds_lt (a t : Z) :
  t < a * nsPerDay ↔ unixDays t < a.
Proof.
  unfold unixDays, nsPerDay, Hour, Minute, Second, Nanosecond.
  Z.div_mod_to_equations. lia.
Qed.

Lemma lastMonthStart_days now :
  lastMonthStart now = prevMonthFirst (unixDays now) * nsPerDay.
Proof.
  unfold lastMonthStart, currentMonthStart, prevMonthFirst.
  rewrite startOfMonth_days.
  unfold AddDate, Year, Month, Day, nsOfDay.
  rewrite unixDays_mul, civil_first_of_month.
  set (c := civil_from_days (unixDays now)). cbn [fst snd].
  rewrite Z.mod_mul by done. unfold Date.
  replace (c.1.2 + -1 - 1) with (c.1.2 - 2) by lia.
  replace (c.1.1 + 0 + (c.1.2 - 2) / 12) with (c.1.1 + (c.1.2 - 2) / 12)
    by lia.
  lia.
Qed.

Lemma month_window now t :
  lastMonthStart now ≤ t < currentMonthStart now
  ↔ bucket MonthOf t = lastMonthStart now.
Proof.
  rewrite lastMonthStart_days.
  pose proof (bucket_MonthOf_first t) as Hb. rewrite Hb. clear Hb.
  unfold currentMonthStart. rewrite startOfMonth_first.
  pose proof (previous_month (unixDays now) (unixDays t)) as Hp.
  pose proof (day_bounds (prevMonthFirst (unixDays now)) t) as H1.
  pose proof (day_bounds_lt (monthFirst (unixDays now)) t) as H2.
  generalize dependent (prevMonthFirst (unixDays now)).
  generalize dependent (monthFirst (unixDays now)).
  generalize dependent (monthFirst (unixDays t)).
  intros a b H2 c Hp H1. split.
  - intros [Hlo Hhi]. f_equal. apply Hp. split; [by apply H1|by apply H2].
  - intros He. apply Z.mul_cancel_r in He; [|done].
    apply Hp in He as [Hlo Hhi]. split; [by apply H1|by apply H2].
Qed.

(** The two-hour window of the hourly roll-up against the hour buckets. *)
Lemma hour_window now t :
  Add now (-2 * Hour) ≤ t < now
  ↔ bucket HourOf t = bucket HourOf now - Hour
    ∨ (bucket HourOf t = bucket HourOf now - 2 * Hour
       ∧ Add now (-2 * Hour) ≤ t)
    ∨ (bucket HourOf t = bucket HourOf now ∧ t < now).
Proof.
  unfold bucket, Add.
  pose proof (Z.mod_pos_bound t Hour ltac:(done)) as Ht1.
  pose proof (Z.div_mod t Hour ltac:(done)) as Ht2.
  pose proof (Z.mod_pos_bound now Hour ltac:(done)) as Hn1.
  pose proof (Z.div_mod now Hour ltac:(done)) as Hn2.
  generalize dependent (t / Hour). generalize dependent (now / Hour).
  generalize dependent (t mod Hour). generalize dependent (now mod Hour).
  change Hour with 3600000000000. intros. lia.
Qed.

Lemma hour_window_cut now :
  bucket HourOf now ≠ now →
  let cut := bucket HourOf now - 2 * Hour in
  bucket HourOf cut = cut
  ∧ cut < Add now (-2 * Hour)
  ∧ bucket HourOf (Add now (-2 * Hour)) = cut.
Proof.
  intros Hoff cut. subst cut. unfold bucket, Add in *.
  replace (now / Hour * Hour - 2 * Hour) with ((now / Hour - 2) * Hour) by lia.
  rewrite Z.div_mul by done.
  replace (now + -2 * Hour) with (now + (-2) * Hour) by lia.
  rewrite Z.div_add by done.
  pose proof (Z.mod_pos_bound now Hour ltac:(done)) as Hn1.
  pose proof (Z.div_mod now Hour ltac:(done)) as Hn2.
  generalize dependent (now / Hour). generalize dependent (now mod Hour).
  change Hour with 3600000000000. intros. lia.
Qed.

(** X9: the windows of a scheduled run against the buckets they feed.  The
    window of the daily roll-up holds exactly the instants of the previous
    UTC day, that is, those whose day bucket is its start; the window of the
    monthly roll-up holds exactly the instants of the previous calendar
    month, those whose month bucket is its start.  The two-hour window of
    the hourly roll-up is not made of whole buckets: it holds the whole hour
    before the hour of [now], of the hour two before only the instants from
    [now - 2h] on, and of the hour of [now] the instants before [now]; so
    whenever [now] is off the hour, the hour bucket two before the hour of
    [now] is cut: its start is outside the window while [now - 2h], an
    instant of the same bucket, is inside. *)
Theorem runAggregation_windows now :
  (∀ t, yesterdayStart now ≤ t < todayStart now
        ↔ bucket DateOf t = yesterdayStart now)
  ∧ (∀ t, lastMonthStart now ≤ t < currentMonthStart now
          ↔ bucket MonthOf t = lastMonthStart now)
  ∧ (∀ t, bucket HourOf t = bucket HourOf now - Hour →
          Add now (-2 * Hour) ≤ t < now)
  ∧ todayStart now ≤ now < todayStart now + 24 * Hour
  ∧ currentMonthStart now ≤ todayStart now
  ∧ (∀ t, Add now (-2 * Hour) ≤ t < now
          ↔ bucket HourOf t = bucket HourOf now - Hour
            ∨ (bucket HourOf t = bucket HourOf now - 2 * Hour
               ∧ Add now (-2 * Hour) ≤ t)
            ∨ (bucket HourOf t = bucket HourOf now ∧ t < now))
  ∧ (bucket HourOf now ≠ now →
     bucket HourOf (bucket HourOf now - 2 * Hour)
     = bucket HourOf now - 2 * Hour
     ∧ ¬ (Add now (-2 * Hour) ≤ bucket HourOf now - 2 * Hour < now)
     ∧ bucket HourOf (Add now (-2 * Hour)) = bucket HourOf now - 2 * Hour
     ∧ Add now (-2 * Hour) ≤ Add now (-2 * Hour) < now).
Proof.
  split; [|split; [exact (month_window now)|]].
  - intros t. unfold yesterdayStart, todayStart. rewrite startOfDay_floor.
    unfold bucket, Add.
    pose proof (Z.mod_pos_bound t nsPerDay ltac:(done)).
    pose proof (Z.div_mod t nsPerDay ltac:(done)).
    pose proof (Z.mod_pos_bound now nsPerDay ltac:(done)).
    pose proof (Z.div_mod now nsPerDay ltac:(done)).
    change (-24 * Hour) with (- nsPerDay).
    generalize dependent (t / nsPerDay). generalize dependent (now / nsPerDay).
    generalize dependent (t mod nsPerDay).
    generalize dependent (now mod nsPerDay).
    change nsPerDay with 86400000000000. intros. nia.
  - split; [intros t Ht; apply hour_window; by left|].
    split; [|split; [|split; [exact (hour_window now)|]]].
    + unfold todayStart. rewrite startOfDay_floor.
      pose proof (Z.mod_pos_bound now nsPerDay ltac:(done)) as Hmod.
      pose proof (Z.div_mod now nsPerDay ltac:(done)) as Hdm.
      change (24 * Hour) with nsPerDay.
      generalize dependent (now / nsPerDay).
      generalize dependent (now mod nsPerDay).
      change nsPerDay with 86400000000000. intros. lia.
    + unfold todayStart, currentMonthStart.
      rewrite startOfDay_floor, startOfMonth_days.
      pose proof (Day_pos now) as Hd. unfold unixDays.
      generalize dependent (now / nsPerDay). generalize dependent (Day now).
      change nsPerDay with 86400000000000. intros. lia.
    + intros Hoff. destruct (hour_window_cut now Hoff) as (H1 & H2 & H3).
      split; [exact H1|]. split; [lia|]. split; [exact H3|].
      unfold Add. change Hour with 3600000000000. lia.
Qed.

Lemma AggregateMetrics_run clock a target from to db src dst e :
  aggregationPlan target = inl (src, dst, e) →
  let r := AggregateMetrics clock a target from to db in
  engine r.1 = engine db
  ∧ faults r.1 = tail (faults db)
  ∧ (r.2 = None
     ∧ tables r.1
       = aggregate_stmt (engine db) src dst e
           (windowFrom target from (windowTo clock to)) (windowTo clock to)
           a (tables db)
     ∨ r.2 = Some ErrDriver ∧ tables r.1 = tables db)
  ∧ (r.2 = Some ErrDriver ↔ head (faults db) = Some true).
Proof.
  intros Hplan. unfold AggregateMetrics. rewrite Hplan. cbn zeta.
  unfold ExecContext. destruct (faults db) as [|[] fs]; cbn;
    (split; [done|]; split; [done|]; split; [auto|]); split; done.
Qed.

Lemma aggregate_stmt_raw g src dst e from to a tb :
  node_metrics_raw (aggregate_stmt g src dst e from to a tb)
  = node_metrics_raw tb.
Proof. unfold aggregate_stmt. by destruct dst. Qed.

Lemma aggregate_stmt_other g src dst e from to a tb t :
  t ≠ dst →
  agg_table t (aggregate_stmt g src dst e from to a tb) = agg_table t tb.
Proof. unfold aggregate_stmt. destruct dst, t; done. Qed.

(** The destination row of a bucket that lies in the window as a whole holds
    the sum of all source rows of the bucket. *)
Lemma aggregate_stmt_whole_bucket src dst e from to tb a n b :
  (∀ t, bucket e t = b → from ≤ t < to) →
  agg_table dst (aggregate_stmt GroupByBucket src dst e from to EmptyString tb)
    !! (a, n, b)
  = match filter (λ r, bucketKey e r = (a, n, b)) (rows_of src tb) with
    | [] => agg_table dst tb !! (a, n, b)
    | rs => Some (sum_counters rs)
    end.
Proof.
  intros Hwhole. set (k := (a, n, b)). unfold aggregate_stmt.
  assert (Hg : groupBy GroupByBucket src = GroupByBucket) by by destruct src.
  rewrite Hg.
  set (W := filter (λ r, in_window from to EmptyString r = true)
                   (rows_of src tb)).
  destruct (selected_by_bucket_lookup e W k) as [Hnd Hsel].
  replace (agg_table dst (set_agg_table dst
             (upsert (selected GroupByBucket e W) (agg_table dst tb)) tb))
    with (upsert (selected GroupByBucket e W) (agg_table dst tb))
    by by destruct dst.
  rewrite upsert_lookup, Hsel, group_sum_lookup by done.
  change (groupKey GroupByBucket e) with (bucketKey e).
  assert (HW : filter (λ r, bucketKey e r = k) W
               = filter (λ r, bucketKey e r = k) (rows_of src tb)).
  { subst W. rewrite list_filter_filter. apply list_filter_iff.
    intros r. split; [by intros [? _]|]. intros Hk. split; [done|].
    unfold in_window. rewrite bool_decide_eq_true_2 by done. cbn.
    rewrite andb_true_r. apply andb_true_iff.
    destruct (Hwhole (ts r)) as [Hlo Hhi].
    { unfold bucketKey in Hk. subst k. by injection Hk. }
    split; [by apply Z.leb_le|by apply Z.ltb_lt]. }
  rewrite HW. clear HW Hsel Hnd. clearbody W.
  destruct (filter (λ r, bucketKey e r = k) (rows_of src tb)); reflexivity.
Qed.

Lemma day_window now t :
  bucket DateOf t = yesterdayStart now →
  yesterdayStart now ≤ t < todayStart now.
Proof.
  unfold yesterdayStart, todayStart. rewrite startOfDay_floor.
  unfold bucket, Add.
  pose proof (Z.mod_pos_bound t nsPerDay ltac:(done)).
  pose proof (Z.div_mod t nsPerDay ltac:(done)).
  change (-24 * Hour) with (- nsPerDay).
  generalize dependent (t / nsPerDay). generalize dependent (now / nsPerDay).
  generalize dependent (t mod nsPerDay).
  change nsPerDay with 86400000000000. intros. lia.
Qed.

(** The last selected row of a key is the one the upsert leaves. *)
Lemma upsert_lookup_cases (sel : list (BucketKey * Counters))
    (dst : gmap BucketKey Counters) (k : BucketKey) :
  (upsert sel dst !! k = dst !! k ∧ ∀ kv, kv ∈ sel → kv.1 ≠ k)
  ∨ (∃ kv, kv ∈ sel ∧ kv.1 = k ∧ upsert sel dst !! k = Some kv.2).
Proof.
  unfold upsert. revert dst.
  induction sel as [|kv sel IH]; intros dst.
  { left. split; [done|]. intros kv Hkv. by apply elem_of_nil in Hkv. }
  cbn [foldl].
  destruct (IH (<[kv.1 := kv.2]> dst)) as [[Heq Hno]|(kv' & Hin & Hk & Heq)].
  - destruct (decide (kv.1 = k)) as [Hk|Hk].
    + right. exists kv. split; [apply list_elem_of_here|]. split; [done|].
      by rewrite Heq, Hk, lookup_insert_eq.
    + left. split; [by rewrite Heq, lookup_insert_ne|].
      intros kv' [->|Hin]%elem_of_cons; auto.
  - right. exists kv'. split; [by apply list_elem_of_further|]. done.
Qed.

Lemma filter_key_unique {A B} `{EqDecision B} (f : A → B) (P : A → Prop)
    `{∀ x, Decision (P x)} (l : list A) (y : B) (r : A) (rest : list A) :
  NoDup (f <$> l) →
  filter (λ x, f x = y) (filter P l) = r :: rest → rest = [].
Proof.
  induction l as [|a l IH]; [done|].
  rewrite fmap_cons. intros [Ha Hnd]%NoDup_cons.
  rewrite (filter_cons P). destruct (decide (P a)); [|by apply IH].
  rewrite filter_cons. destruct (decide (f a = y)) as [Hy|]; [|by apply IH].
  intros [= _ <-].
  destruct (filter _ (filter P l)) as [|x xs] eqn:E; [done|].
  assert (Hx : x ∈ filter (λ x, f x = y) (filter P l)) by (rewrite E; left).
  apply list_elem_of_filter in Hx as [Hfx Hx].
  apply list_elem_of_filter in Hx as [_ Hx].
  destruct Ha. rewrite Hy, <- Hfx. by apply list_elem_of_fmap_2.
Qed.

(** An aggregated table holds one row per account, node and bucket start. *)
Lemma rows_of_agg_keys (e : BucketExpr) (m : gmap BucketKey Counters) :
  NoDup (groupKey GroupByColumn e <$> rows_of_agg m).
Proof.
  unfold rows_of_agg. rewrite <- list_fmap_compose.
  erewrite list_fmap_ext; [apply NoDup_fst_map_to_list|].
  by intros i [[[a n] t] c] _.
Qed.

Lemma selected_elem g e rows kv :
  kv ∈ selected g e rows
  ↔ ∃ gk b, kv.1 = (gk.1.1, gk.1.2, b)
            ∧ group_sum g e rows !! gk = Some (b, kv.2).
Proof.
  unfold selected. rewrite list_elem_of_fmap. split.
  - intros ([gk [b c]] & -> & Hin). apply elem_of_map_to_list in Hin.
    by exists gk, b.
  - intros (gk & b & Hk & Hin). exists (gk, (b, kv.2)).
    split; [destruct kv; cbn in *; by subst|].
    by apply elem_of_map_to_list.
Qed.

(** Grouped by the column of the source table, every row of the source is a
    group of its own, and the destination row of a bucket that lies in the
    window as a whole is left with the counters of one source row of the
    bucket. *)
Lemma aggregate_stmt_column_bucket (g : GroupBy) (src : Table) (dst : AggTable)
    (e : BucketExpr) (from to : Time) (tb : Tables)
    (m : gmap BucketKey Counters) (k : BucketKey) :
  groupBy g src = GroupByColumn →
  rows_of src tb = rows_of_agg m →
  (∀ t, bucket e t = k.2 → from ≤ t < to) →
  match filter (λ r, bucketKey e r = k) (rows_of src tb) with
  | [] =>
      agg_table dst (aggregate_stmt g src dst e from to EmptyString tb) !! k
      = agg_table dst tb !! k
  | rs =>
      ∃ r, r ∈ rs
           ∧ agg_table dst (aggregate_stmt g src dst e from to EmptyString tb)
               !! k = Some (cnt r)
  end.
Proof.
  intros Hg Hrows Hwhole. unfold aggregate_stmt. rewrite Hg, Hrows.
  set (W := filter (λ r, in_window from to EmptyString r = true)
                   (rows_of_agg m)).
  replace (agg_table dst (set_agg_table dst
             (upsert (selected GroupByColumn e W) (agg_table dst tb)) tb))
    with (upsert (selected GroupByColumn e W) (agg_table dst tb))
    by by destruct dst.
  assert (HinW : ∀ r, r ∈ rows_of_agg m → bucketKey e r = k → r ∈ W).
  { intros r Hr Hk. apply list_elem_of_filter. split; [|done].
    unfold in_window. rewrite bool_decide_eq_true_2 by done. cbn.
    rewrite andb_true_r. apply andb_true_iff.
    destruct (Hwhole (ts r)) as [Hlo Hhi].
    { rewrite <- Hk. reflexivity. }
    split; [by apply Z.leb_le|by apply Z.ltb_lt]. }
  assert (Hgroup : ∀ r, r ∈ W →
            ∃ c, group_sum GroupByColumn e W !! groupKey GroupByColumn e r
                 = Some (bucket e (ts r), c)).
  { intros r Hr. rewrite group_sum_lookup.
    destruct (filter _ W) as [|r' rs'] eqn:E.
    - assert (Hin : r ∈ filter (λ r0, groupKey GroupByColumn e r0
                                      = groupKey GroupByColumn e r) W)
        by (by apply list_elem_of_filter).
      rewrite E in Hin. by apply elem_of_nil in Hin.
    - assert (Hin : r' ∈ filter (λ r0, groupKey GroupByColumn e r0
                                       = groupKey GroupByColumn e r) W)
        by (rewrite E; left).
      apply list_elem_of_filter in Hin as [Hk' _].
      injection Hk' as _ _ ->. by eexists. }
  destruct (upsert_lookup_cases (selected GroupByColumn e W)
              (agg_table dst tb) k) as [[Heq Hno]|(kv & Hin & Hk & Heq)].
  - destruct (filter (λ r, bucketKey e r = k) (rows_of_agg m))
      as [|r rs] eqn:E; [exact Heq|].
    assert (Hr : r ∈ filter (λ r, bucketKey e r = k) (rows_of_agg m))
      by (rewrite E; left).
    apply list_elem_of_filter in Hr as [Hrk Hr].
    destruct (Hgroup r (HinW r Hr Hrk)) as [c Hc].
    destruct (Hno ((account_id r, node_id r, bucket e (ts r)), c)).
    + apply selected_elem. by exists (groupKey GroupByColumn e r), (bucket e (ts r)).
    + exact Hrk.
  - apply selected_elem in Hin as (gk & b & Hkv & Hsum).
    rewrite group_sum_lookup in Hsum.
    destruct (filter (λ r, groupKey GroupByColumn e r = gk) W)
      as [|r rest] eqn:E; [done|].
    assert (Hrest : rest = []).
    { unfold W in E.
      exact (filter_key_unique (groupKey GroupByColumn e) _ _ _ _ _
               (rows_of_agg_keys e m) E). }
    subst rest.
    assert (Hr : r ∈ filter (λ r, groupKey GroupByColumn e r = gk) W)
      by (rewrite E; left).
    apply list_elem_of_filter in Hr as [Hrk Hr].
    apply list_elem_of_filter in Hr as [_ Hr].
    injection Hsum as <- Hc.
    assert (Hc' : kv.2 = cnt r).
    { rewrite <- Hc. cbn [sum_counters foldr]. apply counters_add_zero. }
    assert (Hkr : bucketKey e r = k).
    { rewrite <- Hk, Hkv, <- Hrk. reflexivity. }
    assert (Hin : r ∈ filter (λ r, bucketKey e r = k) (rows_of_agg m))
      by (by apply list_elem_of_filter).
    destruct (filter (λ r, bucketKey e r = k) (rows_of_agg m))
      as [|r0 rs0]; [by apply elem_of_nil in Hin|].
    exists r. split; [done|]. by rewrite Heq, Hc'.
Qed.

(** Grouped by the bucket, the destination row of every bucket holds the
    sum of the source rows of the window that fall into it. *)
Lemma aggregate_stmt_bucket_lookup (g : GroupBy) (src : Table) (dst : AggTable)
    (e : BucketExpr) (from to : Time) (a : string) (tb : Tables)
    (k : BucketKey) :
  groupBy g src = GroupByBucket →
  agg_table dst (aggregate_stmt g src dst e from to a tb) !! k
  = match window_rows src e from to a tb k with
    | [] => agg_table dst tb !! k
    | rs => Some (sum_counters rs)
    end.
Proof.
  intros Hg. unfold aggregate_stmt, window_rows. rewrite Hg.
  set (W := filter (λ r, in_window from to a r = true) (rows_of src tb)).
  destruct (selected_by_bucket_lookup e W k) as [Hnd Hsel].
  replace (agg_table dst (set_agg_table dst
             (upsert (selected GroupByBucket e W) (agg_table dst tb)) tb))
    with (upsert (selected GroupByBucket e W) (agg_table dst tb))
    by by destruct dst.
  rewrite upsert_lookup, Hsel, group_sum_lookup by done.
  change (groupKey GroupByBucket e) with (bucketKey e).
  clear Hsel Hnd. clearbody W.
  destruct (filter (λ r, bucketKey e r = k) W); reflexivity.
Qed.

Lemma civil_year_lower z : 0 ≤ z → 1600 ≤ (civil_from_days z).1.1.
Proof.
  intros Hz. unfold civil_from_days. cbn [fst snd].
  assert (Hdoe : 0 ≤ (z + 719468) mod 146097 < 146097)
    by (apply Z.mod_pos_bound; lia).
  destruct (era_year_bounds _ Hdoe) as [Hyoe _].
  assert (Hera : 4 ≤ (z + 719468) / 146097)
    by (apply Z.div_le_lower_bound; lia).
  unfold janfeb.
  destruct (Z.leb (month_of_mp (mp_of_doe ((z + 719468) mod 146097))) 2); lia.
Qed.

Lemma days_from_civil_lower y m :
  1 ≤ m ≤ 12 → 2 ≤ y → -719162 < days_from_civil y m 1.
Proof.
  intros Hm Hy. unfold days_from_civil, janfeb, mp_of_month.
  destruct (Z.leb_spec m 2), (Z.ltb_spec 2 m); try lia;
    Z.div_mod_to_equations; lia.
Qed.

Lemma days_not_zero x : -719162 < x → IsZero (x * nsPerDay) = false.
Proof.
  intros Hx. unfold IsZero. apply Z.eqb_neq.
  unfold zeroTime, nsPerDay, Hour, Minute, Second, Nanosecond. lia.
Qed.

(** From the Unix epoch on, no bound of a window of [runAggregation] is the
    zero time, which the store would replace. *)
Lemma windows_not_zero now :
  0 ≤ now →
  IsZero now = false ∧ IsZero (Add now (-2 * Hour)) = false
  ∧ IsZero (yesterdayStart now) = false ∧ IsZero (todayStart now) = false
  ∧ IsZero (lastMonthStart now) = false
  ∧ IsZero (currentMonthStart now) = false.
Proof.
  intros Hnow.
  assert (Hz : 0 ≤ unixDays now) by (by apply Z.div_pos).
  pose proof (civil_year_lower _ Hz) as Hy.
  pose proof (civil_month_range (unixDays now)) as Hm.
  assert (Hday : 0 ≤ now / nsPerDay * nsPerDay).
  { unfold unixDays in Hz. change nsPerDay with 86400000000000 in *. lia. }
  split; [|split; [|split; [|split; [|split]]]].
  - apply Z.eqb_neq. unfold zeroTime, Second, Nanosecond. lia.
  - apply Z.eqb_neq.
    unfold Add, zeroTime, Hour, Minute, Second, Nanosecond. lia.
  - unfold yesterdayStart. rewrite startOfDay_floor. apply Z.eqb_neq.
    unfold Add, zeroTime, Hour, Minute, Second, Nanosecond in *. lia.
  - unfold todayStart. rewrite startOfDay_floor. apply Z.eqb_neq.
    unfold zeroTime, Second, Nanosecond. lia.
  - rewrite lastMonthStart_days. apply days_not_zero.
    unfold prevMonthFirst.
    pose proof (Z.mod_pos_bound ((civil_from_days (unixDays now)).1.2 - 2) 12
                  ltac:(lia)).
    apply days_from_civil_lower; [lia|].
    generalize dependent ((civil_from_days (unixDays now)).1.1).
    generalize dependent ((civil_from_days (unixDays now)).1.2).
    intros. Z.div_mod_to_equations. lia.
  - unfold currentMonthStart. rewrite startOfMonth_first.
    apply days_not_zero. unfold monthFirst. rewrite <- first_of_month.
    apply days_from_civil_lower; lia.
Qed.

(** X10: what a scheduled run, at or after the Unix epoch, leaves in the
    aggregated tables, step by step.  If its hourly roll-up succeeded, the
    hourly row of every bucket holds the sum of the raw rows of the two-hour
    window that fall into the bucket (so, for the hour before the hour of
    [now], the sum of all raw rows of that hour), and rows of buckets
    without such raw rows stay as they were.  If its daily roll-up
    succeeded: on an engine that groups by the bucket, yesterday's daily
    row of every node is the sum of all hourly rows of that node and day,
    as the hourly step of the same run left them; on an engine that groups
    by the column of the source table, as MySQL does, it holds the counters
    of one single hourly row of that node and day.  If its monthly roll-up
    succeeded, the same holds of last month's row and the daily rows of the
    month, as the daily step left them.  Rows without such source rows stay
    as they were. *)
Theorem runAggregation_complete clock now db :
  0 ≤ now →
  let db1 :=
    (AggregateMetrics clock EmptyString MetricsGranularityHourly
                      (Add now (-2 * Hour)) now db).1 in
  let db2 :=
    (AggregateMetrics clock EmptyString MetricsGranularityDaily
                      (yesterdayStart now) (todayStart now) db1).1 in
  let r := runAggregation clock now db in
  (r.2 !! 0%nat = Some None →
   (∀ k,
      node_metrics_hourly (tables r.1) !! k
      = match window_rows TRaw HourOf (Add now (-2 * Hour)) now EmptyString
                          (tables db) k with
        | [] => node_metrics_hourly (tables db) !! k
        | rs => Some (sum_counters rs)
        end)
   ∧ ∀ a n,
       node_metrics_hourly (tables r.1) !! (a, n, bucket HourOf now - Hour)
       = match filter (λ r, bucketKey HourOf r
                            = (a, n, bucket HourOf now - Hour))
                      (node_metrics_raw (tables db)) with
         | [] => node_metrics_hourly (tables db)
                   !! (a, n, bucket HourOf now - Hour)
         | rs => Some (sum_counters rs)
         end)
  ∧ (r.2 !! 1%nat = Some None →
     ∀ a n,
       match engine db with
       | GroupByBucket =>
           node_metrics_daily (tables r.1) !! (a, n, yesterdayStart now)
           = match filter (λ r, bucketKey DateOf r
                                = (a, n, yesterdayStart now))
                          (rows_of THourly (tables db1)) with
             | [] => node_metrics_daily (tables db)
                       !! (a, n, yesterdayStart now)
             | rs => Some (sum_counters rs)
             end
       | GroupByColumn =>
           match filter (λ r, bucketKey DateOf r = (a, n, yesterdayStart now))
                        (rows_of THourly (tables db1)) with
           | [] =>
               node_metrics_daily (tables r.1) !! (a, n, yesterdayStart now)
               = node_metrics_daily (tables db) !! (a, n, yesterdayStart now)
           | rs =>
               ∃ r', r' ∈ rs
                     ∧ node_metrics_daily (tables r.1)
                         !! (a, n, yesterdayStart now) = Some (cnt r')
           end
       end)
  ∧ (r.2 !! 2%nat = Some None →
     ∀ a n,
       match engine db with
       | GroupByBucket =>
           node_metrics_monthly (tables r.1) !! (a, n, lastMonthStart now)
           = match filter (λ r, bucketKey MonthOf r
                                = (a, n, lastMonthStart now))
                          (rows_of TDaily (tables db2)) with
             | [] => node_metrics_monthly (tables db)
                       !! (a, n, lastMonthStart now)
             | rs => Some (sum_counters rs)
             end
       | GroupByColumn =>
           match filter (λ r, bucketKey MonthOf r = (a, n, lastMonthStart now))
                        (rows_of TDaily (tables db2)) with
           | [] =>
               node_metrics_monthly (tables r.1) !! (a, n, lastMonthStart now)
               = node_metrics_monthly (tables db) !! (a, n, lastMonthStart now)
           | rs =>
               ∃ r', r' ∈ rs
                     ∧ node_metrics_monthly (tables r.1)
                         !! (a, n, lastMonthStart now) = Some (cnt r')
           end
       end).
Proof.
  intros Hnow. unfold runAggregation.
  destruct (windows_not_zero now Hnow) as (Hn & Hh & Hy & Ht & Hl & Hc).
  pose proof (day_window now) as Hdw.
  pose proof (λ t, proj2 (month_window now t)) as Hmw.
  pose proof (λ t (H : bucket HourOf t = bucket HourOf now - Hour),
                proj2 (hour_window now t) (or_introl H)) as Hhw.
  generalize dependent (yesterdayStart now). intros ys Hy Hdw.
  generalize dependent (todayStart now). intros ts Ht Hdw.
  generalize dependent (lastMonthStart now). intros lms Hl Hmw.
  generalize dependent (currentMonthStart now). intros cms Hc Hmw.
  generalize dependent (Add now (-2 * Hour)). intros h2 Hh Hhw.
  pose proof (AggregateMetrics_run clock EmptyString MetricsGranularityHourly
                h2 now db _ _ _ eq_refl) as (He1 & _ & Ht1 & _).
  destruct (AggregateMetrics clock EmptyString MetricsGranularityHourly
              h2 now db) as [db1 e1].
  cbn [fst snd] in *.
  pose proof (AggregateMetrics_run clock EmptyString MetricsGranularityDaily
                ys ts db1 _ _ _ eq_refl) as (He2 & _ & Ht2 & _).
  destruct (AggregateMetrics clock EmptyString MetricsGranularityDaily
              ys ts db1) as [db2 e2].
  cbn [fst snd] in *.
  pose proof (AggregateMetrics_run clock EmptyString MetricsGranularityMonthly
                lms cms db2 _ _ _ eq_refl) as (He3 & _ & Ht3 & _).
  destruct (AggregateMetrics clock EmptyString MetricsGranularityMonthly
              lms cms db2) as [db3 e3].
  cbn [fst snd] in *.
  unfold windowTo, windowFrom in Ht1, Ht2, Ht3.
  rewrite Hn, Hh in Ht1. rewrite Ht, Hy in Ht2. rewrite Hc, Hl in Ht3.
  assert (Hd1 : node_metrics_daily (tables db1) = node_metrics_daily (tables db)).
  { destruct Ht1 as [[_ ->]|[_ ->]]; [|done].
    by apply (aggregate_stmt_other _ _ AHourly _ _ _ _ _ ADaily). }
  assert (Hm2 : node_metrics_monthly (tables db2)
                = node_metrics_monthly (tables db)).
  { transitivity (node_metrics_monthly (tables db1)).
    - destruct Ht2 as [[_ ->]|[_ ->]]; [|done].
      by apply (aggregate_stmt_other _ _ ADaily _ _ _ _ _ AMonthly).
    - destruct Ht1 as [[_ ->]|[_ ->]]; [|done].
      by apply (aggregate_stmt_other _ _ AHourly _ _ _ _ _ AMonthly). }
  assert (Hd3 : node_metrics_daily (tables db3)
                = node_metrics_daily (tables db2)).
  { destruct Ht3 as [[_ ->]|[_ ->]]; [|done].
    by apply (aggregate_stmt_other _ _ AMonthly _ _ _ _ _ ADaily). }
  assert (Hh3 : node_metrics_hourly (tables db3)
                = node_metrics_hourly (tables db1)).
  { transitivity (node_metrics_hourly (tables db2)).
    - destruct Ht3 as [[_ ->]|[_ ->]]; [|done].
      by apply (aggregate_stmt_other _ _ AMonthly _ _ _ _ _ AHourly).
    - destruct Ht2 as [[_ ->]|[_ ->]]; [|done].
      by apply (aggregate_stmt_other _ _ ADaily _ _ _ _ _ AHourly). }
  split; [|split].
  - intros [= Hok].
    destruct Ht1 as [[_ Htb1]|[Hbad _]]; [|congruence].
    rewrite Hh3, Htb1. split.
    + intros k.
      exact (aggregate_stmt_bucket_lookup (engine db) TRaw AHourly HourOf
               h2 now EmptyString (tables db) k eq_refl).
    + intros a n.
      exact (aggregate_stmt_whole_bucket TRaw AHourly HourOf h2 now
               (tables db) a n _ Hhw).
  - intros [= Hok] a n.
    destruct Ht2 as [[_ Htb2]|[Hbad _]]; [|congruence].
    rewrite Hd3, Htb2, He1, <- Hd1.
    destruct (engine db).
    + by apply (aggregate_stmt_whole_bucket THourly ADaily DateOf).
    + by apply (aggregate_stmt_column_bucket GroupByColumn THourly ADaily
                  DateOf ys ts (tables db1) (node_metrics_hourly (tables db1))
                  (a, n, ys)).
  - intros [= Hok] a n.
    destruct Ht3 as [[_ Htb3]|[Hbad _]]; [|congruence].
    rewrite Htb3, He2, He1, <- Hm2.
    destruct (engine db).
    + by apply (aggregate_stmt_whole_bucket TDaily AMonthly MonthOf).
    + by apply (aggregate_stmt_column_bucket GroupByColumn TDaily AMonthly
                  MonthOf lms cms (tables db2) (node_metrics_daily (tables db2))
                  (a, n, lms)).
Qed.

Lemma runAggregation_complete_witness :
  ∃ r', r' ∈ rows_of THourly (tables (twoHours GroupByColumn))
        ∧ node_metrics_daily
            (tables (runAggregation 0 at_next_00_00_07
                                    (twoHours GroupByColumn)).1)
            !! ("a1", "n1", yesterdayStart at_next_00_00_07)
          = Some (cnt r').
Proof.
  assert (H0 : 0 ≤ at_next_00_00_07) by (vm_compute; discriminate).
  destruct (runAggregation_complete 0 at_next_00_00_07
              (twoHours GroupByColumn) H0) as (_ & Hday & _).
  specialize (Hday eq_refl "a1" "n1"). cbn [engine twoHours] in Hday.
  match type of Hday with
  | match ?f with _ => _ end => destruct f as [|r0 rs0] eqn:E
  end.
  - vm_compute in E. discriminate E.
  - destruct Hday as (r' & Hin & Heq). exists r'. split; [|exact Heq].
    rewrite <- E in Hin. apply list_elem_of_filter in Hin as [_ Hin].
    exact Hin.
Defined.

(** The hour bucket that the two-hour window cuts: of two raw rows of the
    hour from 08:00, the run of 09:00:07 sums both into the hourly row; the
    run of 10:00:07, whose window starts at 08:00:07, replaces that row by
    the counters of the later raw row alone. *)
Example runAggregation_cuts_bucket :
  let first := runAggregation 0 (at_10_00_07 - Hour) earlyRows in
  let second := runAggregation 0 at_10_00_07 first.1 in
  node_metrics_hourly (tables first.1) !! ("a1", "n1", at_10_00 - 2 * Hour)
  = Some (counters_of_total 12)
  ∧ node_metrics_hourly (tables second.1) !! ("a1", "n1", at_10_00 - 2 * Hour)
    = Some (counters_of_total 7).
Proof. split; vm_compute; reflexivity. Qed.

(** X11: a scheduled run attempts its three roll-ups whatever becomes of
    the earlier ones: it consumes three answers of the driver, the roll-up
    number [i] fails exactly when the answer number [i] is a failure, the
    raw table is never written, and a run in which every roll-up fails
    leaves all tables as they were. *)
Theorem runAggregation_attempts_all clock now db :
  let r := runAggregation clock now db in
  faults r.1 = drop 3 (faults db)
  ∧ engine r.1 = engine db
  ∧ node_metrics_raw (tables r.1) = node_metrics_raw (tables db)
  ∧ (∀ i, (i < 3)%nat →
          r.2 !! i
          = Some (if default false (faults db !! i) then Some ErrDriver
                  else None))
  ∧ (Forall (λ e, e = Some ErrDriver) r.2 → tables r.1 = tables db).
Proof.
  unfold runAggregation.
  generalize (yesterdayStart now) (todayStart now) (lastMonthStart now)
             (currentMonthStart now) (Add now (-2 * Hour)).
  intros ys ts lms cms h2.
  pose proof (AggregateMetrics_run clock EmptyString MetricsGranularityHourly
                h2 now db _ _ _ eq_refl) as (He1 & Hf1 & Ht1 & Hi1).
  destruct (AggregateMetrics clock EmptyString MetricsGranularityHourly
              h2 now db) as [db1 e1].
  cbn [fst snd] in *.
  pose proof (AggregateMetrics_run clock EmptyString MetricsGranularityDaily
                ys ts db1 _ _ _ eq_refl) as (He2 & Hf2 & Ht2 & Hi2).
  destruct (AggregateMetrics clock EmptyString MetricsGranularityDaily
              ys ts db1) as [db2 e2].
  cbn [fst snd] in *.
  pose proof (AggregateMetrics_run clock EmptyString MetricsGranularityMonthly
                lms cms db2 _ _ _ eq_refl) as (He3 & Hf3 & Ht3 & Hi3).
  destruct (AggregateMetrics clock EmptyString MetricsGranularityMonthly
              lms cms db2) as [db3 e3].
  cbn [fst snd] in *.
  split; [|split; [congruence|split; [|split]]].
  - rewrite Hf3, Hf2, Hf1. by destruct (faults db) as [|? [|? [|? ?]]].
  - transitivity (node_metrics_raw (tables db2));
      [|transitivity (node_metrics_raw (tables db1))].
    + destruct Ht3 as [[_ ->]|[_ ->]]; [apply aggregate_stmt_raw|done].
    + destruct Ht2 as [[_ ->]|[_ ->]]; [apply aggregate_stmt_raw|done].
    + destruct Ht1 as [[_ ->]|[_ ->]]; [apply aggregate_stmt_raw|done].
  - assert (Hcase : ∀ (e : option error) (fs : list bool),
              (e = None ∨ e = Some ErrDriver) →
              (e = Some ErrDriver ↔ head fs = Some true) →
              e = if default false (head fs) then Some ErrDriver else None).
    { intros e [|[] fs] [->| ->] Hiff; cbn in *; try done;
        try (by pose proof (proj1 Hiff eq_refl));
        by pose proof (proj2 Hiff eq_refl). }
    assert (H1 : e1 = None ∨ e1 = Some ErrDriver)
      by (destruct Ht1 as [[-> _]|[-> _]]; auto).
    assert (H2 : e2 = None ∨ e2 = Some ErrDriver)
      by (destruct Ht2 as [[-> _]|[-> _]]; auto).
    assert (H3 : e3 = None ∨ e3 = Some ErrDriver)
      by (destruct Ht3 as [[-> _]|[-> _]]; auto).
    pose proof (Hcase _ _ H1 Hi1) as ->.
    pose proof (Hcase _ _ H2 Hi2) as ->.
    pose proof (Hcase _ _ H3 Hi3) as ->.
    rewrite Hf2, Hf1.
    intros [|[|[|i]]] Hi; [| | |lia]; cbn;
      by destruct (faults db) as [|? [|? [|? ?]]].
  - intros Hall.
    apply Forall_cons in Hall as [-> Hall].
    apply Forall_cons in Hall as [-> Hall].
    apply Forall_cons in Hall as [-> _].
    destruct Ht3 as [[[=] _]|[_ ->]].
    destruct Ht2 as [[[=] _]|[_ ->]].
    by destruct Ht1 as [[[=] _]|[_ ->]].
Qed.

End Scheduler_runs.

(** ** The health-history endpoint *)
Section Health_history.
Import Stdlib.Strings.Ascii GoTime HealthHistory.
Local Open Scope Z_scope.

Lemma HasPrefix_true s p : HasPrefix s p = true → s = p ++ drop (length p) s.
Proof.
  unfold HasPrefix. intros [_ H]%bool_decide_eq_true.
  rewrite <- (take_drop (length p) s) at 1. by rewrite H.
Qed.

Lemma HasSuffix_true s p :
  HasSuffix s p = true → s = take (length s - length p) s ++ p.
Proof.
  unfold HasSuffix. intros [_ H]%bool_decide_eq_true.
  rewrite <- (take_drop (length s - length p) s) at 1. by rewrite H.
Qed.

Lemma HasPrefix_app p x : HasPrefix (p ++ x) p = true.
Proof.
  unfold HasPrefix. apply bool_decide_eq_true. split.
  - rewrite length_app. lia.
  - by rewrite take_app_length.
Qed.

Lemma HasSuffix_app x p : HasSuffix (x ++ p) p = true.
Proof.
  unfold HasSuffix. apply bool_decide_eq_true. rewrite length_app. split.
  - lia.
  - replace (length x + length p - length p)%nat with (length x) by lia.
    by rewrite drop_app_length.
Qed.

Lemma TrimPrefix_app p x : TrimPrefix (p ++ x) p = x.
Proof.
  unfold TrimPrefix. by rewrite HasPrefix_app, drop_app_length.
Qed.

Lemma TrimSuffix_app x p : TrimSuffix (x ++ p) p = x.
Proof.
  unfold TrimSuffix. rewrite HasSuffix_app, length_app.
  replace (length x + length p - length p)%nat with (length x) by lia.
  by rewrite take_app_length.
Qed.

Lemma TrimSuffix_cases s p :
  (HasSuffix s p = true ∧ s = TrimSuffix s p ++ p)
  ∨ (HasSuffix s p = false ∧ TrimSuffix s p = s).
Proof.
  unfold TrimSuffix. destruct (HasSuffix s p) eqn:H; [left|by right].
  split; [done|]. by apply HasSuffix_true.
Qed.

(** The only path that ends with the suffix although what follows the
    prefix does not: prefix and suffix share the slash. *)
Lemma overlap rest :
  HasSuffix (nodesPrefix ++ rest) historySuffix = true →
  HasSuffix rest historySuffix = false →
  rest = bytes "health-history".
Proof.
  unfold HasSuffix. intros [Hlen Hs]%bool_decide_eq_true Hn.
  apply bool_decide_eq_false in Hn.
  rewrite length_app in Hlen, Hs.
  change (length nodesPrefix) with 11%nat in *.
  change (length historySuffix) with 15%nat in *.
  destruct (decide (15 ≤ length rest)%nat) as [Hge|Hlt].
  { destruct Hn. split; [done|].
    rewrite drop_app_ge in Hs by (change (length nodesPrefix) with 11%nat; lia).
    change (length nodesPrefix) with 11%nat in Hs.
    by replace (11 + length rest - 15 - 11)%nat with (length rest - 15)%nat
      in Hs by lia. }
  clear Hn.
  assert (Hj : ∃ j, (j ≤ 10)%nat ∧ length rest = (j + 4)%nat)
    by (exists (length rest - 4)%nat; lia).
  destruct Hj as (j & Hj & Hl). rewrite Hl in Hs.
  replace (11 + (j + 4) - 15)%nat with j in Hs by lia.
  rewrite drop_app_le in Hs by (change (length nodesPrefix) with 11%nat; lia).
  do 11 (destruct j as [|j]; [try discriminate Hs|]); [|lia].
  by injection Hs.
Qed.

(** X12: a path the extraction accepts is the prefix [/api/nodes/], the
    returned id and the suffix [/health-history], with at most one more
    slash before the suffix; or it is [/api/nodes/health-history], where
    prefix and suffix share a slash, and the id is [health-history].  The
    id is never empty. *)
Theorem extractNodeID_sound path id :
  extractNodeIDFromHealthHistoryPath path = (id, true) →
  id ≠ []
  ∧ (path = nodesPrefix ++ id ++ historySuffix
     ∨ path = nodesPrefix ++ id ++ slash ++ historySuffix
     ∨ (path = bytes "/api/nodes/health-history"
        ∧ id = bytes "health-history")).
Proof.
  unfold extractNodeIDFromHealthHistoryPath.
  destruct (HasPrefix path nodesPrefix) eqn:Hp; [|intros [=]].
  destruct (HasSuffix path historySuffix) eqn:Hs; [|intros [=]].
  cbn [negb orb]. unfold TrimPrefix. rewrite Hp.
  apply HasPrefix_true in Hp.
  set (rest := drop (length nodesPrefix) path) in *. clearbody rest. subst path.
  destruct (decide (TrimSuffix (TrimSuffix rest historySuffix) slash = []))
    as [|Hne]; [intros [=]|].
  intros [= <-]. split; [done|].
  destruct (TrimSuffix_cases rest historySuffix) as [[_ Hr]|[Hno Hr]].
  - set (mid := TrimSuffix rest historySuffix) in *. clearbody mid.
    rewrite Hr at 1 2.
    destruct (TrimSuffix_cases mid slash) as [[_ Hm]|[_ ->]].
    + right. left. rewrite Hm at 1. by rewrite <- !(assoc_L (++)).
    + by left.
  - right. right. rewrite Hr in *.
    pose proof (overlap rest Hs Hno) as ->. done.
Qed.

Lemma extractNodeID_sound_witness :
  bytes "/api/nodes/n1//health-history"
  = nodesPrefix ++ bytes "n1" ++ historySuffix
  ∨ bytes "/api/nodes/n1//health-history"
    = nodesPrefix ++ bytes "n1" ++ slash ++ historySuffix
  ∨ (bytes "/api/nodes/n1//health-history" = bytes "/api/nodes/health-history"
     ∧ bytes "n1" = bytes "health-history").
Proof.
  exact (proj2 (extractNodeID_sound (bytes "/api/nodes/n1//health-history")
                  (bytes "n1") eq_refl)).
Defined.

(** X13: every non-empty id that does not end with a slash is extracted
    from its path. *)
Theorem extractNodeID_complete id :
  id ≠ [] → last id ≠ Some "/"%char →
  extractNodeIDFromHealthHistoryPath (nodesPrefix ++ id ++ historySuffix)
  = (id, true).
Proof.
  intros Hne Hlast. unfold extractNodeIDFromHealthHistoryPath.
  rewrite HasPrefix_app.
  rewrite (assoc_L (++)), HasSuffix_app. cbn [negb orb].
  rewrite <- (assoc_L (++)), TrimPrefix_app, TrimSuffix_app.
  assert (Hs : TrimSuffix id slash = id).
  { unfold TrimSuffix, HasSuffix.
    rewrite bool_decide_eq_false_2; [done|]. intros [Hl Hd].
    apply Hlast. rewrite last_lookup.
    change (length slash) with 1%nat in *.
    replace (Nat.pred (length id)) with (length id - 1)%nat by lia.
    rewrite <- (take_drop (length id - 1) id) at 2.
    rewrite lookup_app_r by (rewrite length_take; lia).
    rewrite length_take, Hd.
    by replace (length id - 1 - (length id - 1) `min` length id)%nat
      with 0%nat by lia. }
  rewrite Hs. by rewrite decide_False.
Qed.

Lemma extractNodeID_complete_witness :
  extractNodeIDFromHealthHistoryPath
    (nodesPrefix ++ bytes "a/b" ++ historySuffix) = (bytes "a/b", true).
Proof.
  apply (extractNodeID_complete (bytes "a/b")); [discriminate|].
  vm_compute. discriminate.
Defined.

Lemma queryLimit_bounds v : 1 ≤ queryLimit v ≤ 2000.
Proof.
  unfold queryLimit. destruct (decide (v = [])) as [|Hv]; [done|].
  destruct (Atoi v) as [n|]; [|done].
  destruct (Z.ltb_spec 0 n); [|done].
  destruct (Z.ltb_spec 2000 n); lia.
Qed.

Lemma queryOffset_bounds v : 0 ≤ queryOffset v.
Proof.
  unfold queryOffset. destruct (decide (v = [])) as [|Hv]; [done|].
  destruct (Atoi v) as [n|]; [|done].
  destruct (Z.leb_spec 0 n); [done|lia].
Qed.

(** X14: the handler answers 200 only to a GET of an accepted path by a
    session that is an admin's or has the account of the node, and then it
    has put two queries to the store with the same parameters: the account
    of the node (not of the caller), the extracted id, a window that does
    not end before it starts, a limit between 1 and 2000 and a non-negative
    offset, whatever the query string said; the answer carries the count
    and one entry per record. *)
Theorem handleGetHealthHistory_ok p r resp :
  handleGetHealthHistory p r = resp → status resp = 200 →
  Method r = "GET" ∧ storeEnabled p = true
  ∧ ∃ callerID params records total,
      extractNodeIDFromHealthHistoryPath (Path r) = (pNodeID params, true)
      ∧ caller r = Some callerID
      ∧ getNode p (pNodeID params) = Some (pAccountID params)
      ∧ (admin r = true ∨ pAccountID params = callerID)
      ∧ pFrom params ≤ pTo params
      ∧ 1 ≤ pLimit params ≤ 2000 ∧ 0 ≤ pOffset params
      ∧ QueryHealthChecks p params = inl records
      ∧ CountHealthChecks p params = inl total
      ∧ body resp
        = HistoryJSON (pNodeID params) (formatRFC3339 (pFrom params))
                      (formatRFC3339 (pTo params)) total
                      (check_json <$> records).
Proof.
  intros <-. unfold handleGetHealthHistory.
  destruct (bool_decide (Method r = "GET")) eqn:Hm; [|intros [=]].
  apply bool_decide_eq_true in Hm. cbn [negb].
  destruct (storeEnabled p) eqn:Hst; [|intros [=]]. cbn [negb].
  destruct (extractNodeIDFromHealthHistoryPath (Path r)) as [id [|]] eqn:Hx;
    [|intros [=]].
  destruct (caller r) as [c|] eqn:Hc; [|intros [=]].
  destruct (getNode p id) as [acct|] eqn:Hn; [|intros [=]].
  destruct (negb (admin r) && negb (bool_decide (acct = c))) eqn:Hacc;
    [intros [=]|].
  destruct (parseTime p (queryTo r)) as [to|]; [|intros [=]].
  destruct (parseTime p (queryFrom r)) as [from|]; [|intros [=]].
  cbn zeta.
  set (to' := if IsZero to then now p else to).
  set (from' := if IsZero from then Add to' (-24 * Hour) else from).
  destruct (After from' to') eqn:Haf; [intros [=]|].
  set (params := Build_QueryHealthCheckParams _ _ _ _ _ _).
  destruct (QueryHealthChecks p params) as [records|e1] eqn:Hq; [|intros [=]].
  destruct (CountHealthChecks p params) as [total|e2] eqn:Hcnt; [|intros [=]].
  intros _. split; [done|]. split; [done|].
  exists c, params, records, total. subst params. cbn.
  repeat split; try done.
  - apply andb_false_iff in Hacc as [H|H]; apply negb_false_iff in H.
    + by left.
    + right. by apply bool_decide_eq_true in H.
  - unfold After in Haf. by apply Z.ltb_ge in Haf.
  - apply queryLimit_bounds.
  - apply queryLimit_bounds.
  - apply queryOffset_bounds.
Qed.

Lemma handleGetHealthHistory_ok_witness :
  Method sampleRequest = "GET" ∧ storeEnabled sampleServer = true.
Proof.
  destruct (handleGetHealthHistory_ok sampleServer sampleRequest _
              eq_refl eq_refl) as (H1 & H2 & _).
  exact (conj H1 H2).
Defined.

(** The sample request: the limit 5000 is cut to 2000, the offset -3
    becomes 0, the window is the last 24 hours of the clock. *)
Example handleGetHealthHistory_sample :
  handleGetHealthHistory sampleServer sampleRequest
  = {| status := 200;
       body := HistoryJSON (bytes "n1") (1764064800 - 86400) 1764064800 0 [] |}
  ∧ queryLimit (limitParam sampleRequest) = 2000
  ∧ queryOffset (offsetParam sampleRequest) = 0.
Proof. vm_compute. done. Qed.

End Health_history.

(** ** The settings handler: what each answer means *)
Section Settings_handler_more.
Import Settings SettingsHandler.
Local Open Scope Z_scope.
Context {S : Type} `{SettingsStore S}.

(** X15: the answers of [UpdateSetting] read backwards.  A 200 comes from
    an admin's well-formed request and from exactly one accepted write: a
    create through [UpsertSetting] when no row was found, or an
    [UpdateSetting] of the store when the request carried the version of
    the row found, a version other than 0; its [new_version] is the version
    the store left in the setting.  A 409 always carries the version of the
    row read at the start: either the versions differ and nothing was
    written, or they agree and the store itself reported the conflict, so
    that [current_version] is the very version the request sent.  A 400 or
    a 403 never writes. *)
Theorem UpdateSetting_outcomes (st : S) (r : Request) (key : string)
    (resp : Response) (st' : option S) :
  SettingsHandler.UpdateSetting (Some st) r key = (resp, st') →
  (Status resp = 200 →
   isAdmin r = true
   ∧ ∃ req st1 written,
       Body r = Some req ∧ st' = Some st1
       ∧ Payload resp = SuccessJSON (Version written)
       ∧ let res := GetSetting st key (requestScope req) (requestAccount req) in
         (found_none res
          ∧ UpsertSetting st (newSetting key req) = (st1, written, None))
         ∨ (∃ existing,
              found existing res
              ∧ reqVersion req = Version existing ∧ reqVersion req ≠ 0
              ∧ Settings.UpdateSetting st (changedSetting key req existing)
                = (st1, written, None)))
  ∧ (Status resp = 409 →
     ∃ req existing,
       Body r = Some req
       ∧ found existing
           (GetSetting st key (requestScope req) (requestAccount req))
       ∧ Payload resp = ConflictJSON (Version existing)
       ∧ (reqVersion req ≠ Version existing ∧ st' = Some st
          ∨ reqVersion req = Version existing
            ∧ Payload resp = ConflictJSON (reqVersion req)
            ∧ ∃ st1 s1,
                Settings.UpdateSetting st (changedSetting key req existing)
                = (st1, s1, Some ErrVersionConflict)
                ∧ st' = Some st1))
  ∧ (Status resp = 400 ∨ Status resp = 403 → st' = Some st).
Proof.
  unfold SettingsHandler.UpdateSetting.
  destruct (isAdmin r) eqn:Hadm; cbn [negb];
    [|intros [= <- <-]; cbn; intuition discriminate].
  destruct (Body r) as [req|] eqn:Hbody;
    [|intros [= <- <-]; cbn; intuition discriminate].
  destruct (GetSetting st key (requestScope req) (requestAccount req))
    as [existing err] eqn:Hget.
  assert (Hfound : ∀ e, existing = Some e →
            err = None ∨ err = Some ErrNotFound →
            found e (existing, err))
    by (intros e -> [-> | ->]; [by left|by right]).
  assert (Hnone : existing = None →
            err = None ∨ err = Some ErrNotFound →
            found_none (existing, err))
    by (intros -> [-> | ->]; [by left|by right]).
  assert (Herr : (err = None ∨ err = Some ErrNotFound)
                 ∨ err = Some ErrVersionConflict ∨ ∃ t, err = Some (ErrOther t)).
  { destruct err as [[| |t]|]; eauto. }
  destruct Herr as [Hmiss|[-> |[t ->]]];
    try (intros [= <- <-]; cbn; intuition discriminate).
  pose proof (λ e He, Hfound e He Hmiss) as Hf.
  pose proof (λ He, Hnone He Hmiss) as Hn. clear Hfound Hnone.
  destruct Hmiss as [Herr|Herr]; rewrite Herr in *; clear Herr;
    (destruct existing as [existing|];
     [ specialize (Hf existing eq_refl); clear Hn;
       destruct (Z.eqb_spec (reqVersion req) 0) as [Hv0|Hv0];
       [ intros [= <- <-]; cbn; intuition discriminate
       | destruct (Z.eqb_spec (reqVersion req) (Version existing)) as [Hv|Hv];
         cbn [negb];
         [ destruct (Settings.UpdateSetting st
                       (changedSetting key req existing))
             as [[st1 s1] [[| |t]|]] eqn:Hup; intros [= <- <-]; cbn;
           (split; [|split]); try (intros; discriminate);
           try (intros [|]; discriminate);
           [ intros _; exists req, existing; rewrite Hget;
             split; [done|]; split; [done|]; split; [done|];
             right; split; [done|]; split; [by rewrite Hv|];
             by exists st1, s1
           | intros _; split; [done|]; exists req, st1, s1;
             cbn zeta; rewrite Hget;
             split; [done|]; split; [done|]; split; [done|];
             right; by exists existing ]
         | intros [= <- <-]; cbn; (split; [|split]);
           try (intros; discriminate); try (intros [|]; discriminate);
           intros _; exists req, existing; rewrite Hget;
           split; [done|]; split; [done|]; split; [done|]; by left ] ]
     | specialize (Hn eq_refl); clear Hf;
       destruct (UpsertSetting st (newSetting key req)) as [[st1 s1] [e|]]
         eqn:Hup; intros [= <- <-]; cbn;
       (split; [|split]); try (intros; discriminate);
       try (intros [|]; discriminate);
       intros _; split; [done|]; exists req, st1, s1;
       cbn zeta; rewrite Hget;
       split; [done|]; split; [done|]; split; [done|]; by left ]).
Qed.

End Settings_handler_more.

Section Settings_more_examples.
Import Settings SettingsHandler.
Local Open Scope Z_scope.

Lemma UpdateSetting_outcomes_witness :
  (SettingsHandler.UpdateSetting (Some storeAt3) (putRequest 0) "k").2
  = Some storeAt3.
Proof.
  exact (proj2 (proj2 (UpdateSetting_outcomes (S := MemStore) storeAt3
                         (putRequest 0) "k" _ _ (surjective_pairing _)))
               (or_introl eq_refl)).
Defined.

End Settings_more_examples.

(** ** The settings cache *)
Section Settings_cache.
Import Settings SettingsCache.
Local Open Scope Z_scope.

Lemma notifyChange_data k v c : data (notifyChange k v c) = data c.
Proof. done. Qed.

Lemma notifyChange_onChange k v c : onChange (notifyChange k v c) = onChange c.
Proof. done. Qed.

Lemma notify_all_changed (l : list (string * any)) c :
  let c' := foldl (λ c kv, notifyChange kv.1 kv.2 c) c l in
  data c' = data c ∧ version c' = version c ∧ onChange c' = onChange c
  ∧ called c'
    = called c
      ++ (l ≫= λ kv, (λ i, (i, kv.1, kv.2)) <$> seq 0 (onChange c)).
Proof.
  revert c. induction l as [|kv l IH]; intros c; cbn.
  { by rewrite app_nil_r. }
  destruct (IH (notifyChange kv.1 kv.2 c)) as (Hd & Hv & Ho & Hc).
  cbn zeta in *. rewrite Hd, Hv, Ho, Hc. cbn.
  by rewrite <- (assoc_L (++)).
Qed.

Lemma notify_all_removed (l : list string) c :
  let c' := foldl (λ c k, notifyChange k AnyNil c) c l in
  data c' = data c ∧ version c' = version c ∧ onChange c' = onChange c
  ∧ called c'
    = called c ++ (l ≫= λ k, (λ i, (i, k, AnyNil)) <$> seq 0 (onChange c)).
Proof.
  revert c. induction l as [|k l IH]; intros c; cbn.
  { by rewrite app_nil_r. }
  destruct (IH (notifyChange k AnyNil c)) as (Hd & Hv & Ho & Hc).
  cbn zeta in *. rewrite Hd, Hv, Ho, Hc. cbn.
  by rewrite <- (assoc_L (++)).
Qed.

(** X16: [Refresh] replaces the cached values by the listed ones and calls
    the callbacks for exactly the keys whose cached value is not what it
    was: every callback is called for such a key, with the new value, or
    with nil when the key is gone, and no callback is called for a key whose
    value is unchanged.  The calls made before stay in the history. *)
Theorem Refresh_notifies settings c :
  let c' := Refresh (Some settings) c in
  data c' = newData settings
  ∧ onChange c' = onChange c
  ∧ ∃ calls,
      called c' = called c ++ calls
      ∧ ∀ i k v,
          (i, k, v) ∈ calls
          ↔ (i < onChange c)%nat
            ∧ data c !! k ≠ data c' !! k
            ∧ v = default AnyNil (data c' !! k).
Proof.
  unfold Refresh, reload. cbn zeta.
  set (new := newData settings).
  set (c1 := Build_SettingsCache new _ _ _).
  destruct (notify_all_changed (changed (data c) new) c1)
    as (Hd2 & Hv2 & Ho2 & Hc2). cbn zeta in *.
  set (c2 := foldl _ c1 (changed (data c) new)) in *.
  destruct (notify_all_removed (removed (data c) new) c2)
    as (Hd3 & Hv3 & Ho3 & Hc3). cbn zeta in *.
  set (c3 := foldl _ c2 (removed (data c) new)) in *.
  rewrite Hd3, Hd2, Ho3, Ho2. split; [done|]. split; [done|].
  eexists. split.
  { rewrite Hc3, Hc2, Ho2. cbn. by rewrite <- (assoc_L (++)). }
  cbn [onChange data c1].
  intros i k v. rewrite elem_of_app, !list_elem_of_bind. split.
  - intros [([k0 v0] & Hin & Hkv)|(k' & Hin & Hk')].
    + apply list_elem_of_fmap in Hin as (j & [= -> -> ->] & Hj).
      apply elem_of_seq in Hj.
      apply list_elem_of_filter in Hkv as [Hne Hkv].
      apply elem_of_map_to_list in Hkv. cbn in *.
      rewrite Hkv. split; [lia|]. split; [|done]. congruence.
    + apply list_elem_of_fmap in Hin as (j & [= -> -> ->] & Hj).
      apply elem_of_seq in Hj.
      apply list_elem_of_fmap in Hk' as ([k'' v'] & -> & Hk').
      apply list_elem_of_filter in Hk' as [Hnone Hk'].
      apply elem_of_map_to_list in Hk'. cbn in *.
      rewrite Hnone, Hk'. split; [lia|]. done.
  - intros (Hi & Hne & ->).
    destruct (new !! k) as [v|] eqn:Hnew.
    + left. exists (k, v). split.
      * apply list_elem_of_fmap. exists i. split; [done|].
        apply elem_of_seq. lia.
      * apply list_elem_of_filter. split; [done|].
        by apply elem_of_map_to_list.
    + right. exists k. split.
      * apply list_elem_of_fmap. exists i. split; [done|].
        apply elem_of_seq. lia.
      * destruct (data c !! k) as [old|] eqn:Hold; [|done].
        apply list_elem_of_fmap. exists (k, old). split; [done|].
        apply list_elem_of_filter. split; [done|].
        by apply elem_of_map_to_list.
Qed.

Lemma maxInt64_ge a b : a ≤ maxInt64 a b ∧ b ≤ maxInt64 a b.
Proof. unfold maxInt64. destruct (Z.ltb_spec b a); lia. Qed.

(** X17: [UpdateLocal], and a [Set] the store accepts, leave the value in
    the cache under its key, leave the other keys alone, call every
    callback once with the key and the value, and never lower the version
    (for [Set], as long as the version is below the largest 64-bit value,
    where the increment would wrap). *)
Theorem cache_write {St} `{SettingsStore St} (st : St) key value ver c :
  version c < 2 ^ 63 - 1 →
  let written c' :=
    Get c' key = Some value
    ∧ (∀ k, k ≠ key → Get c' k = Get c k)
    ∧ version c ≤ version c'
    ∧ called c'
      = called c ++ ((λ i, (i, key, value)) <$> seq 0 (onChange c)) in
  written (UpdateLocal key value ver c)
  ∧ ∀ st' c', Set_ (Some st) key value c = (None, st', c') → written c'.
Proof.
  intros Hv written. subst written. cbn beta. split.
  - unfold UpdateLocal, Get. cbn. rewrite lookup_insert_eq.
    split; [done|]. split; [by intros; rewrite lookup_insert_ne|].
    split; [|done].
    destruct (Z.ltb_spec 0 ver); [apply maxInt64_ge|lia].
  - intros st' c'. unfold Set_.
    destruct (UpsertSetting st (systemSetting key value)) as [[st1 s] [e|]];
      [intros [=]|].
    intros [= _ <-]. unfold Get. cbn. rewrite lookup_insert_eq.
    split; [done|]. split; [by intros; rewrite lookup_insert_ne|].
    split; [|done].
    destruct (Z.ltb_spec 0 (Version s)); [apply maxInt64_ge|].
    unfold Store.add64, Store.wrap64.
    destruct (Z.le_gt_cases (- 2 ^ 63) (version c)).
    + rewrite Z.mod_small by lia. lia.
    + pose proof (Z.mod_pos_bound (version c + 1 + 2 ^ 63) (2 ^ 64)
                    ltac:(lia)). lia.
Qed.

Lemma cache_write_witness :
  Get (UpdateLocal "a" (AnyNumber 2) 9 cacheAt7) "a" = Some (AnyNumber 2)
  ∧ version cacheAt7 ≤ version (UpdateLocal "a" (AnyNumber 2) 9 cacheAt7).
Proof.
  destruct (cache_write (St := MemStore) emptyStore "a" (AnyNumber 2) 9
              cacheAt7 ltac:(done)) as [(H1 & _ & H3 & _) _].
  exact (conj H1 H3).
Defined.

(** [Refresh], unlike the writes, can lower the version: the listed
    settings decide. *)
Example Refresh_lowers_version :
  version (Refresh (Some [settingOf "a" (AnyNumber 1) 3]) cacheAt7) = 3
  ∧ called (Refresh (Some [settingOf "a" (AnyNumber 1) 3]) cacheAt7)
    = [(0%nat, "b", AnyNil)].
Proof. vm_compute. done. Qed.

End Settings_cache.

(** ** The hub: what follows a close *)
Section Hub_more.
Import Hub HubSamples HubHistory.

Lemma trySend_unregister_cap data c h :
  length (unregister h) ≤ unregisterCap →
  length (unregister (hub_of (trySend data c h))) ≤ unregisterCap.
Proof.
  intros Hcap. unfold trySend. destruct (closed (chan_of h c)); [done|].
  repeat case_decide; cbn; try done. rewrite length_app. cbn. lia.
Qed.

Lemma sendLoop_unregister_cap data order h :
  length (unregister h) ≤ unregisterCap →
  length (unregister (hub_of (sendLoop data order h))) ≤ unregisterCap.
Proof.
  revert h. induction order as [|c rest IH]; intros h Hcap; [done|].
  cbn [sendLoop]. pose proof (trySend_unregister_cap data c h Hcap) as H.
  destruct (trySend data c h) as [h'|h'|h']; cbn in *; [by apply IH|done|done].
Qed.

Lemma removeClient_unregister client h :
  unregister (hub_of (removeClient client h)) = unregister h.
Proof.
  destruct client as [c|]; [|done]. unfold removeClient.
  destruct (clients h !! accountID c) as [cs|]; [|done].
  case_decide; [|done]. cbn zeta.
  destruct (closed _); [done|]. by case_decide.
Qed.

Lemma step_unregister_cap h ev :
  length (unregister h) ≤ unregisterCap →
  length (unregister (hub_of (step h ev))) ≤ unregisterCap.
Proof.
  intros Hcap. destruct ev as [acct| |c| |m order|c]; cbn [step].
  - by case_decide.
  - by destruct (register h).
  - case_decide; cbn; [|done]. rewrite length_app. cbn. lia.
  - destruct (unregister h) as [|c q] eqn:Hq.
    { cbn. rewrite Hq. cbn. unfold unregisterCap. lia. }
    rewrite removeClient_unregister. cbn in *. lia.
  - case_decide; [|done]. unfold broadcastToAccount.
    destruct m as [msg|]; [|done]. case_decide; [done|].
    destruct (json_Marshal msg); [|done].
    by apply sendLoop_unregister_cap.
  - by destruct (buf (chan_of h c)).
Qed.

(** The channel [unregister] never holds more than its capacity. *)
Lemma run_unregister_cap h evs :
  length (unregister h) ≤ unregisterCap →
  length (unregister (hub_of (run h evs))) ≤ unregisterCap.
Proof.
  revert h. induction evs as [|ev evs IH]; intros h Hcap; [done|].
  cbn [run]. pose proof (step_unregister_cap h ev Hcap) as H.
  destruct (step h ev) as [h'|h'|h']; cbn in *; [by apply IH|done|done].
Qed.

Lemma trySend_history data c' h :
  closeLog (hub_of (trySend data c' h)) = closeLog h
  ∧ (delivered (hub_of (trySend data c' h)) = delivered h
     ∨ delivered (hub_of (trySend data c' h)) = delivered h ++ [(c', data)]).
Proof.
  unfold trySend. destruct (closed (chan_of h c')); [by auto|].
  repeat case_decide; cbn; auto.
Qed.

Lemma sendLoop_history data order h c :
  c ∉ order →
  closeLog (hub_of (sendLoop data order h)) = closeLog h
  ∧ delivered_to c (hub_of (sendLoop data order h)) = delivered_to c h.
Proof.
  revert h. induction order as [|c' rest IH]; intros h Hc; [done|].
  apply not_elem_of_cons in Hc as [Hne Hc].
  cbn [sendLoop]. destruct (trySend_history data c' h) as [Hcl Hd].
  assert (Hd' : delivered_to c (hub_of (trySend data c' h)) = delivered_to c h).
  { unfold delivered_to. destruct Hd as [->| ->]; [done|].
    rewrite filter_app, filter_cons, decide_False by (cbn; congruence).
    by rewrite filter_nil, app_nil_r. }
  destruct (trySend data c' h) as [h'|h'|h']; cbn [hub_of] in *;
    [|done|done].
  destruct (IH h' Hc) as [-> ->]. done.
Qed.

Lemma removeClient_history client h c :
  c ∈ closeLog h →
  c ∈ closeLog (hub_of (removeClient client h))
  ∧ delivered (hub_of (removeClient client h)) = delivered h.
Proof.
  intros Hc. destruct client as [c'|]; [|done]. unfold removeClient.
  destruct (clients h !! accountID c') as [cs|]; [|done].
  case_decide; [|done]. cbn zeta.
  destruct (closed _); [cbn; split; [by right|done]|].
  case_decide; cbn; (split; [by right|done]).
Qed.

Lemma step_history h ev c :
  Inv h → c ∈ closeLog h →
  c ∈ closeLog (hub_of (step h ev))
  ∧ delivered_to c (hub_of (step h ev)) = delivered_to c h.
Proof.
  intros Hinv Hc. destruct ev as [acct| |c'| |m order|c']; cbn [step].
  - by case_decide.
  - by destruct (register h).
  - by case_decide.
  - destruct (unregister h) as [|c' q]; [done|].
    destruct (removeClient_history c' (set_unregister q h) c Hc) as [H1 H2].
    split; [done|]. unfold delivered_to. by rewrite H2.
  - case_decide as Hord; [|done]. unfold broadcastToAccount.
    destruct m as [msg|]; [|done]. case_decide; [done|].
    destruct (json_Marshal msg) as [data|]; [|done].
    destruct Hord as [_ Hset].
    assert (Hno : c ∉ order).
    { intros Hin.
      assert (Hmem : c ∈ clients_of h (AccountID msg))
        by (rewrite <- Hset; by apply elem_of_list_to_set).
      unfold clients_of in Hmem.
      destruct (clients h !! AccountID msg) as [cs|] eqn:Hcs;
        [|by apply not_elem_of_empty in Hmem].
      destruct (inv_member _ Hinv _ _ _ Hcs Hmem) as (_ & Hopen & _).
      destruct (inv_closeLog _ Hinv _ Hc) as [Hclosed _]. congruence. }
    destruct (sendLoop_history data order h c Hno) as [-> ->]. done.
  - by destruct (buf (chan_of h c')).
Qed.

Lemma run_history h evs c :
  Inv h → c ∈ closeLog h →
  c ∈ closeLog (hub_of (run h evs))
  ∧ delivered_to c (hub_of (run h evs)) = delivered_to c h.
Proof.
  revert h. induction evs as [|ev evs IH]; intros h Hinv Hc; [done|].
  cbn [run]. destruct (step_Inv h ev Hinv) as [_ Hinv'].
  destruct (step_history h ev c Hinv Hc) as [Hc' Hd'].
  destruct (step h ev) as [h'|h'|h']; cbn [hub_of] in *; [|done|done].
  destruct (IH h' Hinv' Hc') as [H1 H2]. split; [done|]. by rewrite H2.
Qed.

(** X19: nothing follows a close.  Once the [send] channel of a client has
    been closed, in every continuation of the execution the channel stays
    closed, the client is in no set of the map, and the history records no
    further frame for it. *)
Theorem no_frame_after_close evs1 evs2 c :
  c ∈ closeLog (hub_of (run NewWSHub evs1)) →
  let h := hub_of (run NewWSHub (evs1 ++ evs2)) in
  delivered_to c h = delivered_to c (hub_of (run NewWSHub evs1))
  ∧ closed (chan_of h c) = true
  ∧ ∀ acct cs, clients h !! acct = Some cs → c ∉ cs.
Proof.
  intros Hc h.
  destruct (run_Inv NewWSHub evs1 Inv_NewWSHub) as [_ Hinv1].
  destruct (run_Inv NewWSHub (evs1 ++ evs2) Inv_NewWSHub) as [_ Hinv].
  fold h in Hinv.
  assert (Hh : c ∈ closeLog h
               ∧ delivered_to c h
                 = delivered_to c (hub_of (run NewWSHub evs1))).
  { subst h. rewrite run_app.
    destruct (run NewWSHub evs1) as [h1|h1|h1]; cbn [hub_of] in *;
      [|done|done].
    by apply run_history. }
  destruct Hh as [Hlog Hd]. split; [done|].
  destruct (inv_closeLog _ Hinv _ Hlog) as [Hclosed _]. split; [done|].
  intros acct cs Hcs Hin.
  destruct (inv_member _ Hinv _ _ _ Hcs Hin) as (_ & Hopen & _). congruence.
Qed.

Lemma no_frame_after_close_witness :
  delivered_to (client 1 "a1")
    (hub_of (run NewWSHub (closedThenBroadcast.1 ++ closedThenBroadcast.2)))
  = delivered_to (client 1 "a1")
      (hub_of (run NewWSHub closedThenBroadcast.1)).
Proof.
  apply (no_frame_after_close closedThenBroadcast.1 closedThenBroadcast.2
           (client 1 "a1")).
  vm_compute. apply list_elem_of_here.
Defined.

End Hub_more.

(** ** The hub: a broadcast amid the other goroutines *)
Section Hub_amid.
Import Hub HubSamples HubHistory HubAmid.

(** Without the others, the loop is the loop of the atomic model. *)
Lemma sendLoopAmid_alone data order h :
  sendLoopAmid data ((λ c, ([], c)) <$> order) h = sendLoop data order h.
Proof.
  revert h. induction order as [|c rest IH]; intros h; [done|].
  cbn. destruct (trySend data c h); [apply IH|done|done].
Qed.

Lemma activity_step h a :
  Inv h → length (unregister h) ≤ unregisterCap →
  Inv (hub_of (step h (event_of a)))
  ∧ clients (hub_of (step h (event_of a))) = clients h
  ∧ delivered (hub_of (step h (event_of a))) = delivered h
  ∧ length (unregister (hub_of (step h (event_of a)))) ≤ unregisterCap
  ∧ ∀ c, length (buf (chan_of (hub_of (step h (event_of a))) c))
         ≤ length (buf (chan_of h c)).
Proof.
  intros Hinv Hcap.
  split; [by apply step_Inv|].
  split; [|split; [|split; [by apply step_unregister_cap|]]].
  - destruct a; cbn [event_of step]; [by case_decide|by case_decide|].
    by destruct (buf _).
  - destruct a; cbn [event_of step]; [by case_decide|by case_decide|].
    by destruct (buf _).
  - intros c0. destruct a as [acct|c|c]; cbn [event_of step].
    + case_decide; [|done]. cbn [hub_of]. unfold connect.
      change (chan_of (set_nextConn _ (set_register _ ?h0)) c0)
        with (chan_of h0 c0).
      rewrite chan_of_set_chan. case_decide; cbn; lia.
    + by case_decide.
    + destruct (buf (chan_of h c)) as [|f fs] eqn:Hb; [done|]. cbn [hub_of].
      rewrite chan_of_set_chan. case_decide as Heq; [|done].
      subst c0. cbn. rewrite Hb. cbn. lia.
Qed.

(** The others leave the map and the history alone, keep [unregister]
    within its capacity, and only ever take frames from a [send]
    channel. *)
Lemma others_facts acts h :
  Inv h → length (unregister h) ≤ unregisterCap →
  Inv (others acts h)
  ∧ clients (others acts h) = clients h
  ∧ delivered (others acts h) = delivered h
  ∧ length (unregister (others acts h)) ≤ unregisterCap
  ∧ ∀ c, length (buf (chan_of (others acts h) c)) ≤ length (buf (chan_of h c)).
Proof.
  unfold others. revert h.
  induction acts as [|a acts IH]; intros h Hinv Hcap; [done|].
  cbn [foldl].
  destruct (activity_step h a Hinv Hcap) as (H1 & H2 & H3 & H4 & H5).
  destruct (IH _ H1 H4) as (K1 & K2 & K3 & K4 & K5).
  split; [done|]. split; [by rewrite K2|]. split; [by rewrite K3|].
  split; [done|]. intros c. specialize (K5 c). specialize (H5 c). lia.
Qed.

Lemma trySend_blocked data c h h' :
  trySend data c h = Blocked h' →
  h' = h ∧ full h c ∧ unregisterCap ≤ length (unregister h).
Proof.
  unfold trySend, full. destruct (closed (chan_of h c)); [done|].
  repeat case_decide; intros [= <-]. split; [done|]. lia.
Qed.

Lemma member_open h acct c :
  Inv h → c ∈ clients_of h acct → closed (chan_of h c) = false.
Proof.
  intros Hinv Hc. unfold clients_of in Hc.
  destruct (clients h !! acct) as [cs|] eqn:Hcs;
    [|by apply not_elem_of_empty in Hc].
  by destruct (inv_member _ Hinv _ _ _ Hcs Hc) as (_ & ? & _).
Qed.

Lemma delivered_to_snoc c c' data (l : list (WSClient * Frame)) :
  (filter (λ p, p.1 = c') (l ++ [(c, data)])).*2
  = (filter (λ p, p.1 = c') l).*2 ++ (if decide (c = c') then [data] else []).
Proof.
  rewrite filter_app, filter_cons, filter_nil, fmap_app. cbn [fst].
  by case_decide.
Qed.

(** The loop amid the others, from a hub that satisfies the invariant. *)
Lemma sendLoopAmid_spec data rounds h acct :
  Inv h → length (unregister h) ≤ unregisterCap →
  NoDup rounds.*2 →
  (∀ c, c ∈ rounds.*2 → c ∈ clients_of h acct) →
  account_id data = acct →
  ¬ panicked (sendLoopAmid data rounds h)
  ∧ Inv (hub_of (sendLoopAmid data rounds h))
  ∧ clients (hub_of (sendLoopAmid data rounds h)) = clients h
  ∧ length (unregister (hub_of (sendLoopAmid data rounds h))) ≤ unregisterCap
  ∧ (∀ c, c ∉ rounds.*2 →
          delivered_to c (hub_of (sendLoopAmid data rounds h))
          = delivered_to c h)
  ∧ ((∀ c, c ∈ rounds.*2 → ¬ full h c) →
     ∃ h', sendLoopAmid data rounds h = Running h'
           ∧ ∀ c, c ∈ rounds.*2 →
                  delivered_to c h' = delivered_to c h ++ [data])
  ∧ (∀ h', sendLoopAmid data rounds h = Blocked h' →
           length (unregister h') = unregisterCap
           ∧ ∃ c, c ∈ rounds.*2 ∧ full h c ∧ full h' c
                  ∧ delivered_to c h' = delivered_to c h).
Proof.
  revert h. induction rounds as [|[acts c] rest IH];
    intros h Hinv Hcap Hnd Hmem Hacct.
  { cbn. split; [tauto|]. do 4 (split; [done|]).
    split; [|by intros h' [=]].
    intros _. exists h. split; [done|]. intros c Hc.
    by apply elem_of_nil in Hc. }
  cbn [fmap list_fmap snd] in Hnd, Hmem |- *.
  apply NoDup_cons in Hnd as [Hc Hnd].
  destruct (others_facts acts h Hinv Hcap) as (Hinv1 & Hcl1 & Hd1 & Hcap1 & Hbuf1).
  cbn [sendLoopAmid].
  generalize dependent (others acts h). intros h1 Hinv1 Hcl1 Hd1 Hcap1 Hbuf1.
  assert (Hc1 : c ∈ clients_of h1 acct).
  { unfold clients_of. rewrite Hcl1. apply Hmem. by left. }
  pose proof (member_open h1 acct c Hinv1 Hc1) as Hopen.
  destruct (trySend_Inv data c h1 acct Hinv1 Hc1 Hacct) as (Hnp & Hinv2 & Hcl2).
  pose proof (trySend_unregister_cap data c h1 Hcap1) as Hcap2.
  pose proof (trySend_others data c h1) as Hoth.
  assert (Hfull1 : full h1 c → full h c).
  { unfold full. specialize (Hbuf1 c). lia. }
  assert (Hsame1 : ∀ c', delivered_to c' h1 = delivered_to c' h).
  { intros c'. unfold delivered_to. by rewrite Hd1. }
  destruct (decide (full h1 c)) as [Hfull|Hfree].
  - rewrite (trySend_full _ _ _ Hopen Hfull) in *.
    case_decide as Hroom; cbn [hub_of] in *.
    + set (h2 := set_unregister (unregister h1 ++ [Some c]) h1) in *.
      destruct (IH h2 Hinv2 Hcap2 Hnd) as (P1 & P2 & P3 & P4 & P5 & P6 & P7).
      { intros c' Hc'. unfold clients_of. rewrite Hcl2, Hcl1.
        apply Hmem. by right. }
      { done. }
      split; [done|]. split; [done|]. split; [by rewrite P3, Hcl2|].
      split; [done|]. split; [|split].
      * intros c0 [Hne Hc0]%not_elem_of_cons. rewrite (P5 c0 Hc0).
        apply Hsame1.
      * intros Hno. destruct (Hno c); [by left|by apply Hfull1].
      * intros h' Hb.
        destruct (P7 h' Hb) as (Hlen & c' & Hc' & Hf2 & Hf' & Hdd).
        split; [done|]. exists c'. split; [by right|].
        split; [|split; [done|]].
        -- unfold full in *. specialize (Hbuf1 c').
           change (chan_of h2 c') with (chan_of h1 c') in Hf2. lia.
        -- rewrite Hdd. apply Hsame1.
    + split; [tauto|]. split; [done|]. split; [done|]. split; [done|].
      split; [|split].
      * intros c0 _. apply Hsame1.
      * intros Hno. destruct (Hno c); [by left|by apply Hfull1].
      * intros h' [= <-]. split; [lia|]. exists c. split; [by left|].
        split; [by apply Hfull1|]. split; [done|]. apply Hsame1.
  - rewrite (trySend_room _ _ _ Hopen Hfree) in *. cbn [hub_of] in *.
    set (h2 := log_delivered c data
                 (set_chan c {| buf := buf (chan_of h1 c) ++ [data];
                                closed := false |} h1)) in *.
    assert (Hdel : ∀ c', delivered_to c' h2
                         = delivered_to c' h
                           ++ (if decide (c = c') then [data] else [])).
    { intros c'. rewrite <- Hsame1. unfold delivered_to, h2.
      cbn [delivered log_delivered set_chan]. apply delivered_to_snoc. }
    assert (Hmono : ∀ c', c ≠ c' → full h2 c' → full h c').
    { intros c' Hne. unfold full. rewrite (Hoth c' Hne).
      specialize (Hbuf1 c'). lia. }
    destruct (IH h2 Hinv2 Hcap2 Hnd) as (P1 & P2 & P3 & P4 & P5 & P6 & P7).
    { intros c' Hc'. unfold clients_of. rewrite Hcl2, Hcl1.
      apply Hmem. by right. }
    { done. }
    split; [done|]. split; [done|]. split; [by rewrite P3, Hcl2|].
    split; [done|]. split; [|split].
    + intros c0 [Hne Hc0]%not_elem_of_cons. rewrite (P5 c0 Hc0), Hdel.
      rewrite decide_False by congruence. apply app_nil_r.
    + intros Hno. destruct P6 as (h' & Hrun & Hall).
      { intros c' Hc' Hf. apply (Hno c'); [by right|].
        apply Hmono; [|done]. intros ->. done. }
      exists h'. split; [done|]. intros c' [->|Hc']%elem_of_cons.
      * pose proof (P5 c Hc) as Hk. rewrite Hrun in Hk. cbn [hub_of] in Hk.
        rewrite Hk, Hdel. by rewrite decide_True.
      * rewrite (Hall c' Hc'), Hdel.
        rewrite decide_False by (intros ->; done). by rewrite app_nil_r.
    + intros h' Hb.
      destruct (P7 h' Hb) as (Hlen & c' & Hc' & Hf2 & Hf' & Hdd).
      assert (Hne : c ≠ c') by (intros ->; done).
      split; [done|]. exists c'. split; [by right|].
      split; [by apply Hmono|]. split; [done|].
      rewrite Hdd, Hdel. rewrite decide_False by done. apply app_nil_r.
Qed.

Lemma json_Marshal_account msg data :
  json_Marshal msg = Some data → account_id data = AccountID msg.
Proof.
  unfold json_Marshal. destruct (Payload_ msg); [|done]. by intros [= <-].
Qed.

Lemma range_order_member h msg order c :
  range_order h (Some msg) order → c ∈ order →
  c ∈ clients_of h (AccountID msg).
Proof.
  intros [_ Hset] Hc. rewrite <- Hset. by apply elem_of_list_to_set.
Qed.

Lemma stepAmid_Inv h ev :
  Inv h → length (unregister h) ≤ unregisterCap →
  ¬ panicked (stepAmid h ev)
  ∧ Inv (hub_of (stepAmid h ev))
  ∧ length (unregister (hub_of (stepAmid h ev))) ≤ unregisterCap.
Proof.
  intros Hinv Hcap. destruct ev as [ev|m rounds]; cbn [stepAmid].
  - destruct (step_Inv h ev Hinv) as [H1 H2]. split; [done|].
    split; [done|]. by apply step_unregister_cap.
  - case_decide as Hord; [|cbn; tauto]. unfold broadcastAmid.
    destruct m as [msg|]; [|cbn; tauto]. case_decide; [cbn; tauto|].
    destruct (json_Marshal msg) as [data|] eqn:Hdata; [|cbn; tauto].
    destruct (sendLoopAmid_spec data rounds h (AccountID msg) Hinv Hcap)
      as (P1 & P2 & _ & P4 & _); try done.
    + by destruct Hord.
    + intros c Hc. by apply (range_order_member h msg rounds.*2).
    + by apply json_Marshal_account.
Qed.

(** Every execution in which the others act during the broadcasts keeps
    the invariant, never panics, and keeps [unregister] within its
    capacity. *)
Lemma runAmid_Inv h evs :
  Inv h → length (unregister h) ≤ unregisterCap →
  ¬ panicked (runAmid h evs)
  ∧ Inv (hub_of (runAmid h evs))
  ∧ length (unregister (hub_of (runAmid h evs))) ≤ unregisterCap.
Proof.
  revert h. induction evs as [|ev evs IH]; intros h Hinv Hcap;
    [cbn; tauto|].
  cbn [runAmid]. destruct (stepAmid_Inv h ev Hinv Hcap) as (Hnp & Hinv' & Hcap').
  destruct (stepAmid h ev) as [h'|h'|h']; cbn in *; [by apply IH|tauto|tauto].
Qed.

(** X18: a broadcast amid the other goroutines.  While the hub goroutine
    ranges over the clients of the account, the others may accept
    connections, send clients on [unregister] and take frames from [send]
    channels between any two rounds.  In every hub reached that way, for a
    message that can be encoded: the broadcast does not panic and leaves
    the map of clients as it is; it records no frame for a client outside
    the account; if no client of the account has a full [send] channel when
    the broadcast starts, the broadcast completes whatever the others do,
    and every client of the account is sent the frame exactly once; and if
    the hub goroutine blocks, then [unregister] is full and the client at
    hand, whose [send] channel was full when the broadcast started and
    still is, has been sent nothing. *)
Theorem broadcast_amid evs h msg data rounds :
  runAmid NewWSHub evs = Running h →
  json_Marshal msg = Some data →
  range_order h (Some msg) rounds.*2 →
  let o := stepAmid h (RecvBroadcastAmid (Some msg) rounds) in
  ¬ panicked o
  ∧ clients (hub_of o) = clients h
  ∧ (∀ c, c ∉ rounds.*2 → delivered_to c (hub_of o) = delivered_to c h)
  ∧ ((∀ c, c ∈ rounds.*2 → ¬ full h c) →
     ∃ h', o = Running h'
           ∧ ∀ c, c ∈ rounds.*2 →
                  delivered_to c h' = delivered_to c h ++ [data])
  ∧ (∀ h', o = Blocked h' →
           length (unregister h') = unregisterCap
           ∧ ∃ c, c ∈ rounds.*2 ∧ full h c ∧ full h' c
                  ∧ delivered_to c h' = delivered_to c h).
Proof.
  intros Hrun Hdata Hord o.
  destruct (runAmid_Inv NewWSHub evs Inv_NewWSHub ltac:(cbn; lia))
    as (_ & Hinv & Hcap).
  rewrite Hrun in Hinv, Hcap. cbn [hub_of] in Hinv, Hcap.
  assert (Hstep : o = if decide (size (clients_of h (AccountID msg)) = 0)
                      then Running h else sendLoopAmid data rounds h).
  { subst o. cbn [stepAmid]. rewrite decide_True by done.
    unfold broadcastAmid. by rewrite Hdata. }
  assert (Hempty : size (clients_of h (AccountID msg)) = 0 → rounds.*2 = []).
  { intros Hs. apply size_empty_iff in Hs. destruct Hord as [_ Hset].
    destruct (rounds.*2) as [|c ?]; [done|]. exfalso.
    apply (not_elem_of_empty (C := gset WSClient) c).
    rewrite <- Hs, <- Hset. apply elem_of_list_to_set, list_elem_of_here. }
  rewrite Hstep. clear Hstep o. case_decide as Hs.
  - rewrite (Hempty Hs). cbn. split; [tauto|]. do 2 (split; [done|]).
    split; [|by intros h' [=]].
    intros _. exists h. split; [done|]. intros c Hc.
    by apply elem_of_nil in Hc.
  - destruct (sendLoopAmid_spec data rounds h (AccountID msg) Hinv Hcap)
      as (P1 & _ & P3 & _ & P5 & P6 & P7); try done.
    + by destruct Hord.
    + intros c Hc. by apply (range_order_member h msg rounds.*2).
    + by apply json_Marshal_account.
Qed.

Lemma broadcast_amid_witness :
  ∃ h',
    stepAmid (hub_of (runAmid NewWSHub (Alone <$> connectAll 2)))
      (RecvBroadcastAmid (Some (message "a1"))
         [ ([Writes (client 1 "a1")], client 1 "a1");
           ([Exits (Some (client 1 "a1")); Accepts "a2"], client 2 "a1") ])
    = Running h'
    ∧ delivered_to (client 1 "a1") h' = [frame "a1"]
    ∧ delivered_to (client 2 "a1") h' = [frame "a1"].
Proof.
  assert (Hrun : runAmid NewWSHub (Alone <$> connectAll 2)
                 = Running (hub_of (runAmid NewWSHub (Alone <$> connectAll 2))))
    by (vm_compute; reflexivity).
  destruct (broadcast_amid (Alone <$> connectAll 2)
              (hub_of (runAmid NewWSHub (Alone <$> connectAll 2)))
              (message "a1") (frame "a1")
              [ ([Writes (client 1 "a1")], client 1 "a1");
                ([Exits (Some (client 1 "a1")); Accepts "a2"],
                 client 2 "a1") ]
              Hrun eq_refl)
    as (_ & _ & _ & Hok & _).
  { split; [|vm_compute; reflexivity].
    apply NoDup_cons. split; [|apply NoDup_singleton].
    intros Heq%list_elem_of_singleton. discriminate Heq. }
  destruct Hok as (h' & Hstep & Hall).
  { intros c Hc. vm_compute in Hc.
    apply elem_of_cons in Hc as [->|Hc];
      [|apply list_elem_of_singleton in Hc as ->]; vm_compute; lia. }
  exists h'. split; [exact Hstep|]. split.
  - apply (Hall (client 1 "a1")). apply list_elem_of_here.
  - apply (Hall (client 2 "a1")). apply list_elem_of_further, list_elem_of_here.
Defined.

(** Why room on [unregister] at the start does not decide the outcome: with
    one free place on [unregister] and one client whose [send] channel is
    full, the round of that client completes when the others are idle,
    blocks when another goroutine takes the place first, and sends the frame
    when the writer of the client takes a frame first. *)
Lemma activity_decides data c h :
  closed (chan_of h c) = false →
  length (buf (chan_of h c)) = sendCap →
  length (unregister h) + 1 = unregisterCap →
  (∃ h', sendLoopAmid data [([], c)] h = Running h'
         ∧ unregister h' = unregister h ++ [Some c])
  ∧ (∃ h', sendLoopAmid data [([Exits None], c)] h = Blocked h')
  ∧ (∃ h', sendLoopAmid data [([Writes c], c)] h = Running h'
           ∧ delivered h' = delivered h ++ [(c, data)]).
Proof.
  intros Hopen Hlen Hun.
  assert (Hfull : full h c) by (unfold full; lia).
  split; [|split]; cbn [sendLoopAmid others foldl event_of step].
  - rewrite (trySend_full _ _ _ Hopen Hfull).
    rewrite decide_True by lia. by eexists.
  - rewrite decide_True by lia. cbn [hub_of].
    rewrite trySend_full; [|done|done].
    rewrite decide_False; [by eexists|]. cbn. rewrite length_app. cbn. lia.
  - destruct (buf (chan_of h c)) as [|f fs] eqn:Hb; [cbn in Hlen; done|].
    cbn [hub_of]. rewrite trySend_room.
    + by eexists.
    + by rewrite chan_of_set_chan_eq.
    + unfold full. rewrite chan_of_set_chan_eq. cbn [buf].
      cbn [length] in Hlen. lia.
Qed.

End Hub_amid.

(** ** The order of the nodes *)
Section Node_orders.
Import Store Nodes.
Local Open Scope Z_scope.

Lemma clamp_max o : (if Z.ltb o 0 then 0 else o) = Z.max o 0.
Proof. destruct (Z.ltb_spec o 0); lia. Qed.

Lemma apply_orders_cons accountID e rest r :
  apply_orders accountID (e :: rest) r
  = apply_orders accountID rest
      (if decide (id r = e.1 ∧ account_id r = accountID)
       then with_order (Z.max e.2 0) r else r).
Proof. reflexivity. Qed.

Lemma execOrders_nodes accountID order rows db :
  nodes (execOrders accountID order rows db).1 = nodes db.
Proof.
  revert rows db. induction order as [|[nodeID o] rest IH]; intros rows db;
    [done|].
  cbn [execOrders]. destruct (fails db); [done|]. by rewrite IH.
Qed.

Lemma execOrders_cases accountID order rows db :
  let res := execOrders accountID order rows db in
  res.2 = None
  ∨ res.2 = Some (apply_orders accountID order <$> rows).
Proof.
  revert rows db. induction order as [|[nodeID o] rest IH]; intros rows db.
  { right. cbn. by rewrite list_fmap_id. }
  cbn [execOrders]. destruct (fails db); [by left|].
  destruct (IH (update_order (if Z.ltb o 0 then 0 else o) nodeID accountID rows)
               (answered db)) as [Hn|Hs]; [by left|right].
  cbn zeta in *. rewrite Hs. f_equal.
  unfold update_order. rewrite <- list_fmap_compose.
  apply list_fmap_ext. intros i r _. cbn. by rewrite clamp_max.
Qed.

Lemma apply_orders_id accountID order r :
  id (apply_orders accountID order r) = id r
  ∧ account_id (apply_orders accountID order r) = account_id r
  ∧ columns (apply_orders accountID order r) = columns r.
Proof.
  revert r. induction order as [|e rest IH]; intros r; [done|].
  rewrite apply_orders_cons.
  destruct (IH (if decide (id r = e.1 ∧ account_id r = accountID)
                then with_order (Z.max e.2 0) r else r))
    as (H1 & H2 & H3).
  rewrite H1, H2, H3. by case_decide.
Qed.

Lemma apply_orders_other accountID order r :
  (account_id r ≠ accountID ∨ id r ∉ order.*1) →
  apply_orders accountID order r = r.
Proof.
  revert r. induction order as [|e rest IH]; intros r Hr; [done|].
  rewrite apply_orders_cons, decide_False.
  - apply IH. destruct Hr as [?|Hr]; [by left|right].
    intros Hin. apply Hr. cbn. by right.
  - intros [Hid Hacc]. destruct Hr as [?|Hr]; [done|].
    apply Hr. cbn. rewrite Hid. by left.
Qed.

(** With distinct keys the loop writes to a row what the map holds for its
    id, in whatever order the entries come. *)
Lemma apply_orders_reordered accountID (orders : gmap string Z) order r :
  order ≡ₚ map_to_list orders →
  apply_orders (normalizeAccount accountID) order r
  = reordered accountID orders r.
Proof.
  intros Hperm.
  assert (Hnd : NoDup order.*1).
  { rewrite Hperm. apply NoDup_fst_map_to_list. }
  assert (Hlook : ∀ k o, (k, o) ∈ order ↔ orders !! k = Some o).
  { intros k o. rewrite Hperm. apply elem_of_map_to_list. }
  unfold reordered. clear Hperm.
  revert orders Hlook r. induction order as [|[k o] rest IH];
    intros orders Hlook r.
  { cbn. destruct (orders !! id r) as [o|] eqn:Ho; [|done].
    apply Hlook in Ho. by apply not_elem_of_nil in Ho. }
  apply NoDup_cons in Hnd as [Hk Hnd]. rewrite apply_orders_cons.
  cbn [fst snd] in *. case_decide as Hm.
  - destruct Hm as [Hid Hacc].
    rewrite apply_orders_other by (right; cbn; by rewrite Hid).
    assert (Ho : orders !! id r = Some o)
      by (apply Hlook; rewrite Hid; by left).
    by rewrite Ho, decide_True.
  - destruct (decide (id r = k)) as [Hid|Hid].
    + assert (Hacc : account_id r ≠ normalizeAccount accountID) by tauto.
      rewrite apply_orders_other by by left.
      destruct (orders !! id r); [|done]. by rewrite decide_False.
    + rewrite (IH Hnd (delete k orders)).
      * by rewrite lookup_delete_ne.
      * intros k' o'. rewrite lookup_delete_Some. split.
        -- intros Hin. split.
           ++ intros <-. apply Hk. apply list_elem_of_fmap.
              by exists (k, o').
           ++ apply Hlook. by right.
        -- intros [Hne Hl]. apply Hlook in Hl.
           apply elem_of_cons in Hl as [[= ? ?]|Hl]; [done|done].
Qed.

(** X20: [UpdateNodeOrders] is all or nothing and stays within the
    account.  With an error the table is as it was; without one, and
    whatever the order in which the map is ranged over, a row is written
    exactly when its account is the normalised account of the call and the
    map holds an order for its id, and then its [sort_order] becomes that
    order, or 0 if the order is negative; the ids, the accounts and the
    other columns of all rows stay.  An empty map makes no call to the
    driver. *)
Theorem UpdateNodeOrders_atomic accountID (orders : gmap string Z) order
    db db' err :
  order ≡ₚ map_to_list orders →
  UpdateNodeOrders accountID order db = (db', err) →
  (err ≠ None → nodes db' = nodes db)
  ∧ (err = None → nodes db' = reordered accountID orders <$> nodes db)
  ∧ (orders = ∅ → db' = db ∧ err = None).
Proof.
  intros Hperm. unfold UpdateNodeOrders.
  case_decide as Hlen.
  { intros [= <- <-]. apply nil_length_inv in Hlen. subst order.
    split; [done|]. split; [|done]. intros _.
    symmetry in Hperm. apply Permutation_nil_r in Hperm.
    apply map_to_list_empty_iff in Hperm. subst orders.
    rewrite <- (list_fmap_id (nodes db)) at 1.
    apply list_fmap_ext. intros i r _. unfold reordered.
    by rewrite lookup_empty. }
  assert (Hne : orders ≠ ∅).
  { intros ->. rewrite map_to_list_empty in Hperm.
    apply Permutation_nil_r in Hperm. by subst order. }
  destruct (fails db); [intros [= <- <-]; by repeat split|].
  destruct (fails (answered db)); [intros [= <- <-]; by repeat split|].
  pose proof (execOrders_cases (normalizeAccount accountID) order
                (nodes (answered db)) (answered (answered db))) as Hex.
  pose proof (execOrders_nodes (normalizeAccount accountID) order
                (nodes (answered db)) (answered (answered db))) as Hdb.
  cbn zeta in Hex.
  destruct (execOrders (normalizeAccount accountID) order
              (nodes (answered db)) (answered (answered db)))
    as [db1 [rows|]] eqn:Hrun; cbn [fst snd] in Hex, Hdb;
    [|intros [= <- <-]; by repeat split].
  destruct Hex as [[=]|[= ->]].
  destruct (fails db1) eqn:Hf; intros [= <- <-];
    [by repeat split|].
  split; [done|]. split; [|done]. intros _. cbn.
  apply list_fmap_ext. intros i r _.
  by apply apply_orders_reordered.
Qed.

Lemma UpdateNodeOrders_atomic_witness :
  nodes (UpdateNodeOrders "a1" [("n1", -2); ("n3", 7)] sampleNodes).1
  = reordered "a1" {[ "n1" := -2; "n3" := 7 ]} <$> nodes sampleNodes.
Proof.
  refine (proj1 (proj2 (UpdateNodeOrders_atomic "a1"
                          {[ "n1" := -2; "n3" := 7 ]}
                          [("n1", -2); ("n3", 7)] sampleNodes _ None
                          _ (surjective_pairing _))) eq_refl).
  vm_compute. first [reflexivity | apply perm_swap].
Defined.

(** The sample: the negative order of [n1] becomes 0, and the order for
    [n3], a node of another account, is not written. *)
Example UpdateNodeOrders_sample :
  sort_order <$> nodes (UpdateNodeOrders "a1" [("n3", 7); ("n1", -2)]
                                         sampleNodes).1
  = [0; 9; 1].
Proof. vm_compute. reflexivity. Qed.

Lemma max_sort_order_cons accountID r rows :
  max_sort_order accountID (r :: rows)
  = if decide (account_id r = accountID) then
      Some (match max_sort_order accountID rows with
            | Some m => Z.max (sort_order r) m
            | None => sort_order r
            end)
    else max_sort_order accountID rows.
Proof. reflexivity. Qed.

Lemma max_sort_order_spec accountID rows :
  match max_sort_order accountID rows with
  | None => ∀ r, r ∈ rows → account_id r ≠ accountID
  | Some m =>
      (∀ r, r ∈ rows → account_id r = accountID → sort_order r ≤ m)
      ∧ ∃ r, r ∈ rows ∧ account_id r = accountID ∧ sort_order r = m
  end.
Proof.
  induction rows as [|r rows IH].
  { intros r Hr. by apply not_elem_of_nil in Hr. }
  rewrite max_sort_order_cons. case_decide as Hacc.
  - destruct (max_sort_order accountID rows) as [m|].
    + destruct IH as [Hle (r0 & Hin & Ha & Hm)]. split.
      * intros r' [-> |Hr']%elem_of_cons Ha'; [lia|].
        specialize (Hle r' Hr' Ha'). lia.
      * destruct (Z.max_spec (sort_order r) m) as [[_ ->]|[_ ->]].
        -- exists r0. split; [by right|done].
        -- exists r. split; [by left|done].
    + split.
      * intros r' [-> |Hr']%elem_of_cons Ha'; [lia|]. by destruct (IH r' Hr').
      * exists r. split; [by left|done].
  - destruct (max_sort_order accountID rows) as [m|].
    + destruct IH as [Hle (r0 & Hin & Ha & Hm)]. split.
      * intros r' [-> |Hr']%elem_of_cons Ha'; [done|]. by apply Hle.
      * exists r0. split; [by right|done].
    + intros r' [-> |Hr']%elem_of_cons; [done|]. by apply IH.
Qed.

(** X21: when [MaxSortOrder] answers without an error, its answer is 0 for
    an account without nodes and otherwise the order of one of the nodes of
    the account and at least the order of each of them; the table is not
    changed. *)
Theorem MaxSortOrder_spec accountID db db' m :
  MaxSortOrder accountID db = (db', inl m) →
  let mine r := account_id r = normalizeAccount accountID in
  nodes db' = nodes db
  ∧ ((∀ r, r ∈ nodes db → ¬ mine r) → m = 0)
  ∧ (∀ r, r ∈ nodes db → mine r →
          sort_order r ≤ m
          ∧ ∃ r', r' ∈ nodes db ∧ mine r' ∧ sort_order r' = m).
Proof.
  unfold MaxSortOrder. destruct (fails db); [intros [=]|].
  pose proof (max_sort_order_spec (normalizeAccount accountID) (nodes db))
    as Hspec.
  destruct (max_sort_order (normalizeAccount accountID) (nodes db)) as [m'|];
    intros [= <- <-]; cbn zeta; (split; [done|]).
  - destruct Hspec as [Hle (r0 & Hin & Ha & Hm)]. split.
    + intros Hnone. by destruct (Hnone r0 Hin).
    + intros r Hr Hmine. split; [by apply Hle|]. by exists r0.
  - split; [done|]. intros r Hr Hmine. by destruct (Hspec r Hr).
Qed.

Lemma MaxSortOrder_spec_witness :
  sort_order {| id := "n2"; account_id := "a1"; sort_order := 9;
                columns := [] |} ≤ 9.
Proof.
  refine (proj1 (proj2 (proj2 (MaxSortOrder_spec "a1" sampleNodes
                                 (answered sampleNodes) 9 eq_refl))
                       {| id := "n2"; account_id := "a1"; sort_order := 9;
                          columns := [] |} _ eq_refl)).
  vm_compute. apply list_elem_of_further, list_elem_of_here.
Defined.

End Node_orders.
